(** * Sync graph builder of azure_dbr_scim_sync/graph.py

    A shallow embedding of [GraphAPIClient.get_objects_for_sync] and of the
    pydantic entity models it validates with, followed by the properties of
    the traversal: registration caching, skipping of unresolved names,
    alias fallback, default activation, group linkage and how exceptions
    leave the per-member loop.

    Python objects live in a heap and are named by their address, so that
    "the same object" is equality of addresses.  Exceptions are an explicit
    outcome.  Calls to the directory transport and to [model_validate] are
    recorded as a list of events next to the outcome.  The [logger] calls
    have no effect on the data and are left out. *)

From Stdlib Require Import ZArith SpecFloat.
From stdpp Require Import base gmap strings list fin_maps pretty.

Local Set Warnings "-register-all".
Local Open Scope string_scope.
Local Open Scope list_scope.

(** ** JSON values, as [requests]' [res.json()] hands them to the code

    A [float] is a binary64 value, in the Standard Library's description of
    IEEE 754. *)

Inductive json : Type :=
  | JNull
  | JBool (b : bool)
  | JInt (z : Z)
  | JFloat (f : spec_float)
  | JStr (s : string)
  | JArr (l : list json)
  | JObj (o : gmap string json).

(** A raw directory record is a Python [dict] with [str] keys. *)
Abbreviation record := (gmap string json).

Definition is_None (v : json) : bool :=
  match v with JNull => true | _ => false end.

(** [{k: v for k, v in m.items() if v is not None}] (line 201). *)
Definition strip_none (m : record) : record :=
  filter (λ kv, is_None kv.2 = false) m.

(** ** Exceptions *)

(** One line of a pydantic [ValidationError]: where, and whether the field
    was absent or present with a value of the wrong shape. *)
Inductive error_type := missing | malformed.

Record field_error := FieldError { type : error_type; loc : list string }.

(** The exceptions of the run.  [Stuck] is not a Python exception: it is
    what the embedding answers when an address is not in the heap or does
    not hold the expected kind of object;
    [get_objects_for_sync_not_stuck] shows that no run raises it. *)
Inductive exn :=
  | KeyError (key : json)
  | UnboundLocalError (name : string)
  | TypeError (msg : string)
  | ValidationError (title : string) (errs : list field_error)
  | HTTPError (status : nat)
  | Stuck.

(** [UnboundLocalError] is a subclass of [NameError]. *)
Definition is_NameError (e : exn) : bool :=
  match e with UnboundLocalError _ => true | _ => false end.

Definition is_ValidationError (e : exn) : bool :=
  match e with ValidationError _ _ => true | _ => false end.

(** ** Field validation (pydantic v2, lax mode, the default) *)

Definition ascii_lower (c : Ascii.ascii) : Ascii.ascii :=
  let n := Ascii.nat_of_ascii c in
  if (65 <=? n)%nat && (n <=? 90)%nat then Ascii.ascii_of_nat (n + 32) else c.

Fixpoint lower (s : string) : string :=
  match s with
  | EmptyString => EmptyString
  | String c s' => String (ascii_lower c) (lower s')
  end.

(** A [str] field takes a [str] only: numbers are not coerced. *)
Definition validate_str (v : json) : option string :=
  match v with JStr s => Some s | _ => None end.

(** A [bool] field takes a [bool], the numbers 0 and 1, and the usual
    spellings of true and false. *)
Definition validate_bool (v : json) : option bool :=
  match v with
  | JBool b => Some b
  | JInt z => if (z =? 0)%Z then Some false else if (z =? 1)%Z then Some true else None
  | JFloat f =>
      if SFeqb f (S754_zero false) then Some false
      else if SFeqb f (SFone 53 1024) then Some true else None
  | JStr s =>
      let l := lower s in
      if bool_decide (s = "0" ∨ l ∈ ["f"; "n"; "no"; "off"; "false"]) then Some false
      else if bool_decide (s = "1" ∨ l ∈ ["t"; "y"; "on"; "yes"; "true"]) then Some true
      else None
  | _ => None
  end.

(** [AliasChoices(a1, a2, ...)]: the first alias that is a key of the
    record is the one read, whatever its value. *)
Fixpoint alias_choices (aliases : list string) (d : record) : option (string * json) :=
  match aliases with
  | [] => None
  | a :: rest =>
      match d !! a with
      | Some v => Some (a, v)
      | None => alias_choices rest d
      end
  end.

(** A field without default: absent is an error. *)
Definition required {A} (validate : json → option A) (aliases : list string)
    (d : record) : A + field_error :=
  match alias_choices aliases d with
  | None => inr (FieldError missing (take 1 aliases))
  | Some (a, v) =>
      match validate v with
      | Some x => inl x
      | None => inr (FieldError malformed [a])
      end
  end.

(** A field with [default=...]: absent takes the default. *)
Definition optional {A} (validate : json → option A) (aliases : list string)
    (default : A) (d : record) : A + field_error :=
  match alias_choices aliases d with
  | None => inl default
  | Some (a, v) =>
      match validate v with
      | Some x => inl x
      | None => inr (FieldError malformed [a])
      end
  end.

Definition errors_of {A} (f : A + field_error) : list field_error :=
  match f with inl _ => [] | inr e => [e] end.

(** ** Entity models *)

Module GraphBase.
Record t := mk { id : string; display_name : string }.

Definition fields (d : record) : t + list field_error :=
  let f_id := required validate_str ["id"] d in
  let f_display_name := required validate_str ["displayName"] d in
  match f_id, f_display_name with
  | inl i, inl n => inl (mk i n)
  | _, _ => inr (errors_of f_id ++ errors_of f_display_name)
  end.

Definition model_validate (d : record) : t + exn :=
  match fields d with
  | inl b => inl b
  | inr es => inr (ValidationError "GraphBase" es)
  end.
End GraphBase.

Module GraphUser.
Record t := mk { id : string; display_name : string; mail : string; active : bool }.

Definition model_validate (d : record) : t + exn :=
  let f_id := required validate_str ["id"] d in
  let f_display_name := required validate_str ["displayName"] d in
  let f_mail := required validate_str ["mail"; "mailNickname"] d in
  let f_active := optional validate_bool ["accountEnabled"] true d in
  match f_id, f_display_name, f_mail, f_active with
  | inl i, inl n, inl m, inl a => inl (mk i n m a)
  | _, _, _, _ =>
      inr (ValidationError "GraphUser"
             (errors_of f_id ++ errors_of f_display_name
              ++ errors_of f_mail ++ errors_of f_active))
  end.
End GraphUser.

Module GraphServicePrincipal.
Record t := mk { id : string; display_name : string;
                 application_id : string; active : bool }.

Definition model_validate (d : record) : t + exn :=
  let f_id := required validate_str ["id"] d in
  let f_display_name := required validate_str ["displayName"] d in
  let f_application_id := required validate_str ["appId"] d in
  let f_active := optional validate_bool ["accountEnabled"] true d in
  match f_id, f_display_name, f_application_id, f_active with
  | inl i, inl n, inl app, inl a => inl (mk i n app a)
  | _, _, _, _ =>
      inr (ValidationError "GraphServicePrincipal"
             (errors_of f_id ++ errors_of f_display_name
              ++ errors_of f_application_id ++ errors_of f_active))
  end.
End GraphServicePrincipal.

Module GraphGroup.
(** [R] is what a member is held by: a validated [GraphBase] while the
    model is being built, the address of an object once it is in the heap. *)
Record t (R : Type) := mk { id : string; display_name : string;
                            members : option (gmap string R) }.
Arguments mk {R} _ _ _.
Arguments id {R} _.
Arguments display_name {R} _.
Arguments members {R} _.

Definition validate_member (k : string) (v : json) : GraphBase.t + list field_error :=
  match v with
  | JObj d =>
      match GraphBase.fields d with
      | inl b => inl b
      | inr es => inr ((λ e, FieldError (type e) ("members" :: k :: loc e)) <$> es)
      end
  | _ => inr [FieldError malformed ["members"; k]]
  end.

(** [Optional[Dict[str, GraphBase]]] with [default_factory=lambda: {}]. *)
Definition validate_members (d : record)
    : option (gmap string GraphBase.t) + list field_error :=
  match d !! "members" with
  | None => inl (Some ∅)
  | Some JNull => inl None
  | Some (JObj o) =>
      match mjoin ((λ kv, match validate_member kv.1 kv.2 with
                          | inl _ => []
                          | inr es => es
                          end) <$> map_to_list o) with
      | [] => inl (Some (map_imap (λ k v, match validate_member k v with
                                          | inl b => Some b
                                          | inr _ => None
                                          end) o))
      | es => inr es
      end
  | Some _ => inr [FieldError malformed ["members"]]
  end.

Definition model_validate (d : record) : t GraphBase.t + exn :=
  let f_id := required validate_str ["id"] d in
  let f_display_name := required validate_str ["displayName"] d in
  let f_members := validate_members d in
  match f_id, f_display_name, f_members with
  | inl i, inl n, inl ms => inl (mk i n ms)
  | _, _, _ =>
      inr (ValidationError "GraphGroup"
             (errors_of f_id ++ errors_of f_display_name
              ++ match f_members with inl _ => [] | inr es => es end))
  end.
End GraphGroup.

(** ** The heap of entity objects and the result aggregate *)

Definition addr := nat.

Inductive object :=
  | OUser (u : GraphUser.t)
  | OServicePrincipal (p : GraphServicePrincipal.t)
  | OGroup (g : GraphGroup.t addr)
  | OBase (b : GraphBase.t).

(** The [id] attribute, which every subclass of [GraphBase] has. *)
Definition object_id (o : object) : string :=
  match o with
  | OUser u => GraphUser.id u
  | OServicePrincipal p => GraphServicePrincipal.id p
  | OGroup g => GraphGroup.id g
  | OBase b => GraphBase.id b
  end.

Inductive kind := User | ServicePrincipal | Group.

#[global] Instance kind_eq_dec : EqDecision kind.
Proof. solve_decision. Defined.

(** [GraphSyncObject]: the three dictionaries hold references to objects. *)
Record GraphSyncObject := mkSync {
  users : gmap string addr;
  service_principals : gmap string addr;
  groups : gmap string addr;
  errors : list (record * exn)
}.

Definition mapping (k : kind) (sd : GraphSyncObject) : gmap string addr :=
  match k with
  | User => users sd
  | ServicePrincipal => service_principals sd
  | Group => groups sd
  end.

Definition mapping_insert (k : kind) (key : string) (a : addr)
    (sd : GraphSyncObject) : GraphSyncObject :=
  match k with
  | User => mkSync (<[key := a]> (users sd)) (service_principals sd) (groups sd) (errors sd)
  | ServicePrincipal =>
      mkSync (users sd) (<[key := a]> (service_principals sd)) (groups sd) (errors sd)
  | Group => mkSync (users sd) (service_principals sd) (<[key := a]> (groups sd)) (errors sd)
  end.

(** What a Python variable can be bound to here: an entity object or an
    exception object. *)
Inductive value := VObject (a : addr) | VException (e : exn).

(** The state of one run: the objects created so far, [sync_data], and the
    local variable [r] of [get_objects_for_sync] ([None]: not yet bound). *)
Record state := mkState {
  heap : list object;
  sync_data : GraphSyncObject;
  r : option value
}.

Definition initial : state := mkState [] (mkSync ∅ ∅ ∅ []) None.

(** ** Outcomes, events and the monad of the run *)

Inductive event :=
  | Lookup (name : string)
  | Fetch (group_id : json)
  | Validate (k : kind) (d : record).

Inductive outcome (A : Type) :=
  | Return (a : A) (s : state)
  | Raise (e : exn) (s : state).
Arguments Return {A} _ _.
Arguments Raise {A} _ _.

Definition M (A : Type) : Type := state → outcome A * list event.

Definition ret {A} (a : A) : M A := λ s, (Return a s, []).

Definition raise {A} (e : exn) : M A := λ s, (Raise e s, []).

Definition bind {A B} (m : M A) (f : A → M B) : M B :=
  λ s, match m s with
       | (Return a s', ev) => let '(o, ev') := f a s' in (o, ev ++ ev')
       | (Raise e s', ev) => (Raise e s', ev)
       end.

Definition emit (e : event) : M unit := λ s, (Return tt s, [e]).

Definition gets {A} (f : state → A) : M A := λ s, (Return (f s) s, []).

Definition modify (f : state → state) : M unit := λ s, (Return tt (f s), []).

(** [x ← m; k] and [m;; k] are stdpp's notations for [bind]. *)
#[global] Instance M_ret : MRet M := @ret.
#[global] Instance M_bind : MBind M := λ A B f m, bind m f.

(** [for x in l: body(x)] *)
Fixpoint for_each {A} (l : list A) (body : A → M unit) : M unit :=
  match l with
  | [] => ret tt
  | x :: xs => body x ;; for_each xs body
  end.

(** [if b: body] *)
Definition when (b : bool) (body : M unit) : M unit :=
  if b then body else ret tt.

(** ** Primitive operations on Python values *)

(** [d[key]] on a [dict] with [str] keys. *)
Definition getitem (d : record) (key : string) : M json :=
  match d !! key with
  | Some v => ret v
  | None => raise (KeyError (JStr key))
  end.

(** [x == '...']: only a [str] equals a [str]. *)
Definition eq_str (x : json) (s : string) : bool :=
  match x with JStr s' => bool_decide (s' = s) | _ => false end.

(** [id in sync_data.<mapping>]: a [list] or a [dict] cannot be hashed; any
    other value that is not a [str] is no key of a dictionary keyed by [str]. *)
Definition contains (k : kind) (id : json) : M bool :=
  match id with
  | JStr i => sd ← gets sync_data; ret (bool_decide (is_Some (mapping k sd !! i)))
  | JArr _ => raise (TypeError "unhashable type: 'list'")
  | JObj _ => raise (TypeError "unhashable type: 'dict'")
  | _ => ret false
  end.

(** [sync_data.<mapping>[id]] *)
Definition subscript (k : kind) (id : json) : M addr :=
  match id with
  | JStr i =>
      sd ← gets sync_data;
      match mapping k sd !! i with
      | Some a => ret a
      | None => raise (KeyError id)
      end
  | JArr _ => raise (TypeError "unhashable type: 'list'")
  | JObj _ => raise (TypeError "unhashable type: 'dict'")
  | _ => raise (KeyError id)
  end.

(** A new object, at a fresh address. *)
Definition alloc (o : object) : M addr :=
  λ s, (Return (length (heap s)) (mkState (heap s ++ [o]) (sync_data s) (r s)), []).

Fixpoint alloc_members (kvs : list (string * GraphBase.t)) : M (gmap string addr) :=
  match kvs with
  | [] => ret ∅
  | (k, b) :: rest =>
      a ← alloc (OBase b);
      ms ← alloc_members rest;
      ret (<[k := a]> ms)
  end.

(** [<Model>.model_validate(d)]: the entity is built in the heap and named
    by its address, together with its [id] attribute. *)
Definition model_validate (k : kind) (d : record) : M (addr * string) :=
  emit (Validate k d);;
  match k with
  | User =>
      match GraphUser.model_validate d with
      | inl u => a ← alloc (OUser u); ret (a, GraphUser.id u)
      | inr e => raise e
      end
  | ServicePrincipal =>
      match GraphServicePrincipal.model_validate d with
      | inl p => a ← alloc (OServicePrincipal p); ret (a, GraphServicePrincipal.id p)
      | inr e => raise e
      end
  | Group =>
      match GraphGroup.model_validate d with
      | inl g =>
          ms ← match GraphGroup.members g with
               | None => ret None
               | Some bs => ms ← alloc_members (map_to_list bs); ret (Some ms)
               end;
          a ← alloc (OGroup (GraphGroup.mk (GraphGroup.id g) (GraphGroup.display_name g) ms));
          ret (a, GraphGroup.id g)
      | inr e => raise e
      end
  end.

(** ** The registration routines (lines 147-184)

    The three closures differ in the model and the mapping only.  A record
    that validates has a [str] under ['id'], which is the [id] of the
    entity ([new_object_id]): [sync_data.<mapping>[id] = obj] stores under
    that string.  A failed validation is logged and raised again
    ([raise e], lines 156, 169 and 182): it leaves the routine as an
    exception, not as a returned value. *)
Definition register (k : kind) (d : record) : M addr :=
  id ← getitem d "id";
  cached ← contains k id;
  when (negb cached)
    (obj ← model_validate k d;
     modify (λ s, mkState (heap s) (mapping_insert k obj.2 obj.1 (sync_data s)) (r s)));;
  subscript k id.

Definition _register_user : record → M addr := register User.
Definition _register_service_principal : record → M addr := register ServicePrincipal.
Definition _register_group : record → M addr := register Group.

(** ** The directory transport *)

(** What [res.raise_for_status()] and [res.json().get("value")] make of a
    response: an [HTTPError], or the ["value"] member of the body, [None]
    when the body has none.  The entries of a ["value"] array are objects. *)
Inductive response :=
  | Status_error (status : nat)
  | Body (value : option (list record)).

(** The two requests of the client, as functions of what is put into the
    URL: the display name for the group lookup, the group id for the
    members.  They stand for the directory: any answer is possible. *)
Record session := mkSession {
  groups_by_name : string → response;
  members_of : json → response
}.

(** [res = self._session.get(url); res.raise_for_status();
    res.json().get("value")]: the answer is handed on as the directory
    gives it.  The [$select=...] of the two URLs is a request to the
    directory; nothing in the client filters what comes back. *)
Definition session_get (res : response) : M (option (list record)) :=
  match res with
  | Status_error st => raise (HTTPError st)
  | Body data => ret data
  end.

Section Client.
Variable self : session.

(** Lines 120-132: the one match, or [None]. *)
Definition get_group_by_name (name : string) : M (option record) :=
  emit (Lookup name);;
  data ← session_get (groups_by_name self name);
  match data with
  | Some [x] => ret (Some x)
  | _ => ret None
  end.

(** Lines 134-142. *)
Definition get_group_members (group_id : json) : M (option (list record)) :=
  emit (Fetch group_id);;
  session_get (members_of self group_id).

Definition set_r (a : addr) : M unit :=
  modify (λ s, mkState (heap s) (sync_data s) (Some (VObject a))).

(** Reading the local [r]. *)
Definition get_r : M value :=
  v ← gets r;
  match v with
  | Some v => ret v
  | None => raise (UnboundLocalError "r")
  end.

(** [r.id] *)
Definition attr_id (a : addr) : M string :=
  h ← gets heap;
  match h !! a with
  | Some o => ret (object_id o)
  | None => raise Stuck
  end.

(** [group.members[key] = obj] *)
Definition members_setitem (group : addr) (key : string) (obj : addr) : M unit :=
  h ← gets heap;
  match h !! group with
  | Some (OGroup g) =>
      match GraphGroup.members g with
      | Some ms =>
          let g' := GraphGroup.mk (GraphGroup.id g) (GraphGroup.display_name g)
                                  (Some (<[key := obj]> ms)) in
          modify (λ s, mkState (<[group := OGroup g']> (heap s)) (sync_data s) (r s))
      | None => raise (TypeError "'NoneType' object does not support item assignment")
      end
  | _ => raise Stuck
  end.

(** [sync_data.errors.append((m, e))] *)
Definition errors_append (m : record) (e : exn) : M unit :=
  modify (λ s, let sd := sync_data s in
               mkState (heap s)
                       (mkSync (users sd) (service_principals sd) (groups sd)
                               (errors sd ++ [(m, e)]))
                       (r s)).

(** The body of [for m in group_members] (lines 200-215).  The three
    [if]s are tested one after the other; [r] is assigned by the one that
    holds, if any, and read by [isinstance(r, Exception)] in any case. *)
Definition member_body (group : addr) (m : record) : M unit :=
  let m := strip_none m in
  t ← getitem m "@odata.type";
  when (eq_str t "#microsoft.graph.user")
    (a ← _register_user m; set_r a);;
  t ← getitem m "@odata.type";
  when (eq_str t "#microsoft.graph.servicePrincipal")
    (a ← _register_service_principal m; set_r a);;
  t ← getitem m "@odata.type";
  when (eq_str t "#microsoft.graph.group")
    (a ← _register_group m; set_r a);;
  v ← get_r;
  match v with
  | VException e => errors_append m e
  | VObject a => i ← attr_id a; members_setitem group i a
  end.

(** The first half of the body of [for idx, group_name in
    enumerate(group_names)] (lines 188-197): the group object and its
    member records, or [None] for the [continue] of line 191. *)
Definition open_group (group_name : string)
    : M (option (addr * option (list record))) :=
  group_info ← get_group_by_name group_name;
  match group_info with
  | None => ret None
  | Some group_info =>
      if bool_decide (size group_info = 0) then ret None
      else
        gid ← getitem group_info "id";
        group_members ← get_group_members gid;
        _register_group group_info;;
        gid ← getitem group_info "id";
        group ← subscript Group gid;
        ret (Some (group, group_members))
  end.

(** [for m in group_members: ...] (lines 199-215). *)
Definition members_loop (group : addr) (group_members : option (list record)) : M unit :=
  match group_members with
  | Some ms => for_each ms (member_body group)
  | None => raise (TypeError "'NoneType' object is not iterable")
  end.

Definition group_body (group_name : string) : M unit :=
  g ← open_group group_name;
  match g with
  | None => ret tt
  | Some (group, group_members) => members_loop group group_members
  end.

Definition groups_loop (group_names : list string) : M unit :=
  for_each group_names group_body.

(** Lines 144-222, run from a fresh [GraphSyncObject()]. *)
Definition get_objects_for_sync (group_names : list string)
    : outcome GraphSyncObject * list event :=
  (groups_loop group_names;; gets sync_data) initial.
End Client.

(** ** Notions used to state the properties *)

(** The mapping an object belongs in, by its class. *)
Definition kind_of (o : object) : option kind :=
  match o with
  | OUser _ => Some User
  | OServicePrincipal _ => Some ServicePrincipal
  | OGroup _ => Some Group
  | OBase _ => None
  end.

(** The object at [a] is stored under key [i] in one of the three mappings. *)
Definition registered (s : state) (i : string) (a : addr) : Prop :=
  users (sync_data s) !! i = Some a
  ∨ service_principals (sync_data s) !! i = Some a
  ∨ groups (sync_data s) !! i = Some a.

(** What holds of the state between any two steps of a run, whatever the
    directory answers. *)
Record inv (s : state) : Prop := mkInv {
  inv_mapping : ∀ k i a, mapping k (sync_data s) !! i = Some a →
    ∃ o, heap s !! a = Some o ∧ object_id o = i ∧ kind_of o = Some k;
  inv_r : ∀ v, r s = Some v → ∃ a i, v = VObject a ∧ registered s i a;
  inv_errors : errors (sync_data s) = []
}.

(** Every group object has a members mapping, and every entry of it is the
    object registered under its key.  This holds of a run as long as no
    record that the directory answers has a ['members'] entry of its own
    ([without_members] below). *)
Definition linked (s : state) : Prop :=
  ∀ ga g, heap s !! ga = Some (OGroup g) →
    ∃ ms, GraphGroup.members g = Some ms ∧ ∀ i a, ms !! i = Some a → registered s i a.

(** Nothing is ever taken out of a mapping, and an object keeps its class
    and its [id]. *)
Definition extends (s s' : state) : Prop :=
  (∀ k i a, mapping k (sync_data s) !! i = Some a → mapping k (sync_data s') !! i = Some a)
  ∧ (∀ a o, heap s !! a = Some o →
       ∃ o', heap s' !! a = Some o' ∧ object_id o' = object_id o ∧ kind_of o' = kind_of o)
  ∧ (is_Some (r s) → is_Some (r s')).

(** [m], started in a state that satisfies [inv] and [P], keeps [inv],
    only extends the state, never raises [Stuck], and establishes [Q] when
    it returns. *)
Definition triple {A} (P : state → Prop) (m : M A) (Q : state → A → state → Prop) : Prop :=
  ∀ s, inv s → P s →
    match (m s).1 with
    | Return a s' => inv s' ∧ extends s s' ∧ Q s a s'
    | Raise e s' => e ≠ Stuck ∧ inv s' ∧ extends s s'
    end.

(** The object that validating [d] as a [k] makes, for a record without a
    ['members'] entry. *)
Definition new_object (k : kind) (d : record) : object + exn :=
  match k with
  | User =>
      match GraphUser.model_validate d with inl u => inl (OUser u) | inr e => inr e end
  | ServicePrincipal =>
      match GraphServicePrincipal.model_validate d with
      | inl p => inl (OServicePrincipal p)
      | inr e => inr e
      end
  | Group =>
      match GraphGroup.model_validate d with
      | inl g => inl (OGroup (GraphGroup.mk (GraphGroup.id g) (GraphGroup.display_name g) (Some ∅)))
      | inr e => inr e
      end
  end.

(** The value of ['@odata.type'] for each kind. *)
Definition odata_type (k : kind) : string :=
  match k with
  | User => "#microsoft.graph.user"
  | ServicePrincipal => "#microsoft.graph.servicePrincipal"
  | Group => "#microsoft.graph.group"
  end.

(** [t] is none of the three values the loop body tests for. *)
Definition unrecognized (t : json) : Prop :=
  ∀ k, eq_str t (odata_type k) = false.

Definition is_transport (e : event) : bool :=
  match e with Lookup _ | Fetch _ => true | Validate _ _ => false end.

Definition is_fetch (e : event) : bool :=
  match e with Fetch _ => true | _ => false end.

(** [group.members[key] = obj] on the heap. *)
Definition link (group : addr) (key : string) (obj : addr) (s : state) : state :=
  match heap s !! group with
  | Some (OGroup g) =>
      match GraphGroup.members g with
      | Some ms =>
          mkState (<[group := OGroup (GraphGroup.mk (GraphGroup.id g) (GraphGroup.display_name g)
                                        (Some (<[key := obj]> ms)))]> (heap s))
                  (sync_data s) (r s)
      | None => s
      end
  | _ => s
  end.

(** The members mapping of the group object at [group]. *)
Definition members_at (s : state) (group : addr) : option (gmap string addr) :=
  match heap s !! group with
  | Some (OGroup g) => GraphGroup.members g
  | _ => None
  end.

(** The registration routine the loop body picks for a type tag. *)
Definition tag_kind (t : json) : option kind :=
  if eq_str t (odata_type User) then Some User
  else if eq_str t (odata_type ServicePrincipal) then Some ServicePrincipal
  else if eq_str t (odata_type Group) then Some Group
  else None.

(** The end of the loop body (lines 212-215). *)
Definition finish (group : addr) (m : record) : M unit :=
  v ← get_r;
  match v with
  | VException e => errors_append m e
  | VObject a => i ← attr_id a; members_setitem group i a
  end.

(** A record without a ['members'] entry: what a [$select] that does not
    name the property asks for. *)
Definition no_members (d : record) : Prop := d !! "members" = None.

(** No record that the directory answers, to a lookup or to a request for
    members, has a ['members'] entry. *)
Definition without_members (self : session) : Prop :=
  (∀ name l, groups_by_name self name = Body (Some l) → Forall no_members l)
  ∧ (∀ gid l, members_of self gid = Body (Some l) → Forall no_members l).

(** The run over [pre ++ name :: post] has come to member [m] of the group
    that [name] resolves to: the groups of [pre] are done, the group object
    is at [group], the members [mpre] before [m] are done; [s] is the state
    and [ev] the events so far. *)
Definition reaches (self : session) (pre : list string) (name : string) (group : addr)
    (mpre : list record) (m : record) (mpost : list record)
    (s : state) (ev : list event) : Prop :=
  ∃ s1 ev1 s2 ev2 ev3,
    groups_loop self pre initial = (Return tt s1, ev1)
    ∧ open_group self name s1 = (Return (Some (group, Some (mpre ++ m :: mpost))) s2, ev2)
    ∧ for_each mpre (member_body group) s2 = (Return tt s, ev3)
    ∧ ev = ev1 ++ ev2 ++ ev3.

(** The object at [group] is a value of the groups mapping. *)
Definition group_registered (group : addr) (s : state) : Prop :=
  ∃ gi, mapping Group (sync_data s) !! gi = Some group.

(** An event that is no request to the directory. *)
Definition is_validate (e : event) : Prop := is_transport e = false.

(** The state a computation ends in, whether it returns or raises. *)
Definition final {A} (x : outcome A * list event) : state :=
  match x.1 with Return _ s | Raise _ s => s end.

(** [r = obj], for an object that was already registered. *)
Definition bind_r (a : addr) (s : state) : state :=
  mkState (heap s) (sync_data s) (Some (VObject a)).

(** A new object [o] is put in the heap, stored under [i] in the mapping of
    [k], and bound to [r]. *)
Definition store (k : kind) (i : string) (o : object) (s : state) : state :=
  mkState (heap s ++ [o]) (mapping_insert k i (length (heap s)) (sync_data s))
          (Some (VObject (length (heap s)))).

(** The state and the events at the point that [reaches] describes, as
    computed by the run itself. *)
Definition position (self : session) (pre : list string) (name : string) (group : addr)
    (mpre : list record) : state * list event :=
  let x1 := groups_loop self pre initial in
  let x2 := open_group self name (final x1) in
  let x3 := for_each mpre (member_body group) (final x2) in
  (final x3, x1.2 ++ x2.2 ++ x3.2).

(** What validating [d] as a [k] makes, whatever [d] holds: the validated
    fields, and for a group a members mapping with the keys of the
    validated ['members'] ([None] for an explicit null). *)
Definition entity_of (k : kind) (d : record) (o : object) : Prop :=
  match k with
  | User => ∃ u, GraphUser.model_validate d = inl u ∧ o = OUser u
  | ServicePrincipal =>
      ∃ p, GraphServicePrincipal.model_validate d = inl p ∧ o = OServicePrincipal p
  | Group =>
      ∃ g ms, GraphGroup.model_validate d = inl g
              ∧ o = OGroup (GraphGroup.mk (GraphGroup.id g) (GraphGroup.display_name g) ms)
              ∧ dom <$> ms = dom <$> GraphGroup.members g
  end.

(** The registration that the loop body makes for a member record: the
    routine its type tag selects, and the id it registers under. *)
Definition registration (m : record) : option (kind * string) :=
  match strip_none m !! "@odata.type", strip_none m !! "id" with
  | Some t, Some (JStr i) =>
      match tag_kind t with Some k => Some (k, i) | None => None end
  | _, _ => None
  end.

(** The registration of the last of the records that has one. *)
Definition last_registration (l : list record) : option (kind * string) :=
  last (omap registration l).

(** The member records that the loop goes through for a name: those of the
    one non-empty group it resolves to, none for a name that is passed
    over. *)
Definition members_for (self : session) (name : string) : list record :=
  match groups_by_name self name with
  | Body (Some [x]) =>
      if bool_decide (size x = 0) then []
      else match x !! "id" with
           | Some gid => match members_of self gid with Body (Some ms) => ms | _ => [] end
           | None => []
           end
  | _ => []
  end.

(** The member records processed when the run has done the names [pre]
    and the members [mpre] of the next group, in the order of processing. *)
Definition processed (self : session) (pre : list string) (mpre : list record)
    : list record :=
  (pre ≫= members_for self) ++ mpre.

(** What [r] is after the records [l] have been processed: unbound when
    there are none, and else the entity stored for the last registration. *)
Definition tracks (s : state) (l : list record) : Prop :=
  match last_registration l with
  | None => l = [] ∧ r s = None
  | Some (k, i) => ∃ a, r s = Some (VObject a) ∧ mapping k (sync_data s) !! i = Some a
  end.

(** The three ways in which a run changes its state when no record has a
    ['members'] entry: a new object is stored under its own [id], which
    was no key, in the mapping of its class, a group with an empty members
    mapping; [r] is bound to a registered object; a registered object is
    put under its key into the members of a group. *)
Inductive step : state → state → Prop :=
  | step_store (k : kind) (i : string) (o : object) (s : state) :
      mapping k (sync_data s) !! i = None → kind_of o = Some k → object_id o = i →
      (∀ g, o = OGroup g → GraphGroup.members g = Some ∅) →
      step s (mkState (heap s ++ [o]) (mapping_insert k i (length (heap s)) (sync_data s))
                      (r s))
  | step_bind (a : addr) (i : string) (s : state) :
      registered s i a → step s (bind_r a s)
  | step_link (group : addr) (i : string) (a : addr) (s : state) :
      registered s i a → step s (link group i a s).

(** [m], started in a state that satisfies [inv], [linked] and [P], gets
    to the state it ends in, whether it returns or raises, by such steps. *)
Definition changes {A} (P : state → Prop) (m : M A) : Prop :=
  ∀ s, inv s → linked s → P s → rtc step s (final (m s)).

(** ** Sample directories *)

Module Sample.
Definition user (i n : string) (m nick enabled : json) : record :=
  list_to_map [("@odata.type", JStr "#microsoft.graph.user"); ("id", JStr i);
               ("displayName", JStr n); ("mail", m); ("mailNickname", nick);
               ("accountEnabled", enabled)].

Definition service_principal (i n app : string) (enabled : json) : record :=
  list_to_map [("@odata.type", JStr "#microsoft.graph.servicePrincipal"); ("id", JStr i);
               ("displayName", JStr n); ("appId", JStr app); ("accountEnabled", enabled)].

Definition group (i n : string) : record :=
  list_to_map [("@odata.type", JStr "#microsoft.graph.group"); ("id", JStr i);
               ("displayName", JStr n)].

(** A device: a directory object of a type the loop does not test for. *)
Definition device (i n : string) : record :=
  list_to_map [("@odata.type", JStr "#microsoft.graph.device"); ("id", JStr i);
               ("displayName", JStr n)].

Definition ann : record := user "u1" "Ann" (JStr "ann@example.org") (JStr "ann") (JBool true).
Definition bob : record := user "u2" "Bob" JNull (JStr "bob") JNull.
Definition cid : record := user "u3" "Cid" (JStr "cid@example.org") (JStr "cid") (JBool false).

(** A user with neither display name nor mail, only the alias. *)
Definition nameless : record :=
  list_to_map [("@odata.type", JStr "#microsoft.graph.user"); ("id", JStr "u9");
               ("displayName", JNull); ("mail", JNull); ("mailNickname", JStr "nick")].

(** A user record that fails validation: only the type and the id. *)
Definition malformed_user : record :=
  list_to_map [("@odata.type", JStr "#microsoft.graph.user"); ("id", JStr "u2");
               ("displayName", JNull); ("mail", JNull); ("mailNickname", JNull)].

(** A user record without ['accountEnabled']. *)
Definition dan : record :=
  list_to_map [("@odata.type", JStr "#microsoft.graph.user"); ("id", JStr "u4");
               ("displayName", JStr "Dan"); ("mail", JStr "dan@example.org")].

Definition app : record := service_principal "p1" "App" "app-1" JNull.

(** No type tag at all. *)
Definition untyped : record :=
  list_to_map [("id", JStr "x1"); ("displayName", JStr "X")].

(** A user record without id. *)
Definition anonymous : record :=
  list_to_map [("@odata.type", JStr "#microsoft.graph.user"); ("displayName", JStr "Nobody");
               ("mail", JStr "nobody@example.org")].

Definition by_name (table : list (string * list record)) (name : string) : response :=
  Body (Some (default [] (list_to_map (M := gmap string (list record)) table !! name))).

Definition by_id (table : list (string * list record)) (id : json) : response :=
  match id with
  | JStr i => Body (Some (default [] (list_to_map (M := gmap string (list record)) table !! i)))
  | _ => Status_error 400
  end.

(** Two groups; "Staff" holds two users, a service principal and the group
    "Ops"; "Ops" holds one of the users again, and a device.  The name
    "Nobody" resolves to no group and "Twins" to two. *)
Definition directory : session :=
  mkSession
    (by_name [("Staff", [group "g1" "Staff"]); ("Ops", [group "g2" "Ops"]);
              ("Twins", [group "g3" "Twins"; group "g4" "Twins"])])
    (by_id [("g1", [ann; bob; app; group "g2" "Ops"]); ("g2", [ann; device "d1" "Laptop"])]).

(** The run over both groups. *)
Definition staff_and_ops : outcome GraphSyncObject * list event :=
get_objects_for_sync directory ["Staff"; "Ops"].

(** "Staff" has three members, the second of which is malformed. *)
Definition directory_malformed : session :=
  mkSession (by_name [("Staff", [group "g1" "Staff"])])
            (by_id [("g1", [ann; malformed_user; cid])]).

(** The first member of the first group is a device. *)
Definition directory_device_first : session :=
  mkSession (by_name [("Ops", [group "g2" "Ops"])])
            (by_id [("g2", [device "d1" "Laptop"; ann])]).

(** "Staff" holds a user; the only member of "Ops" is a device. *)
Definition directory_stale : session :=
mkSession (by_name [("Staff", [group "g1" "Staff"]); ("Ops", [group "g2" "Ops"])])
          (by_id [("g1", [ann]); ("g2", [device "d1" "Laptop"])]).

(** A member without type tag, and one without id. *)
Definition directory_untyped : session :=
  mkSession (by_name [("Staff", [group "g1" "Staff"]); ("Ops", [group "g2" "Ops"])])
            (by_id [("g1", [ann; untyped]); ("g2", [ann; anonymous])]).

(** A group record that comes with a ['members'] entry of its own. *)
Definition group_with (i n : string) (members : json) : record :=
  <["members" := members]> (group i n).

(** The lookup of "Staff" answers the group together with a member "u9",
    which is none of the members that the directory lists for it. *)
Definition directory_with_members : session :=
  mkSession
    (by_name [("Staff", [group_with "g1" "Staff"
                           (JObj {["u9" := JObj (list_to_map [("id", JStr "u9");
                                                              ("displayName", JStr "Zed")])]})])])
    (by_id [("g1", [ann])]).

(** "Staff" holds a user; the lookup of "Ops" answers the group with a null
    ['members'], and its only member is a device. *)
Definition directory_null_members : session :=
  mkSession (by_name [("Staff", [group "g1" "Staff"]);
                      ("Ops", [group_with "g2" "Ops" JNull])])
            (by_id [("g1", [ann]); ("g2", [device "d1" "Laptop"])]).

(** The only member of "Staff" is the group "Ops", whose record comes with
    a member "u9" of its own. *)
Definition directory_nested_members : session :=
  mkSession
    (by_name [("Staff", [group "g1" "Staff"])])
    (by_id [("g1", [group_with "g2" "Ops"
                      (JObj {["u9" := JObj (list_to_map [("id", JStr "u9");
                                                         ("displayName", JStr "Zed")])]})])]).
End Sample.

(** ** Conversion to the target representation (lines 23-27, 34-38, 44-48)

    The classes of [databricks.sdk.service.iam] that the conversions build,
    with the fields they set. *)

Module iam.
Record User := mkUser {
  user_name : string; user_display_name : string; user_active : bool;
  user_external_id : string
}.

Record ServicePrincipal := mkServicePrincipal {
  application_id : string; sp_display_name : string; sp_active : bool;
  sp_external_id : string
}.

Record ComplexValue := mkComplexValue { display : string; value : string }.

Record Group := mkGroup {
  display_name : string; external_id : string; members : list ComplexValue
}.
End iam.

Definition to_sdk_user (u : GraphUser.t) : iam.User :=
  iam.mkUser (GraphUser.mail u) (GraphUser.display_name u) (GraphUser.active u)
             (GraphUser.id u).

Definition to_sdk_service_principal (p : GraphServicePrincipal.t) : iam.ServicePrincipal :=
  iam.mkServicePrincipal (GraphServicePrincipal.application_id p)
                         (GraphServicePrincipal.display_name p)
                         (GraphServicePrincipal.active p) (GraphServicePrincipal.id p).

(** The [display_name] attribute, which every subclass of [GraphBase] has. *)
Definition object_display_name (o : object) : string :=
  match o with
  | OUser u => GraphUser.display_name u
  | OServicePrincipal p => GraphServicePrincipal.display_name p
  | OGroup g => GraphGroup.display_name g
  | OBase b => GraphBase.display_name b
  end.

(** What [to_sdk_group] can fail with: [self.members.values()] on a
    [members] that is [None], and, in the embedding only, an address that
    is not in the heap. *)
Inductive sdk_error := AttributeError (msg : string) | Dangling (a : addr).

Fixpoint member_values (h : list object) (refs : list (string * addr))
    : list iam.ComplexValue + sdk_error :=
  match refs with
  | [] => inl []
  | (_, a) :: rest =>
      match h !! a with
      | None => inr (Dangling a)
      | Some x =>
          match member_values h rest with
          | inl vs => inl (iam.mkComplexValue (object_display_name x) (object_id x) :: vs)
          | inr e => inr e
          end
      end
  end.

(** [to_sdk_group] (lines 44-48).  The members are listed in the order of
    the keys of the finite map, which need not be the insertion order of
    the Python [dict]. *)
Definition to_sdk_group (h : list object) (g : GraphGroup.t addr) : iam.Group + sdk_error :=
  match GraphGroup.members g with
  | None => inr (AttributeError "'NoneType' object has no attribute 'values'")
  | Some ms =>
      match member_values h (map_to_list ms) with
      | inl vs => inl (iam.mkGroup (GraphGroup.display_name g) (GraphGroup.id g) vs)
      | inr e => inr e
      end
  end.

(** ** The summary that ends [get_objects_for_sync] (lines 216-220) *)

Inductive level := INFO | ERROR.

Definition summary_log (sd : GraphSyncObject) : level * string :=
  let msg := "Downloaded: errors=" +:+ pretty (List.length (errors sd))
             +:+ ", groups=" +:+ pretty (size (groups sd))
             +:+ ", users=" +:+ pretty (size (users sd))
             +:+ ", service_principals=" +:+ pretty (size (service_principals sd)) in
  match errors sd with
  | [] => (INFO, msg)
  | _ :: _ => (ERROR, msg)
  end.

(** ** Authentication (lines 60-118) *)

Module Auth.
(** [os.environ]. *)
Abbreviation environ := (gmap string string).

(** The truth value of a [str] or [None]. *)
Definition truthy (x : option string) : bool :=
  match x with
  | Some s => negb (bool_decide (s = ""))
  | None => false
  end.

(** [x or y] *)
Definition or_ (x y : option string) : option string :=
  if truthy x then x else y.

Inductive auth_exn :=
  | ValueError (msg : string)
  | HTTPError (status : nat).

(** The token endpoint, as a function of the tenant in the URL and of the
    [client_id] and [client_secret] of the form: an error status, or the
    ['access_token'] of the body, [None] when the body has none. *)
Inductive token_response :=
  | Token_status_error (status : nat)
  | Token_body (access_token : option string).

Definition endpoint := string → option string → option string → token_response.

(** A request for a token. *)
Record post := mkPost {
  post_tenant : string; post_client_id : option string; post_client_secret : option string
}.

(** The attributes of the client that [__init__] and [_authenticate] set. *)
Record GraphAPIClient := mkClient {
  _tenant_id : option string;
  _token : option string;
  _header : option (gmap string string);
  _base_url : option string
}.

(** [str(x)] for a [str] or [None], as an f-string renders it. *)
Definition format (x : option string) : string := default "None" x.

(** [_get_access_token] (lines 106-118). *)
Definition _get_access_token (login : endpoint) (tenant_id : string)
    (spn_id spn_key : option string) : (option string + auth_exn) * list post :=
  (match login tenant_id spn_id spn_key with
   | Token_status_error st => inr (HTTPError st)
   | Token_body t => inl t
   end, [mkPost tenant_id spn_id spn_key]).

(** [_authenticate] (lines 85-104).  The second test reads [tenant_id] and
    the third [client_id], as the source has them. *)
Definition _authenticate (env : environ) (login : endpoint) (self : GraphAPIClient)
    : (GraphAPIClient + auth_exn) * list post :=
  let tenant_id :=
    or_ (or_ (_tenant_id self) (env !! "GRAPH_ARM_TENANT_ID")) (env !! "ARM_TENANT_ID") in
  if negb (truthy tenant_id) then
    (inr (ValueError
       "unknown tenant_id, set GRAPH_ARM_TENANT_ID or ARM_TENANT_ID environment variables!"),
     [])
  else
    let client_id :=
      or_ (or_ (_tenant_id self) (env !! "GRAPH_ARM_CLIENT_ID")) (env !! "ARM_CLIENT_ID") in
    if negb (truthy tenant_id) then
      (inr (ValueError
         "unknown client_id, set GRAPH_ARM_CLIENT_ID or ARM_CLIENT_ID environment variables!"),
       [])
    else
      let client_scret :=
        or_ (or_ (_tenant_id self) (env !! "GRAPH_ARM_CLIENT_SECRET"))
            (env !! "ARM_CLIENT_SECRET") in
      if negb (truthy client_id) then
        (inr (ValueError
           "unknown client_id, set GRAPH_ARM_CLIENT_SECRET or ARM_CLIENT_SECRET environment variables!"),
         [])
      else
        match _get_access_token login (format tenant_id) client_id client_scret with
        | (inr e, posts) => (inr e, posts)
        | (inl token, posts) =>
            (inl (mkClient (_tenant_id self) token
                           (Some {["Authorization" := "Bearer " +:+ format token]})
                           (Some "https://graph.microsoft.com/")),
             posts)
        end.

(** [__init__] (lines 60-83): the three arguments are not used; the
    attributes start as [None] and [_authenticate] fills them.  The retry
    and pooling set-up of the HTTP session is not part of the embedding. *)
Definition __init__ (env : environ) (login : endpoint)
    (tenant_id spn_id spn_key : option string) : (GraphAPIClient + auth_exn) * list post :=
  _authenticate env login (mkClient None None None None).
End Auth.

(** ** Further notions used to state properties *)

(** Every object of the heap is stored, at its own address and under its
    own [id], in the mapping of its class. *)
Definition dedup (s : state) : Prop :=
  ∀ a o, heap s !! a = Some o →
    ∃ k, kind_of o = Some k ∧ mapping k (sync_data s) !! object_id o = Some a.

(** The names that were looked up, in the order of the requests. *)
Definition lookups (ev : list event) : list string :=
  omap (λ e, match e with Lookup n => Some n | _ => None end) ev.

(** From [s] to [s'], no key is taken out of a mapping or moved to another
    object, no object is taken out of the heap, users and service
    principals are left as they are, and a group keeps its [id], its
    display name and the keys of its members. *)
Definition grows (s s' : state) : Prop :=
  (∀ k i a, mapping k (sync_data s) !! i = Some a → mapping k (sync_data s') !! i = Some a)
  ∧ (∀ a o, heap s !! a = Some o →
       ∃ o', heap s' !! a = Some o'
             ∧ match o with
               | OGroup g =>
                   ∃ g', o' = OGroup g' ∧ GraphGroup.id g' = GraphGroup.id g
                         ∧ GraphGroup.display_name g' = GraphGroup.display_name g
               | _ => o' = o
               end)
  ∧ (∀ ga ms, members_at s ga = Some ms →
       ∃ ms', members_at s' ga = Some ms' ∧ dom ms ⊆ dom ms').

(** ** Sample environments and further sample directories *)

Module Sample_env.
(** The tenant under both names, an empty [GRAPH_ARM_CLIENT_ID], the client
    id under [ARM_CLIENT_ID], and no secret. *)
Definition no_secret : Auth.environ :=
list_to_map [("GRAPH_ARM_TENANT_ID", "tenant-1"); ("ARM_TENANT_ID", "tenant-2");
             ("GRAPH_ARM_CLIENT_ID", ""); ("ARM_CLIENT_ID", "client-2")].

(** The same with other values under the [ARM_] names of the tenant. *)
Definition no_secret' : Auth.environ :=
list_to_map [("GRAPH_ARM_TENANT_ID", "tenant-1"); ("ARM_TENANT_ID", "tenant-9");
             ("GRAPH_ARM_CLIENT_ID", ""); ("ARM_CLIENT_ID", "client-2")].

(** All three under the [GRAPH_ARM_] names. *)
Definition complete : Auth.environ :=
list_to_map [("GRAPH_ARM_TENANT_ID", "tenant-1"); ("GRAPH_ARM_CLIENT_ID", "client-1");
             ("GRAPH_ARM_CLIENT_SECRET", "secret-1")].

(** A tenant and a secret, and no client id. *)
Definition no_client : Auth.environ :=
list_to_map [("ARM_TENANT_ID", "tenant-2"); ("ARM_CLIENT_SECRET", "secret-2")].

(** An endpoint that grants a token to whoever asks. *)
Definition grant : Auth.endpoint := λ _ _ _, Auth.Token_body (Some "token-1").

(** An endpoint that refuses a request without secret. *)
Definition strict : Auth.endpoint :=
λ _ _ secret, if Auth.truthy secret then Auth.Token_body (Some "token-1")
              else Auth.Token_status_error 401.
End Sample_env.

Module Sample_faults.
Import Sample.

(** The lookup of "Ops" fails with status 503; "Staff" resolves, and the
    request for its members fails with status 403 in [no_members_access]. *)
Definition lookup_fails : session :=
mkSession (λ name, if bool_decide (name = "Ops") then Status_error 503
                   else by_name [("Staff", [group "g1" "Staff"])] name)
          (by_id [("g1", [ann])]).

Definition no_members_access : session :=
mkSession (by_name [("Staff", [group "g1" "Staff"])]) (λ _, Status_error 403).

(** A group record without display name, and one without id. *)
Definition nameless_group : record := list_to_map [("id", JStr "g5")].

Definition idless_group : record := list_to_map [("displayName", JStr "Lost")].

Definition bad_groups : session :=
mkSession (by_name [("Nameless", [nameless_group]); ("Lost", [idless_group])])
          (by_id [("g5", [ann])]).

(** The lookup of "Void" answers with one empty object. *)
Definition no_answer : session :=
mkSession (by_name [("Staff", [group "g1" "Staff"]); ("Ops", [group "g2" "Ops"]);
                    ("Void", [∅])])
          (by_id [("g1", [ann; bob]); ("g2", [ann])]).

(** The answer to the request for the members has no ["value"]. *)
Definition no_value : session :=
mkSession (by_name [("Staff", [group "g1" "Staff"])]) (λ _, Body None).

(** A user and a service principal with the same id, in one group. *)
Definition twin_user : record :=
user "x1" "Twin user" (JStr "twin@example.org") JNull JNull.

Definition twin_app : record := service_principal "x1" "Twin app" "app-x" JNull.

Definition twins : session :=
mkSession (by_name [("Staff", [group "g1" "Staff"])]) (by_id [("g1", [twin_user; twin_app])]).
End Sample_faults.

(** * Properties *)

(** Closes an equation between closed terms by evaluation: the proof is
    [eq_refl], and the kernel compares the values of the two sides when the
    proof is closed. *)
Ltac by_vm :=
  lazymatch goal with
  | |- @eq ?T ?x ?y => vm_cast_no_check (@eq_refl T x)
  end.

(** ** Records *)

Lemma strip_none_lookup (m : record) (k : string) :
  strip_none m !! k = match m !! k with Some JNull => None | o => o end.
Proof.
  unfold strip_none. destruct (m !! k) as [v|] eqn:Hk.
  - destruct (is_None v) eqn:Hv.
    + destruct v; try discriminate. apply map_lookup_filter_None. right.
      intros x Hx. rewrite Hk in Hx. injection Hx as <-. simpl. discriminate.
    + assert (filter (λ kv : string * json, is_None kv.2 = false) m !! k = Some v) as ->.
      { apply map_lookup_filter_Some. split; auto. }
      destruct v; try reflexivity. discriminate.
  - apply map_lookup_filter_None. left. exact Hk.
Qed.

Lemma strip_none_None (m : record) (k : string) :
  m !! k = None → strip_none m !! k = None.
Proof. intros H. by rewrite strip_none_lookup, H. Qed.

(** ** Validation *)

Lemma required_id (d : record) (s : string) :
  required validate_str ["id"] d = inl s ↔ d !! "id" = Some (JStr s).
Proof.
  unfold required, alias_choices. destruct (d !! "id") as [v|]; simpl.
  - destruct v; simpl; split; intros H; try discriminate; congruence.
  - split; discriminate.
Qed.

Lemma required_one (d : record) (a : string) (s : string) :
  d !! a = Some (JStr s) → required validate_str [a] d = inl s.
Proof. intros H. unfold required, alias_choices. by rewrite H. Qed.

Lemma optional_absent {A} (validate : json → option A) (a : string) (x : A) (d : record) :
  d !! a = None → optional validate [a] x d = inl x.
Proof. intros H. unfold optional, alias_choices. by rewrite H. Qed.

Lemma user_validate_inv (d : record) (u : GraphUser.t) :
  GraphUser.model_validate d = inl u →
  required validate_str ["id"] d = inl (GraphUser.id u)
  ∧ required validate_str ["displayName"] d = inl (GraphUser.display_name u)
  ∧ required validate_str ["mail"; "mailNickname"] d = inl (GraphUser.mail u)
  ∧ optional validate_bool ["accountEnabled"] true d = inl (GraphUser.active u).
Proof.
  unfold GraphUser.model_validate.
  destruct (required validate_str ["id"] d), (required validate_str ["displayName"] d),
    (required validate_str ["mail"; "mailNickname"] d),
    (optional validate_bool ["accountEnabled"] true d); try discriminate.
  intros [= <-]. auto.
Qed.

Lemma user_validate_intro (d : record) (i n m : string) (a : bool) :
  required validate_str ["id"] d = inl i →
  required validate_str ["displayName"] d = inl n →
  required validate_str ["mail"; "mailNickname"] d = inl m →
  optional validate_bool ["accountEnabled"] true d = inl a →
  GraphUser.model_validate d = inl (GraphUser.mk i n m a).
Proof. unfold GraphUser.model_validate. by intros -> -> -> ->. Qed.

Lemma service_principal_validate_inv (d : record) (p : GraphServicePrincipal.t) :
  GraphServicePrincipal.model_validate d = inl p →
  required validate_str ["id"] d = inl (GraphServicePrincipal.id p)
  ∧ required validate_str ["displayName"] d = inl (GraphServicePrincipal.display_name p)
  ∧ required validate_str ["appId"] d = inl (GraphServicePrincipal.application_id p)
  ∧ optional validate_bool ["accountEnabled"] true d = inl (GraphServicePrincipal.active p).
Proof.
  unfold GraphServicePrincipal.model_validate.
  destruct (required validate_str ["id"] d), (required validate_str ["displayName"] d),
    (required validate_str ["appId"] d),
    (optional validate_bool ["accountEnabled"] true d); try discriminate.
  intros [= <-]. auto.
Qed.

Lemma service_principal_validate_intro (d : record) (i n app : string) (a : bool) :
  required validate_str ["id"] d = inl i →
  required validate_str ["displayName"] d = inl n →
  required validate_str ["appId"] d = inl app →
  optional validate_bool ["accountEnabled"] true d = inl a →
  GraphServicePrincipal.model_validate d = inl (GraphServicePrincipal.mk i n app a).
Proof. unfold GraphServicePrincipal.model_validate. by intros -> -> -> ->. Qed.

Lemma group_validate_inv (d : record) (g : GraphGroup.t GraphBase.t) :
  GraphGroup.model_validate d = inl g →
  required validate_str ["id"] d = inl (GraphGroup.id g)
  ∧ required validate_str ["displayName"] d = inl (GraphGroup.display_name g)
  ∧ GraphGroup.validate_members d = inl (GraphGroup.members g).
Proof.
  unfold GraphGroup.model_validate.
  destruct (required validate_str ["id"] d), (required validate_str ["displayName"] d),
    (GraphGroup.validate_members d); try discriminate.
  intros [= <-]. auto.
Qed.

Lemma group_validate_members (d : record) (g : GraphGroup.t GraphBase.t) :
  d !! "members" = None → GraphGroup.model_validate d = inl g →
  GraphGroup.members g = Some ∅.
Proof.
  intros Hd Hg. apply group_validate_inv in Hg as (_ & _ & Hm).
  unfold GraphGroup.validate_members in Hm. rewrite Hd in Hm. congruence.
Qed.

(** A record that validates has a [str] under ['id'], and it is the [id]
    of the entity: the key the registration routine stores under. *)
Lemma new_object_id (k : kind) (d : record) (o : object) :
  new_object k d = inl o →
  d !! "id" = Some (JStr (object_id o)) ∧ kind_of o = Some k.
Proof.
  destruct k; simpl.
  - destruct (GraphUser.model_validate d) as [u|] eqn:Hu; [|discriminate].
    intros [= <-]. apply user_validate_inv in Hu as (Hi & _). by apply required_id in Hi.
  - destruct (GraphServicePrincipal.model_validate d) as [p|] eqn:Hp; [|discriminate].
    intros [= <-]. apply service_principal_validate_inv in Hp as (Hi & _).
    by apply required_id in Hi.
  - destruct (GraphGroup.model_validate d) as [g|] eqn:Hg; [|discriminate].
    intros [= <-]. apply group_validate_inv in Hg as (Hi & _). by apply required_id in Hi.
Qed.

Lemma new_object_members (k : kind) (d : record) (g : GraphGroup.t addr) :
  new_object k d = inl (OGroup g) → GraphGroup.members g = Some ∅.
Proof.
  destruct k; simpl.
  - destruct (GraphUser.model_validate d); discriminate.
  - destruct (GraphServicePrincipal.model_validate d); discriminate.
  - destruct (GraphGroup.model_validate d); [|discriminate]. by intros [= <-].
Qed.

(** ** The monad *)

Lemma bind_eq {A B} (m : M A) (f : A → M B) (s : state) :
  (m ≫= f) s = match m s with
               | (Return a s', ev) => let '(o, ev') := f a s' in (o, ev ++ ev')
               | (Raise e s', ev) => (Raise e s', ev)
               end.
Proof. reflexivity. Qed.

Lemma bind_Return {A B} (m : M A) (f : A → M B) (s s' : state) (a : A) (ev : list event) :
  m s = (Return a s', ev) → (m ≫= f) s = ((f a s').1, ev ++ (f a s').2).
Proof. intros H. rewrite bind_eq, H. by destruct (f a s'). Qed.

Lemma bind_Raise {A B} (m : M A) (f : A → M B) (s s' : state) (e : exn) (ev : list event) :
  m s = (Raise e s', ev) → (m ≫= f) s = (Raise e s', ev).
Proof. intros H. by rewrite bind_eq, H. Qed.

Lemma state_eta (s : state) : mkState (heap s) (sync_data s) (r s) = s.
Proof. by destruct s. Qed.

Lemma for_each_app {A} (l1 l2 : list A) (body : A → M unit) (s : state) :
  for_each (l1 ++ l2) body s = (for_each l1 body ≫= λ _, for_each l2 body) s.
Proof.
  revert s. induction l1 as [|x l1 IH]; intros s; simpl.
  - rewrite bind_eq. simpl. by destruct (for_each l2 body s).
  - rewrite !bind_eq. destruct (body x s) as [[[] s1|e s1] ev1]; [|done].
    rewrite IH, bind_eq. destruct (for_each l1 body s1) as [[[] s2|e s2] ev2].
    + destruct (for_each l2 body s2). by rewrite app_assoc.
    + done.
Qed.

(** An exception raised by the body at one element leaves the loop: the
    elements after it are not visited. *)
Lemma for_each_raise {A} (pre post : list A) (x : A) (body : A → M unit)
    (s s1 s2 : state) (e : exn) (ev1 ev2 : list event) :
  for_each pre body s = (Return tt s1, ev1) →
  body x s1 = (Raise e s2, ev2) →
  for_each (pre ++ x :: post) body s = (Raise e s2, ev1 ++ ev2).
Proof.
  intros Hpre Hx. rewrite for_each_app, bind_eq, Hpre. simpl.
  by rewrite bind_eq, Hx.
Qed.

(** ** Registration *)

(** Runs a sequence of [bind]s on a given state. *)
Ltac exec := repeat (rewrite bind_eq; simpl).

Lemma alloc_members_eq (kvs : list (string * GraphBase.t)) (s : state) :
  ∃ ms, alloc_members kvs s =
        (Return ms (mkState (heap s ++ (OBase <$> kvs.*2)) (sync_data s) (r s)), [])
        ∧ dom ms = list_to_set kvs.*1.
Proof.
  revert s. induction kvs as [|[k b] kvs IH]; intros s; simpl.
  - exists ∅. unfold ret. rewrite app_nil_r, state_eta. split; [done|]. by rewrite dom_empty_L.
  - rewrite bind_eq. unfold alloc at 1. simpl.
    destruct (IH (mkState (heap s ++ [OBase b]) (sync_data s) (r s))) as (ms & Hms & Hdom).
    rewrite bind_eq, Hms. simpl. exists (<[k:=length (heap s)]> ms).
    rewrite <- app_assoc. split; [done|]. by rewrite dom_insert_L, Hdom.
Qed.

Lemma model_validate_Raise (k : kind) (d : record) (s : state) (e : exn) :
  new_object k d = inr e → model_validate k d s = (Raise e s, [Validate k d]).
Proof.
  unfold model_validate, new_object. rewrite bind_eq. simpl. destruct k.
  - destruct (GraphUser.model_validate d); [discriminate|]. by intros [= ->].
  - destruct (GraphServicePrincipal.model_validate d); [discriminate|]. by intros [= ->].
  - destruct (GraphGroup.model_validate d); [discriminate|]. by intros [= ->].
Qed.

(** A record that validates becomes one object at the end of the heap, for
    a group after one object for each of the members the record came
    with. *)
Lemma model_validate_Return (k : kind) (d : record) (s : state) (o : object) :
  new_object k d = inl o →
  ∃ bs o',
    model_validate k d s =
      (Return (length (heap s) + length bs, object_id o)%nat
              (mkState (heap s ++ (OBase <$> bs) ++ [o']) (sync_data s) (r s)),
       [Validate k d])
    ∧ object_id o' = object_id o ∧ kind_of o' = Some k ∧ entity_of k d o'
    ∧ (k ≠ Group → bs = [] ∧ o' = o).
Proof.
  unfold model_validate, new_object. rewrite bind_eq. simpl. destruct k.
  - destruct (GraphUser.model_validate d) as [u|] eqn:Hu; [|discriminate]. intros [= <-].
    exists [], (OUser u). simpl. rewrite Nat.add_0_r. split_and!; eauto.
  - destruct (GraphServicePrincipal.model_validate d) as [p|] eqn:Hp; [|discriminate].
    intros [= <-]. exists [], (OServicePrincipal p). simpl. rewrite Nat.add_0_r.
    split_and!; eauto.
  - destruct (GraphGroup.model_validate d) as [g|] eqn:Hg; [|discriminate]. intros [= <-].
    destruct (GraphGroup.members g) as [bs|] eqn:Hbs; simpl.
    + rewrite !bind_eq.
      destruct (alloc_members_eq (map_to_list bs) s) as (ms & -> & Hdom). simpl.
      exists (map_to_list bs).*2, (OGroup (GraphGroup.mk (GraphGroup.id g)
                                             (GraphGroup.display_name g) (Some ms))).
      rewrite length_app, length_fmap, <- app_assoc. split_and!; try done.
      exists g, (Some ms). split_and!; try done. rewrite Hbs. simpl. f_equal.
      rewrite Hdom. apply set_eq. intros x.
      rewrite elem_of_list_to_set, elem_of_dom, list_elem_of_fmap. split.
      * intros ([x' v] & -> & Hin). apply elem_of_map_to_list in Hin. eauto.
      * intros [v Hv]. exists (x, v). split; [done|]. by apply elem_of_map_to_list.
    + exists [], (OGroup (GraphGroup.mk (GraphGroup.id g) (GraphGroup.display_name g) None)).
      simpl. rewrite Nat.add_0_r. split_and!; try done.
      exists g, None. by rewrite Hbs.
Qed.

Lemma model_validate_eq (k : kind) (d : record) (s : state) (o : object) :
  (k = Group → d !! "members" = None) → new_object k d = inl o →
  model_validate k d s =
    (Return (length (heap s), object_id o) (mkState (heap s ++ [o]) (sync_data s) (r s)),
     [Validate k d]).
Proof.
  intros Hd. unfold model_validate, new_object. rewrite bind_eq. simpl. destruct k.
  - destruct (GraphUser.model_validate d); [|discriminate]. by intros [= <-].
  - destruct (GraphServicePrincipal.model_validate d); [|discriminate]. by intros [= <-].
  - destruct (GraphGroup.model_validate d) as [g|] eqn:Hg; [|discriminate]. intros [= <-].
    rewrite (group_validate_members d g (Hd eq_refl) Hg). rewrite map_to_list_empty.
    reflexivity.
Qed.

Lemma mapping_insert_lookup k i a sd : mapping k (mapping_insert k i a sd) !! i = Some a.
Proof. destruct k; simpl; apply lookup_insert_eq. Qed.

Lemma mapping_insert_lookup_other k k' i j a sd :
  (k, i) ≠ (k', j) → mapping k' (mapping_insert k i a sd) !! j = mapping k' sd !! j.
Proof.
  intros H. destruct k, k'; simpl; try done;
    (destruct (decide (i = j)) as [->|]; [done | by rewrite lookup_insert_ne]).
Qed.

Lemma register_no_id (k : kind) (d : record) (s : state) :
  d !! "id" = None → register k d s = (Raise (KeyError (JStr "id")) s, []).
Proof. intros H. unfold register. rewrite bind_eq. unfold getitem. by rewrite H. Qed.

Lemma register_cached (k : kind) (d : record) (s : state) (i : string) (a : addr) :
  d !! "id" = Some (JStr i) → mapping k (sync_data s) !! i = Some a →
  register k d s = (Return a s, []).
Proof.
  intros Hi Ha. unfold register. rewrite bind_eq. unfold getitem. rewrite Hi. simpl.
  exec. rewrite Ha. simpl. exec. by rewrite Ha.
Qed.

Lemma register_invalid (k : kind) (d : record) (s : state) (i : string) (e : exn) :
  d !! "id" = Some (JStr i) → mapping k (sync_data s) !! i = None →
  new_object k d = inr e →
  register k d s = (Raise e s, [Validate k d]).
Proof.
  intros Hi Ha He. unfold register. rewrite bind_eq. unfold getitem. rewrite Hi. simpl.
  exec. rewrite Ha. simpl. exec. by rewrite (model_validate_Raise _ _ _ _ He).
Qed.

Lemma register_fresh (k : kind) (d : record) (s : state) (i : string) (o : object) :
  d !! "id" = Some (JStr i) → mapping k (sync_data s) !! i = None →
  (k = Group → d !! "members" = None) → new_object k d = inl o →
  register k d s =
    (Return (length (heap s))
       (mkState (heap s ++ [o]) (mapping_insert k i (length (heap s)) (sync_data s)) (r s)),
     [Validate k d]).
Proof.
  intros Hi Ha Hd Ho. unfold register. rewrite bind_eq. unfold getitem. rewrite Hi. simpl.
  exec. rewrite Ha. simpl. exec. rewrite (model_validate_eq _ _ _ _ Hd Ho). simpl.
  destruct (new_object_id _ _ _ Ho) as [Hi' _]. rewrite Hi in Hi'. injection Hi' as <-.
  exec. by rewrite mapping_insert_lookup.
Qed.

(** The same for any record: a group record that comes with members puts
    one object for each of them into the heap before the group. *)
Lemma register_new (k : kind) (d : record) (s : state) (i : string) (o : object) :
  d !! "id" = Some (JStr i) → mapping k (sync_data s) !! i = None →
  new_object k d = inl o →
  ∃ bs o',
    register k d s =
      (Return (length (heap s) + length bs)%nat
         (mkState (heap s ++ (OBase <$> bs) ++ [o'])
                  (mapping_insert k i (length (heap s) + length bs) (sync_data s)) (r s)),
       [Validate k d])
    ∧ object_id o' = i ∧ kind_of o' = Some k ∧ entity_of k d o'
    ∧ (k ≠ Group → bs = [] ∧ o' = o).
Proof.
  intros Hi Ha Ho.
  destruct (model_validate_Return k d s o Ho) as (bs & o' & Hv & Hio & Hk & He & Hbs).
  destruct (new_object_id _ _ _ Ho) as [Hi' _]. rewrite Hi in Hi'. injection Hi' as Hi'.
  exists bs, o'. split_and!; try done; [|congruence].
  unfold register. rewrite bind_eq. unfold getitem. rewrite Hi. simpl.
  exec. rewrite Ha. simpl. exec. rewrite Hv. simpl. rewrite <- Hi'.
  exec. by rewrite mapping_insert_lookup.
Qed.

Lemma new_object_error (k : kind) (d : record) (e : exn) :
  new_object k d = inr e → is_ValidationError e = true.
Proof.
  destruct k; simpl.
  - unfold GraphUser.model_validate.
    destruct (required validate_str ["id"] d), (required validate_str ["displayName"] d),
      (required validate_str ["mail"; "mailNickname"] d),
      (optional validate_bool ["accountEnabled"] true d); try discriminate; by intros [= <-].
  - unfold GraphServicePrincipal.model_validate.
    destruct (required validate_str ["id"] d), (required validate_str ["displayName"] d),
      (required validate_str ["appId"] d),
      (optional validate_bool ["accountEnabled"] true d); try discriminate; by intros [= <-].
  - unfold GraphGroup.model_validate.
    destruct (required validate_str ["id"] d), (required validate_str ["displayName"] d),
      (GraphGroup.validate_members d); try discriminate; by intros [= <-].
Qed.

Lemma new_object_not_str (k : kind) (d : record) (v : json) :
  d !! "id" = Some v → validate_str v = None → ∃ e, new_object k d = inr e.
Proof.
  intros Hv Hs. destruct (new_object k d) as [o|e] eqn:Ho; [|eauto].
  apply new_object_id in Ho as [Hi _]. rewrite Hv in Hi. injection Hi as ->. discriminate.
Qed.

(** A registration that does not return leaves the state as it was. *)
Lemma register_Raise_inv (k : kind) (d : record) (s s' : state) (e : exn) (ev : list event) :
  register k d s = (Raise e s', ev) →
  s' = s ∧ e ≠ Stuck ∧ (ev = [] ∨ ev = [Validate k d] ∧ new_object k d = inr e).
Proof.
  unfold register. rewrite bind_eq. unfold getitem.
  destruct (d !! "id") as [v|] eqn:Hi; simpl; [|intros [= <- <- <-]; auto].
  assert (∀ e0, new_object k d = inr e0 → e0 ≠ Stuck) as Hns.
  { intros e0 He0 ->. by apply new_object_error in He0. }
  destruct v as [ | b | z | f | i | l | js]; exec;
    try (destruct (new_object_not_str k d _ Hi eq_refl) as [e0 He0];
         rewrite (model_validate_Raise _ _ _ _ He0); simpl; intros [= <- <- <-]; eauto 6);
    try (intros [= <- <- <-]; split; [done|split; [done|auto]]; fail).
  destruct (mapping k (sync_data s) !! i) as [a|] eqn:Ha; simpl; exec.
  - rewrite ?Ha. discriminate.
  - destruct (new_object k d) as [o|e0] eqn:Ho.
    + destruct (register_new _ _ s _ _ Hi Ha Ho) as (bs & o' & Hreg & _).
      revert Hreg. unfold register. rewrite bind_eq. unfold getitem. rewrite Hi. simpl.
      exec. rewrite Ha. simpl. exec. by intros ->.
    + rewrite (model_validate_Raise _ _ _ _ Ho). simpl. intros [= <- <- <-]. eauto 6.
Qed.

(** A registration that returns an object has it stored under the record's
    id; it validated the record if, and only if, the id was not yet a key. *)
Lemma register_Return_inv (k : kind) (d : record) (s s' : state) (a : addr) (ev : list event) :
  register k d s = (Return a s', ev) →
  ∃ i, d !! "id" = Some (JStr i) ∧ mapping k (sync_data s') !! i = Some a
       ∧ (mapping k (sync_data s) !! i = Some a ∧ s' = s ∧ ev = []
          ∨ mapping k (sync_data s) !! i = None ∧ ev = [Validate k d]).
Proof.
  unfold register. rewrite bind_eq. unfold getitem.
  destruct (d !! "id") as [v|] eqn:Hi; simpl; [|discriminate].
  destruct v as [ | b | z | f | i | l | js]; exec;
    try (destruct (new_object_not_str k d _ Hi eq_refl) as [e0 He0];
         rewrite (model_validate_Raise _ _ _ _ He0); simpl; discriminate);
    try discriminate.
  intros H. exists i. split; [done|]. revert H.
  destruct (mapping k (sync_data s) !! i) as [a0|] eqn:Ha; simpl; exec.
  - rewrite ?Ha. intros [= <- <- <-]. auto.
  - destruct (new_object k d) as [o|e0] eqn:Ho.
    + destruct (register_new _ _ s _ _ Hi Ha Ho) as (bs & o' & Hreg & _).
      revert Hreg. unfold register. rewrite bind_eq. unfold getitem. rewrite Hi. simpl.
      exec. rewrite Ha. simpl. exec. intros ->. intros [= <- <- <-]. simpl.
      rewrite mapping_insert_lookup. auto.
    + rewrite (model_validate_Raise _ _ _ _ Ho). discriminate.
Qed.

(** ** The invariant *)

Lemma registered_iff (s : state) (i : string) (a : addr) :
  registered s i a ↔ ∃ k, mapping k (sync_data s) !! i = Some a.
Proof.
  unfold registered. split.
  - intros [H|[H|H]]; [by exists User | by exists ServicePrincipal | by exists Group].
  - intros [[] H]; auto.
Qed.

Lemma extends_refl (s : state) : extends s s.
Proof. repeat split; eauto. Qed.

Lemma extends_trans (s1 s2 s3 : state) : extends s1 s2 → extends s2 s3 → extends s1 s3.
Proof.
  intros (H1 & H1' & H1'') (H2 & H2' & H2''). repeat split; [eauto| |eauto].
  intros a o Ho. destruct (H1' _ _ Ho) as (o' & Ho' & Hi & Hk).
  destruct (H2' _ _ Ho') as (o'' & Ho'' & Hi' & Hk'). exists o''.
  split; [done|]. split; congruence.
Qed.

Lemma extends_registered (s s' : state) (i : string) (a : addr) :
  extends s s' → registered s i a → registered s' i a.
Proof. intros (H & _) [k Hk]%registered_iff. apply registered_iff. eauto. Qed.

Lemma inv_initial : inv initial.
Proof.
  split; simpl.
  - intros [] i a; simpl; by rewrite lookup_empty.
  - discriminate.
  - done.
Qed.

Lemma linked_initial : linked initial.
Proof. intros ga g. simpl. by rewrite lookup_nil. Qed.

(** ** Rules of the program logic *)

Lemma triple_bind {A B} (P : state → Prop) (m : M A) (Q : state → A → state → Prop)
    (f : A → M B) (R : state → B → state → Prop) :
  triple P m Q →
  (∀ s0 a, inv s0 → P s0 →
     triple (λ s1, extends s0 s1 ∧ Q s0 a s1) (f a) (λ _ b s2, R s0 b s2)) →
  triple P (m ≫= f) R.
Proof.
  intros Hm Hf s Hinv HP. rewrite bind_eq. specialize (Hm s Hinv HP).
  destruct (m s) as [[a s1|e s1] ev1]; simpl in *; [|done].
  destruct Hm as (Hinv1 & Hext & HQ).
  specialize (Hf s a Hinv HP s1 Hinv1 (conj Hext HQ)).
  destruct (f a s1) as [[b s2|e s2] ev2]; simpl in *;
    destruct Hf as (? & ? & ?); eauto using extends_trans.
Qed.

Lemma triple_conseq {A} (P P' : state → Prop) (m : M A) (Q Q' : state → A → state → Prop) :
  triple P' m Q' →
  (∀ s, inv s → P s → P' s) →
  (∀ s a s', inv s → P s → inv s' → extends s s' → Q' s a s' → Q s a s') →
  triple P m Q.
Proof.
  intros Hm HP HQ s Hinv Hp. specialize (Hm s Hinv (HP s Hinv Hp)).
  destruct (m s).1; [|done]. destruct Hm as (? & ? & ?). eauto.
Qed.

Lemma triple_ret {A} (P : state → Prop) (a : A) :
  triple P (ret a) (λ s b s', b = a ∧ s' = s).
Proof. intros s Hinv HP. simpl. eauto using extends_refl. Qed.

Lemma triple_raise {A} (P : state → Prop) (e : exn) (Q : state → A → state → Prop) :
  e ≠ Stuck → triple P (raise e) Q.
Proof. intros He s Hinv HP. simpl. eauto using extends_refl. Qed.

Lemma triple_emit (P : state → Prop) (e : event) : triple P (emit e) (λ s _ s', s' = s).
Proof. intros s Hinv HP. simpl. eauto using extends_refl. Qed.

Lemma triple_getitem (P : state → Prop) (d : record) (key : string) :
  triple P (getitem d key) (λ s v s', s' = s ∧ d !! key = Some v).
Proof.
  intros s Hinv HP. unfold getitem.
  destruct (d !! key); simpl; eauto 6 using extends_refl.
Qed.

Lemma triple_for_each {A} (I : state → Prop) (l : list A) (body : A → M unit) :
  (∀ x, x ∈ l → triple I (body x) (λ _ _ s', I s')) →
  triple I (for_each l body) (λ _ _ s', I s').
Proof.
  induction l as [|x l IH]; intros Hbody.
  - intros s Hinv HI. simpl. eauto using extends_refl.
  - simpl. eapply triple_bind.
    + apply Hbody. left.
    + intros s0 [] _ _. eapply triple_conseq.
      * apply IH. intros y Hy. apply Hbody. by right.
      * by intros s _ [_ ?].
      * by intros.
Qed.

(** ** Registration keeps the invariant *)

Lemma triple_register (P : state → Prop) (k : kind) (d : record) :
  triple P (register k d)
         (λ s a s', r s' = r s ∧ ∃ i, mapping k (sync_data s') !! i = Some a).
Proof.
  intros s Hinv _. destruct (register k d s) as [[a s'|e s'] ev] eqn:E; simpl.
  - destruct (register_Return_inv _ _ _ _ _ _ E) as (i & Hi & Ha & [(_ & -> & _)|(Hnone & _)]).
    { eauto 6 using extends_refl. }
    destruct (new_object k d) as [o|e] eqn:Ho;
      [|rewrite (register_invalid _ _ _ _ _ Hi Hnone Ho) in E; discriminate].
    destruct (register_new _ _ s _ _ Hi Hnone Ho) as (bs & o' & Hreg & Hi' & Hk & _).
    rewrite Hreg in E. injection E as <- <- <-.
    set (n := (length (heap s) + length bs)%nat).
    assert (Hn : (heap s ++ (OBase <$> bs) ++ [o']) !! n = Some o').
    { rewrite app_assoc. apply list_lookup_middle. by rewrite length_app, length_fmap. }
    assert (Hmono : ∀ k' j a', mapping k' (sync_data s) !! j = Some a' →
              mapping k' (mapping_insert k i n (sync_data s)) !! j = Some a').
    { intros k' j a' H. rewrite mapping_insert_lookup_other; [done|].
      intros [= -> ->]. congruence. }
    assert (Hext : extends s (mkState (heap s ++ (OBase <$> bs) ++ [o'])
                     (mapping_insert k i n (sync_data s)) (r s))).
    { repeat split; simpl; [done| |done].
      intros a' o0 Ho0. exists o0. by rewrite (lookup_app_l_Some _ _ _ _ Ho0). }
    split; [|eauto].
    destruct Hinv as [Hmap Hr Herr]. split; simpl.
    + intros k' j a'. destruct (decide ((k, i) = (k', j))) as [[= <- <-]|Hne].
      * rewrite mapping_insert_lookup. intros [= <-]. by exists o'.
      * rewrite mapping_insert_lookup_other by done. intros H.
        destruct (Hmap _ _ _ H) as (o0 & Ho0 & ?). exists o0.
        by rewrite (lookup_app_l_Some _ _ _ _ Ho0).
    + intros v Hv. destruct (Hr v Hv) as (a' & j & -> & Hreg').
      exists a', j. split; [done|]. eapply extends_registered; [exact Hext|done].
    + destruct k; simpl; done.
  - destruct (register_Raise_inv _ _ _ _ _ _ E) as (-> & Hns & _).
    eauto using extends_refl.
Qed.

(** ** The body of the members loop *)

Lemma bind_ext {A B} (m : M A) (f g : A → M B) (s : state) :
  (∀ a s', f a s' = g a s') → (m ≫= f) s = (m ≫= g) s.
Proof. intros H. rewrite !bind_eq. destruct (m s) as [[a s'|e s'] ev]; [|done]. by rewrite H. Qed.

Lemma ret_bind {A B} (a : A) (f : A → M B) (s : state) : (ret a ≫= f) s = f a s.
Proof. rewrite bind_eq. simpl. by destruct (f a s). Qed.

Lemma getitem_bind {B} (d : record) (key : string) (v : json) (f : json → M B) (s : state) :
  d !! key = Some v → (getitem d key ≫= f) s = f v s.
Proof. intros H. unfold getitem. rewrite H. apply ret_bind. Qed.

Lemma eq_str_odata_type (k k' : kind) :
  eq_str (JStr (odata_type k)) (odata_type k') = bool_decide (k = k').
Proof. by destruct k, k'. Qed.

Lemma tag_kind_Some (t : json) (k : kind) :
  tag_kind t = Some k ↔ t = JStr (odata_type k).
Proof.
  unfold tag_kind. split.
  - destruct (eq_str t (odata_type User)) eqn:Hu; [|
    destruct (eq_str t (odata_type ServicePrincipal)) eqn:Hp; [|
    destruct (eq_str t (odata_type Group)) eqn:Hg; [|discriminate]]];
    intros [= <-]; destruct t; try discriminate;
    match goal with H : eq_str _ _ = true |- _ => apply bool_decide_eq_true in H as -> end; done.
  - intros ->. by destruct k.
Qed.

Lemma tag_kind_None (t : json) : tag_kind t = None ↔ unrecognized t.
Proof.
  unfold tag_kind, unrecognized. split.
  - destruct (eq_str t (odata_type User)) eqn:Hu; [discriminate|].
    destruct (eq_str t (odata_type ServicePrincipal)) eqn:Hp; [discriminate|].
    destruct (eq_str t (odata_type Group)) eqn:Hg; [discriminate|]. by intros _ [].
  - intros H. by rewrite !H.
Qed.

Ltac eval_tags :=
  repeat match goal with
         | |- context [eq_str (JStr ?a) ?b] =>
             let v := eval vm_compute in (eq_str (JStr a) b) in
             change (eq_str (JStr a) b) with v
         end.

(** The body of the members loop: the three tests of the type tag single
    out at most one registration routine. *)
Lemma member_body_eq (group : addr) (m : record) (s : state) :
  member_body group m s =
    match strip_none m !! "@odata.type" with
    | None => (Raise (KeyError (JStr "@odata.type")) s, [])
    | Some t =>
        match tag_kind t with
        | Some k => ((register k (strip_none m) ≫= set_r) ≫= λ _, finish group (strip_none m)) s
        | None => finish group (strip_none m) s
        end
    end.
Proof.
  unfold member_body.
  destruct (strip_none m !! "@odata.type") as [t|] eqn:Ht;
    [|unfold getitem; by rewrite bind_eq, Ht].
  rewrite (getitem_bind _ _ _ _ _ Ht).
  destruct (tag_kind t) as [k|] eqn:Hk.
  - apply tag_kind_Some in Hk as ->.
    destruct k; unfold odata_type in *; eval_tags; simpl;
      repeat first [ rewrite ret_bind | rewrite (getitem_bind _ _ _ _ _ Ht); eval_tags; simpl ];
      try reflexivity;
      apply bind_ext; intros [] s';
      repeat first [ rewrite ret_bind | rewrite (getitem_bind _ _ _ _ _ Ht); eval_tags; simpl ];
      reflexivity.
  - pose proof (proj1 (tag_kind_None t) Hk) as Hun.
    pose proof (Hun User) as H1. pose proof (Hun ServicePrincipal) as H2.
    pose proof (Hun Group) as H3. unfold odata_type in H1, H2, H3.
    rewrite H1. simpl. rewrite ret_bind, (getitem_bind _ _ _ _ _ Ht).
    rewrite H2. simpl. rewrite ret_bind, (getitem_bind _ _ _ _ _ Ht).
    rewrite H3. simpl. by rewrite ret_bind.
Qed.

Lemma finish_unbound (group : addr) (m : record) (s : state) :
  r s = None → finish group m s = (Raise (UnboundLocalError "r") s, []).
Proof. intros H. unfold finish, get_r. exec. by rewrite H. Qed.

Lemma finish_link (group : addr) (m : record) (s : state) (a : addr) (o : object)
    (g : GraphGroup.t addr) (ms : gmap string addr) :
  r s = Some (VObject a) → heap s !! a = Some o →
  heap s !! group = Some (OGroup g) → GraphGroup.members g = Some ms →
  finish group m s = (Return tt (link group (object_id o) a s), []).
Proof.
  intros Hr Ha Hg Hms. unfold finish, get_r, attr_id, members_setitem, link.
  exec. rewrite Hr. simpl. exec. rewrite Ha. simpl. exec. rewrite Hg, Hms. simpl. by rewrite Hr.
Qed.

Lemma link_mapping (group : addr) (key : string) (obj : addr) (s : state) :
  sync_data (link group key obj s) = sync_data s ∧ r (link group key obj s) = r s.
Proof.
  unfold link. destruct (heap s !! group) as [[]|]; try done.
  by destruct (GraphGroup.members g).
Qed.

Lemma link_heap (group : addr) (key : string) (obj : addr) (s : state) (a : addr) (o : object) :
  heap s !! a = Some o →
  ∃ o', heap (link group key obj s) !! a = Some o'
        ∧ object_id o' = object_id o ∧ kind_of o' = kind_of o
        ∧ (a ≠ group → o' = o).
Proof.
  intros Ha. unfold link. destruct (heap s !! group) as [og|] eqn:Hg; [|by eauto].
  destruct og as [| |g|]; try by eauto.
  destruct (GraphGroup.members g) as [ms|] eqn:Hms; [|by eauto]. simpl.
  destruct (decide (a = group)) as [->|Hne].
  - rewrite list_lookup_insert_eq by (by eapply lookup_lt_Some).
    rewrite Hg in Ha. injection Ha as <-. eexists. by repeat split.
  - rewrite list_lookup_insert_ne by done. eauto.
Qed.

Lemma link_extends (group : addr) (key : string) (obj : addr) (s : state) :
  extends s (link group key obj s).
Proof.
  destruct (link_mapping group key obj s) as [Hsd Hr]. repeat split.
  - by rewrite Hsd.
  - intros a o Ho. destruct (link_heap group key obj s a o Ho) as (o' & ? & ? & ? & _). eauto.
  - by rewrite Hr.
Qed.

Lemma link_inv (group : addr) (key : string) (obj : addr) (s : state) :
  inv s → inv (link group key obj s).
Proof.
  intros Hinv. pose proof (link_extends group key obj s) as Hext.
  destruct (link_mapping group key obj s) as [Hsd Hr].
  destruct Hinv as [Hmap Hrr Herr]. split.
  - rewrite Hsd. intros k i a H. destruct (Hmap _ _ _ H) as (o & Ho & Hi & Hk).
    destruct (link_heap group key obj s a o Ho) as (o' & ? & ? & ? & _).
    exists o'. repeat split; congruence.
  - rewrite Hr. intros v Hv. destruct (Hrr v Hv) as (a & i & -> & H).
    exists a, i. split; [done|]. eapply extends_registered; [exact Hext|done].
  - by rewrite Hsd.
Qed.

Lemma link_linked (group : addr) (key : string) (obj : addr) (s : state) :
  linked s → registered s key obj → linked (link group key obj s).
Proof.
  intros Hmem Hreg. pose proof (link_extends group key obj s) as Hext.
  assert (Hmem' : ∀ ga g, heap s !! ga = Some (OGroup g) →
            ∃ ms, GraphGroup.members g = Some ms
                  ∧ ∀ i a, ms !! i = Some a → registered (link group key obj s) i a).
  { intros ga g Hg. destruct (Hmem _ _ Hg) as (ms & Hms & Hall). exists ms.
    split; [done|]. intros i a Hi. eapply extends_registered; [exact Hext|]. eauto. }
  intros ga g'. pose proof (extends_registered _ _ _ _ Hext Hreg) as Hreg'. revert Hreg' Hmem'.
  unfold link.
  destruct (heap s !! group) as [og|] eqn:Hg; [|by intros _ H; apply H].
  destruct og as [| |g|]; try by intros _ H; apply H.
  destruct (GraphGroup.members g) as [ms|] eqn:Hms; [|by intros _ H; apply H]. simpl.
  intros Hreg' Hmem'. destruct (decide (ga = group)) as [->|Hne].
  - rewrite list_lookup_insert_eq by (by eapply lookup_lt_Some).
    intros [= <-]. simpl. eexists. split; [done|].
    intros i a. destruct (decide (key = i)) as [->|Hki].
    + rewrite lookup_insert_eq. by intros [= <-].
    + rewrite lookup_insert_ne by done. intros Hi.
      destruct (Hmem' _ _ Hg) as (ms' & Hms' & Hall). rewrite Hms in Hms'.
      injection Hms' as <-. by apply Hall.
  - rewrite list_lookup_insert_ne by done. apply Hmem'.
Qed.

Lemma triple_set_r (a : addr) :
  triple (λ s, ∃ i, registered s i a) (set_r a) (λ s _ s', r s' = Some (VObject a)).
Proof.
  intros s [Hmap Hr Herr] [i Hi]. simpl. split; [|split; [|done]].
  - split; simpl; try done. intros v [= <-]. eauto.
  - repeat split; simpl; eauto.
Qed.

(** The insertion into a group that has no members mapping. *)
Lemma finish_no_mapping (group : addr) (m : record) (s : state) (a : addr) (o : object)
    (g : GraphGroup.t addr) :
  r s = Some (VObject a) → heap s !! a = Some o →
  heap s !! group = Some (OGroup g) → GraphGroup.members g = None →
  finish group m s
  = (Raise (TypeError "'NoneType' object does not support item assignment") s, []).
Proof.
  intros Hr Ha Hg Hms. unfold finish, get_r, attr_id, members_setitem.
  exec. rewrite Hr. simpl. exec. rewrite Ha. simpl. exec. by rewrite Hg, Hms.
Qed.

Lemma triple_finish (group : addr) (m : record) :
  triple (λ s, ∃ gi, mapping Group (sync_data s) !! gi = Some group)
         (finish group m) (λ _ _ s', is_Some (r s')).
Proof.
  intros s Hinv [gi Hgi].
  destruct (r s) as [v|] eqn:Hr.
  - destruct (inv_r s Hinv v Hr) as (a & i & -> & Hreg).
    pose proof Hreg as [k Hk]%registered_iff.
    destruct (inv_mapping s Hinv _ _ _ Hk) as (o & Ho & Hi & _).
    destruct (inv_mapping s Hinv _ _ _ Hgi) as (og & Hog & _ & Hkg).
    destruct og as [| |g|]; try discriminate.
    destruct (GraphGroup.members g) as [ms|] eqn:Hms.
    + rewrite (finish_link _ _ _ _ _ _ _ Hr Ho Hog Hms). simpl. subst i.
      split; [by apply link_inv|]. split; [apply link_extends|].
      destruct (link_mapping group (object_id o) a s) as [_ ->]. by rewrite Hr.
    + rewrite (finish_no_mapping _ _ _ _ _ _ Hr Ho Hog Hms). simpl.
      eauto using extends_refl.
  - rewrite (finish_unbound _ _ _ Hr). simpl. eauto using extends_refl.
Qed.

Lemma triple_member_body (group : addr) (m : record) :
  triple (λ s, ∃ gi, mapping Group (sync_data s) !! gi = Some group)
         (member_body group m) (λ _ _ s', is_Some (r s')).
Proof.
  intros s Hinv HP.
  rewrite member_body_eq.
  destruct (strip_none m !! "@odata.type") as [t|]; [|simpl; eauto using extends_refl].
  destruct (tag_kind t) as [k|]; [|by apply triple_finish].
  revert s Hinv HP. eapply triple_bind.
  - eapply triple_bind; [by apply triple_register|].
    intros s0 a _ _. eapply triple_conseq; [apply triple_set_r| |].
    + intros s _ (_ & _ & i & Hi). exists i. apply registered_iff. eauto.
    + intros. exact I.
  - intros s0 [] _ [gi Hgi]. eapply triple_conseq; [apply triple_finish| |].
    + intros s _ [(Hext & _) _]. eauto.
    + by intros.
Qed.

(** ** Opening a group *)

Lemma session_get_eq (res : response) (s : state) :
  session_get res s =
    match res with
    | Status_error st => (Raise (HTTPError st) s, [])
    | Body data => (Return data s, [])
    end.
Proof. by destruct res. Qed.

Section Client_facts.
Variable self : session.

Lemma get_group_by_name_eq (name : string) (s : state) :
  get_group_by_name self name s =
    match groups_by_name self name with
    | Status_error st => (Raise (HTTPError st) s, [Lookup name])
    | Body (Some [x]) => (Return (Some x) s, [Lookup name])
    | Body _ => (Return None s, [Lookup name])
    end.
Proof.
  unfold get_group_by_name. exec. rewrite session_get_eq.
  destruct (groups_by_name self name) as [st|[[|x [|y l]]|]]; reflexivity.
Qed.

Lemma get_group_members_eq (group_id : json) (s : state) :
  get_group_members self group_id s =
    match members_of self group_id with
    | Status_error st => (Raise (HTTPError st) s, [Fetch group_id])
    | Body data => (Return data s, [Fetch group_id])
    end.
Proof.
  unfold get_group_members. exec. rewrite session_get_eq.
  by destruct (members_of self group_id).
Qed.

(** What opening a group does, by what the directory answers. *)
Lemma open_group_lookup_error (name : string) (s : state) (st : nat) :
  groups_by_name self name = Status_error st →
  open_group self name s = (Raise (HTTPError st) s, [Lookup name]).
Proof.
  intros H. unfold open_group. by rewrite bind_eq, get_group_by_name_eq, H.
Qed.

Lemma open_group_passed (name : string) (s : state) (data : option (list record)) :
  groups_by_name self name = Body data → (∀ x, data ≠ Some [x]) →
  open_group self name s = (Return None s, [Lookup name]).
Proof.
  intros H Hne. unfold open_group. rewrite bind_eq, get_group_by_name_eq, H.
  destruct data as [[|x [|y l]]|]; try done. by destruct (Hne x).
Qed.

Lemma open_group_eq (name : string) (s : state) (x : record) :
  groups_by_name self name = Body (Some [x]) →
  open_group self name s =
    if bool_decide (size x = 0) then (Return None s, [Lookup name])
    else
      match x !! "id" with
      | None => (Raise (KeyError (JStr "id")) s, [Lookup name])
      | Some gid =>
          match members_of self gid with
          | Status_error st => (Raise (HTTPError st) s, [Lookup name; Fetch gid])
          | Body data =>
              match register Group x s with
              | (Return a s1, ev1) =>
                  (Return (Some (a, data)) s1, Lookup name :: Fetch gid :: ev1)
              | (Raise e s1, ev1) => (Raise e s1, Lookup name :: Fetch gid :: ev1)
              end
          end
      end.
Proof.
  intros Hname. unfold open_group. rewrite bind_eq, get_group_by_name_eq, Hname. simpl.
  case_bool_decide; [done|].
  destruct (x !! "id") as [gid|] eqn:Hid;
    [|unfold getitem; by rewrite bind_eq, Hid].
  rewrite (getitem_bind _ _ _ _ _ Hid).
  rewrite bind_eq, get_group_members_eq.
  destruct (members_of self gid) as [st|data]; simpl; [done|].
  rewrite bind_eq. unfold _register_group.
  destruct (register Group x s) as [[a s1|e s1] ev1] eqn:Hreg; simpl; [|done].
  destruct (register_Return_inv _ _ _ _ _ _ Hreg) as (i & Hi & Ha & _).
  rewrite Hid in Hi. injection Hi as ->.
  rewrite (getitem_bind _ _ _ _ _ Hid), bind_eq. unfold subscript.
  rewrite bind_eq. simpl. simpl in Ha. rewrite Ha. simpl. by rewrite !app_nil_r.
Qed.

(** The cases of [open_group], for proofs that go through all of them. *)
Lemma open_group_cases (name : string) (s : state) :
  (∃ e, open_group self name s = (Raise e s, [Lookup name]) ∧ e ≠ Stuck)
  ∨ open_group self name s = (Return None s, [Lookup name])
  ∨ ∃ x gid,
      groups_by_name self name = Body (Some [x]) ∧ size x ≠ 0 ∧ x !! "id" = Some gid
      ∧ ((∃ st, members_of self gid = Status_error st
                ∧ open_group self name s
                  = (Raise (HTTPError st) s, [Lookup name; Fetch gid]))
         ∨ ∃ data, members_of self gid = Body data
             ∧ ((∃ a s1 ev1, register Group x s = (Return a s1, ev1)
                   ∧ open_group self name s
                     = (Return (Some (a, data)) s1, Lookup name :: Fetch gid :: ev1))
                ∨ ∃ e s1 ev1, register Group x s = (Raise e s1, ev1)
                   ∧ open_group self name s
                     = (Raise e s1, Lookup name :: Fetch gid :: ev1))).
Proof.
  destruct (groups_by_name self name) as [st|data] eqn:Hname.
  { left. exists (HTTPError st). split; [by apply open_group_lookup_error|done]. }
  assert ((∃ x, data = Some [x]) ∨ ∀ x, data ≠ Some [x]) as [[x ->]|Hne].
  { destruct data as [[|x [|y l]]|]; eauto. }
  2: { right. left. by eapply open_group_passed. }
  rewrite (open_group_eq name s x Hname).
  case_bool_decide as Hsize; [by right; left|].
  destruct (x !! "id") as [gid|] eqn:Hid; [|left; eexists; split; done].
  right. right. exists x, gid. split_and!; try done.
  destruct (members_of self gid) as [st|data]; [left; eauto|]. right. exists data.
  split; [done|]. destruct (register Group x s) as [[a s1|e s1] ev1]; [left|right]; eauto 6.
Qed.

Lemma triple_get_group_by_name (P : state → Prop) (name : string) :
  triple P (get_group_by_name self name) (λ s res s', s' = s).
Proof.
  intros s Hinv _. rewrite get_group_by_name_eq.
  destruct (groups_by_name self name) as [st|[[|x [|y l]]|]]; simpl;
    split_and?; try done; try apply extends_refl.
Qed.

Lemma triple_get_group_members (P : state → Prop) (group_id : json) :
  triple P (get_group_members self group_id) (λ s res s', s' = s).
Proof.
  intros s Hinv _. rewrite get_group_members_eq.
  destruct (members_of self group_id) as [st|data]; simpl;
    split_and?; try done; try apply extends_refl.
Qed.

Lemma triple_subscript (P : state → Prop) (k : kind) (id : json) :
  triple P (subscript k id)
         (λ _ a s', ∃ i, mapping k (sync_data s') !! i = Some a).
Proof.
  intros s Hinv _. unfold subscript.
  destruct id as [ | b | z | f | i | l | js]; simpl;
    try (split_and?; try done; apply extends_refl).
  rewrite bind_eq. simpl. destruct (mapping k (sync_data s) !! i) as [a|] eqn:Ha; simpl;
    split_and?; try done; try apply extends_refl. eauto.
Qed.

Lemma triple_open_group (P : state → Prop) (name : string) :
  triple P (open_group self name)
    (λ _ res s',
       match res with
       | None => True
       | Some (group, gms) => ∃ gi, mapping Group (sync_data s') !! gi = Some group
       end).
Proof.
  unfold open_group. eapply triple_bind; [apply triple_get_group_by_name|].
  intros s0 [gi|] _ _; [|eapply triple_conseq; [apply triple_ret|done|]; by intros ? ? ? ? ? ? ? [-> _]].
  case_bool_decide.
  { eapply triple_conseq; [apply triple_ret|done|]. by intros ? ? ? ? ? ? ? [-> _]. }
  eapply triple_bind; [apply triple_getitem|]. intros s1 gid _ _.
  eapply triple_bind; [apply triple_get_group_members|]. intros s2 gms _ _.
  eapply triple_bind; [apply triple_register|]. intros s3 a _ _.
  eapply triple_bind; [apply triple_getitem|]. intros s4 gid' _ _.
  eapply triple_bind; [apply triple_subscript|]. intros s5 group _ _.
  eapply triple_conseq; [apply triple_ret|done|].
  intros s ? s' _ [_ Hgroup] _ _ [-> ->]. done.
Qed.
End Client_facts.

(** ** The loops *)

Lemma triple_members_for_each (group : addr) (ms : list record) :
  triple (group_registered group) (for_each ms (member_body group))
         (λ _ _ s', group_registered group s').
Proof.
  apply triple_for_each. intros m Hm.
  eapply triple_conseq; [apply triple_member_body| |].
  - done.
  - intros s [] s' _ [gi Hgi] _ (Hext & _) _. exists gi. by apply Hext.
Qed.

Lemma triple_members_loop (group : addr) (gms : option (list record)) :
  triple (group_registered group) (members_loop group gms) (λ _ _ _, True).
Proof.
  destruct gms as [ms|]; simpl.
  - eapply triple_conseq; [apply triple_members_for_each|done|done].
  - by apply triple_raise.
Qed.

(** ** The invariant *)

Section Run_facts.
Variable self : session.

Lemma triple_group_body (P : state → Prop) (name : string) :
  triple P (group_body self name) (λ _ _ _, True).
Proof.
  unfold group_body. eapply triple_bind; [apply triple_open_group|].
  intros s0 [[group gms]|] _ _.
  - intros s Hinv (_ & Hreg).
    exact (triple_members_loop group gms s Hinv Hreg).
  - eapply triple_conseq; [apply triple_ret|done|done].
Qed.

Lemma triple_groups_loop (names : list string) :
  triple (λ _, True) (groups_loop self names) (λ _ _ _, True).
Proof.
  unfold groups_loop. eapply triple_conseq; [apply (triple_for_each (λ _, True))|done|done].
  intros name _. apply triple_group_body.
Qed.

(** Every run ends in a state that satisfies the invariant, and never
    on [Stuck]. *)
Lemma get_objects_for_sync_inv (group_names : list string) :
  match (get_objects_for_sync self group_names).1 with
  | Return sd s => inv s ∧ sd = sync_data s
  | Raise e s => e ≠ Stuck ∧ inv s
  end.
Proof.
  unfold get_objects_for_sync. rewrite bind_eq.
  pose proof (triple_groups_loop group_names initial inv_initial I) as H.
  destruct (groups_loop self group_names initial) as [[[] s|e s] ev]; simpl in *.
  - by destruct H as (? & _).
  - by destruct H as (? & ? & _).
Qed.

Lemma get_objects_for_sync_not_stuck (group_names : list string) (s : state)
    (ev : list event) :
  get_objects_for_sync self group_names ≠ (Raise Stuck s, ev).
Proof.
  intros H. pose proof (get_objects_for_sync_inv group_names) as Hinv.
  rewrite H in Hinv. simpl in Hinv. by destruct Hinv.
Qed.

(** An exception raised while the groups are processed is the outcome
    of the run. *)
Lemma get_objects_for_sync_Raise (group_names : list string) (e : exn) (s : state)
    (ev : list event) :
  groups_loop self group_names initial = (Raise e s, ev) →
  get_objects_for_sync self group_names = (Raise e s, ev).
Proof. intros H. unfold get_objects_for_sync. by rewrite bind_eq, H. Qed.

Lemma get_objects_for_sync_Return_inv (names : list string)
    (sd : GraphSyncObject) (s : state) (ev : list event) :
  get_objects_for_sync self names = (Return sd s, ev) →
  groups_loop self names initial = (Return tt s, ev) ∧ sd = sync_data s ∧ inv s.
Proof.
  intros H. pose proof (get_objects_for_sync_inv names) as Hinv.
  rewrite H in Hinv. destruct Hinv as [Hinv Hsd]. revert H.
  unfold get_objects_for_sync. rewrite bind_eq.
  destruct (groups_loop self names initial) as [[[] s1|e s1] ev1]; simpl; [|done].
  rewrite app_nil_r. by intros [= _ -> ->].
Qed.

Lemma reaches_inv pre name group mpre m mpost s ev :
  reaches self pre name group mpre m mpost s ev →
  inv s ∧ group_registered group s.
Proof.
  intros (s1 & ev1 & s2 & ev2 & ev3 & H1 & H2 & H3 & _).
  pose proof (triple_groups_loop pre initial inv_initial I) as Hs1.
  rewrite H1 in Hs1. destruct Hs1 as (Hinv1 & _).
  pose proof (triple_open_group self (λ _, True) name s1 Hinv1 I) as Hs2.
  rewrite H2 in Hs2. destruct Hs2 as (Hinv2 & _ & Hreg).
  pose proof (triple_members_for_each group mpre s2 Hinv2 Hreg) as Hs3.
  rewrite H3 in Hs3. by destruct Hs3 as (? & _ & ?).
Qed.

(** An exception raised by the loop body at a member is the outcome of
    the run: nothing between the body and the caller catches it. *)
Lemma reaches_Raise pre name post group mpre m mpost s ev e s' ev' :
  reaches self pre name group mpre m mpost s ev →
  member_body group m s = (Raise e s', ev') →
  get_objects_for_sync self (pre ++ name :: post) = (Raise e s', ev ++ ev').
Proof.
  intros (s1 & ev1 & s2 & ev2 & ev3 & H1 & H2 & H3 & ->) Hm.
  apply get_objects_for_sync_Raise. unfold groups_loop in *.
  rewrite <- !app_assoc. apply (for_each_raise _ _ _ _ _ s1); [done|].
  unfold group_body. rewrite bind_eq, H2. simpl.
  by rewrite (for_each_raise _ _ _ _ _ _ _ _ _ _ H3 Hm).
Qed.

(** An exception raised by the loop body at a name is the outcome of the
    run over any list of names that goes on from there. *)
Lemma groups_Raise (pre post : list string) (name : string) (s s' : state)
    (ev ev' : list event) (e : exn) :
  groups_loop self pre initial = (Return tt s, ev) →
  group_body self name s = (Raise e s', ev') →
  get_objects_for_sync self (pre ++ name :: post) = (Raise e s', ev ++ ev').
Proof.
  intros Hpre Hbody. apply get_objects_for_sync_Raise. unfold groups_loop in *.
  by apply (for_each_raise _ _ _ _ _ s).
Qed.
End Run_facts.

(** ** Events *)

Lemma finish_events (group : addr) (m : record) (s : state) :
  (finish group m s).2 = [].
Proof.
  unfold finish, get_r, attr_id, members_setitem, errors_append. exec.
  destruct (r s) as [[a|e]|]; simpl; [|done|done]. exec.
  destruct (heap s !! a) as [o|]; simpl; [|done]. exec.
  destruct (heap s !! group) as [[| |g|]|]; simpl; try done.
  by destruct (GraphGroup.members g).
Qed.

Lemma register_events (k : kind) (d : record) (s : state) :
  (register k d s).2 = [] ∨ (register k d s).2 = [Validate k d].
Proof.
  destruct (register k d s) as [[a s'|e s'] ev] eqn:E; simpl.
  - destruct (register_Return_inv _ _ _ _ _ _ E) as (i & _ & _ & [(_ & _ & ->)|(_ & ->)]); auto.
  - destruct (register_Raise_inv _ _ _ _ _ _ E) as (_ & _ & [->|[-> _]]); auto.
Qed.

(** The loop body makes no request to the directory, and the only record
    it validates is the member record without its null entries. *)
Lemma member_body_events (group : addr) (m : record) (s : state) :
  (member_body group m s).2 = []
  ∨ ∃ k, strip_none m !! "@odata.type" = Some (JStr (odata_type k))
         ∧ (member_body group m s).2 = [Validate k (strip_none m)].
Proof.
  rewrite member_body_eq.
  destruct (strip_none m !! "@odata.type") as [t|]; [|by left].
  destruct (tag_kind t) as [k|] eqn:Hk; [|left; apply finish_events].
  apply tag_kind_Some in Hk as ->.
  rewrite !bind_eq. pose proof (register_events k (strip_none m) s) as Hreg.
  destruct (register k (strip_none m) s) as [[a s1|e s1] ev1]; simpl in *.
  - match goal with |- context [finish group (strip_none m) ?s'] =>
      pose proof (finish_events group (strip_none m) s') as Hf;
      destruct (finish group (strip_none m) s') as [o ev2] end.
    simpl in *. subst ev2. rewrite !app_nil_r.
    destruct Hreg as [->| ->]; [by left|right; eauto].
  - destruct Hreg as [->| ->]; [by left|right; eauto].
Qed.

Lemma for_each_events {A} (l : list A) (body : A → M unit) (P : event → Prop) (s : state) :
  (∀ x s', x ∈ l → Forall P (body x s').2) → Forall P (for_each l body s).2.
Proof.
  revert s. induction l as [|x l IH]; intros s Hbody; simpl; [done|].
  rewrite bind_eq. pose proof (Hbody x s (list_elem_of_here _ _)) as Hx.
  destruct (body x s) as [[[] s1|e s1] ev1]; simpl in *; [|done].
  specialize (IH s1 (λ y s' Hy, Hbody y s' (list_elem_of_further _ _ _ Hy))).
  destruct (for_each l body s1) as [o ev2]. simpl in *. by apply Forall_app.
Qed.

Lemma member_body_no_transport (group : addr) (m : record) (s : state) :
  Forall is_validate (member_body group m s).2.
Proof.
  destruct (member_body_events group m s) as [->|(k & _ & ->)]; [done|].
  by apply Forall_singleton.
Qed.

Lemma members_loop_no_transport (group : addr) (gms : option (list record)) (s : state) :
  Forall is_validate (members_loop group gms s).2.
Proof.
  destruct gms as [ms|]; simpl; [|done].
  apply for_each_events. intros m s' _. apply member_body_no_transport.
Qed.

Section Event_facts.
Variable self : session.

(** What opening a group asks of the directory: the lookup of the name
    and, when it resolves to one group, the members of that group. *)
Lemma open_group_events (name : string) (s : state) :
  (open_group self name s).2 = [Lookup name]
  ∨ ∃ x gid evs,
      groups_by_name self name = Body (Some [x])
      ∧ x !! "id" = Some gid
      ∧ (open_group self name s).2 = Lookup name :: Fetch gid :: evs
      ∧ Forall is_validate evs.
Proof.
  destruct (open_group_cases self name s)
    as [(e & -> & _)|[->|(x & gid & Hx & _ & Hid & Hrest)]]; [by left|by left|].
  right. exists x, gid.
  destruct Hrest as [(st & _ & ->)|(data & _ & [(a & s1 & ev1 & Hreg & ->)
                                               |(e & s1 & ev1 & Hreg & ->)])].
  - exists []. by split_and!.
  - exists ev1. split_and!; try done.
    pose proof (register_events Group x s) as He. rewrite Hreg in He. simpl in He.
    destruct He as [->| ->]; by repeat constructor.
  - exists ev1. split_and!; try done.
    pose proof (register_events Group x s) as He. rewrite Hreg in He. simpl in He.
    destruct He as [->| ->]; by repeat constructor.
Qed.

Lemma group_body_events (name : string) (s : state) :
  ∃ evs, Forall is_validate evs
    ∧ ((group_body self name s).2 = Lookup name :: evs
       ∨ ∃ x gid, groups_by_name self name = Body (Some [x]) ∧ x !! "id" = Some gid
                  ∧ (group_body self name s).2 = Lookup name :: Fetch gid :: evs).
Proof.
  unfold group_body. rewrite bind_eq.
  pose proof (open_group_events name s) as Hopen.
  destruct (open_group self name s) as [[[[group gms]|] s1|e s1] ev1]; simpl in *.
  - pose proof (members_loop_no_transport group gms s1) as Hms.
    destruct (members_loop group gms s1) as [o ev2]. simpl in *.
    destruct Hopen as [->|(x & gid & evs & Hx & Hgid & -> & Hevs)].
    + exists ev2. split; [done|]. by left.
    + exists (evs ++ ev2). split; [by apply Forall_app|]. right. by exists x, gid.
  - rewrite app_nil_r. destruct Hopen as [->|(x & gid & evs & Hx & Hgid & -> & Hevs)].
    + exists []. split; [done|]. by left.
    + exists evs. split; [done|]. right. by exists x, gid.
  - destruct Hopen as [->|(x & gid & evs & Hx & Hgid & -> & Hevs)].
    + exists []. split; [done|]. by left.
    + exists evs. split; [done|]. right. by exists x, gid.
Qed.

Lemma filter_validate (f : event → bool) (evs : list event) :
  (∀ e, f e = true → is_transport e = true) →
  Forall is_validate evs → List.filter f evs = [].
Proof.
  intros Hf. induction 1 as [|e evs He _ IH]; simpl; [done|].
  destruct (f e) eqn:Hfe; [|done]. apply Hf in Hfe. unfold is_validate in He. congruence.
Qed.

Lemma groups_loop_events (names : list string) (s : state) :
  (List.length (List.filter is_fetch (groups_loop self names s).2) ≤ List.length names)%nat
  ∧ (List.length (List.filter is_transport (groups_loop self names s).2)
     ≤ 2 * List.length names)%nat
  ∧ ∀ gid, Fetch gid ∈ (groups_loop self names s).2 →
      ∃ name x, name ∈ names ∧ groups_by_name self name = Body (Some [x])
                ∧ x !! "id" = Some gid.
Proof.
  revert s. induction names as [|name names IH]; intros s.
  { simpl. split_and!; [lia|lia|]. intros gid H. by apply elem_of_nil in H. }
  unfold groups_loop in *. simpl. rewrite bind_eq.
  destruct (group_body_events name s) as (evs & Hevs & Hbody).
  assert (Hfetch : List.filter is_fetch evs = []).
  { apply filter_validate; [|done]. by intros []. }
  assert (Htrans : List.filter is_transport evs = []) by by apply filter_validate.
  assert (Hin : ∀ gid, Fetch gid ∈ evs → False).
  { intros gid Hg. eapply Forall_forall in Hevs; [|exact Hg]. done. }
  destruct (group_body self name s) as [[[] s1|e s1] ev1]; simpl in *.
  - destruct (IH s1) as (IH1 & IH2 & IH3).
    destruct (for_each names (group_body self) s1) as [o ev2]. simpl in *.
    rewrite !List.filter_app, !length_app.
    destruct Hbody as [->|(x & gid & Hx & Hgid & ->)]; simpl; rewrite ?Hfetch, ?Htrans; simpl.
    + split_and!; [lia|lia|]. intros g Hg.
      rewrite elem_of_cons, elem_of_app in Hg. destruct Hg as [?|[Hg|Hg]]; [done| |].
      * by destruct (Hin g).
      * destruct (IH3 g Hg) as (n & y & ? & ? & ?). exists n, y. split; [by right|done].
    + split_and!; [lia|lia|]. intros g Hg.
      rewrite !elem_of_cons, elem_of_app in Hg.
      destruct Hg as [?|[[= ->]|[Hg|Hg]]]; [done| | |].
      * exists name, x. split; [by left|done].
      * by destruct (Hin g).
      * destruct (IH3 g Hg) as (n & y & ? & ? & ?). exists n, y. split; [by right|done].
  - destruct Hbody as [->|(x & gid & Hx & Hgid & ->)]; simpl; rewrite ?Hfetch, ?Htrans; simpl.
    + split_and!; [lia|lia|]. intros g Hg.
      apply elem_of_cons in Hg as [?|Hg]; [done|]. by destruct (Hin g).
    + split_and!; [lia|lia|]. intros g Hg.
      apply elem_of_cons in Hg as [?|Hg]; [done|].
      apply elem_of_cons in Hg as [[= ->]|Hg]; [|by destruct (Hin g)].
      exists name, x. split; [by left|done].
Qed.

Lemma get_objects_for_sync_events (names : list string) :
  (get_objects_for_sync self names).2 = (groups_loop self names initial).2.
Proof.
  unfold get_objects_for_sync. rewrite bind_eq.
  destruct (groups_loop self names initial) as [[[] s|e s] ev]; simpl; [|done].
  by rewrite app_nil_r.
Qed.
End Event_facts.

Lemma for_each_skip {A} (pre post : list A) (x : A) (body : A → M unit)
    (evx : list event) (s : state) :
  (∀ s', body x s' = (Return tt s', evx)) →
  (for_each (pre ++ x :: post) body s).1 = (for_each (pre ++ post) body s).1.
Proof.
  intros Hx. rewrite !for_each_app, !bind_eq.
  destruct (for_each pre body s) as [[[] s1|e s1] ev1]; [|done].
  simpl. rewrite bind_eq, Hx. by destruct (for_each post body s1).
Qed.

Lemma get_objects_for_sync_outcome (self : session) (names names' : list string) :
  (groups_loop self names initial).1 = (groups_loop self names' initial).1 →
  (get_objects_for_sync self names).1 = (get_objects_for_sync self names').1.
Proof.
  unfold get_objects_for_sync. rewrite !bind_eq.
  destruct (groups_loop self names initial) as [[[] s|e s] ev],
           (groups_loop self names' initial) as [[[] s'|e' s'] ev']; simpl;
    intros [= <-]; congruence.
Qed.


(** ** What the loop body does, case by case *)

Lemma member_body_no_tag (group : addr) (m : record) (s : state) :
  strip_none m !! "@odata.type" = None →
  member_body group m s = (Raise (KeyError (JStr "@odata.type")) s, []).
Proof. intros H. by rewrite member_body_eq, H. Qed.

Lemma member_body_no_id (group : addr) (m : record) (s : state) (k : kind) :
  strip_none m !! "@odata.type" = Some (JStr (odata_type k)) →
  strip_none m !! "id" = None →
  member_body group m s = (Raise (KeyError (JStr "id")) s, []).
Proof.
  intros Ht Hid. rewrite member_body_eq, Ht.
  rewrite (proj2 (tag_kind_Some _ k) eq_refl).
  by rewrite !bind_eq, (register_no_id _ _ _ Hid).
Qed.

Lemma member_body_invalid (group : addr) (m : record) (s : state) (k : kind)
    (i : string) (e : exn) :
  strip_none m !! "@odata.type" = Some (JStr (odata_type k)) →
  strip_none m !! "id" = Some (JStr i) →
  mapping k (sync_data s) !! i = None →
  new_object k (strip_none m) = inr e →
  member_body group m s = (Raise e s, [Validate k (strip_none m)]).
Proof.
  intros Ht Hid Hnone He. rewrite member_body_eq, Ht.
  rewrite (proj2 (tag_kind_Some _ k) eq_refl).
  by rewrite !bind_eq, (register_invalid _ _ _ _ _ Hid Hnone He).
Qed.

Lemma member_body_unrecognized (group : addr) (m : record) (s : state) (t : json) :
  strip_none m !! "@odata.type" = Some t → unrecognized t →
  member_body group m s = finish group (strip_none m) s.
Proof.
  intros Ht Hun. rewrite member_body_eq, Ht. by rewrite (proj2 (tag_kind_None t) Hun).
Qed.

Lemma members_at_Some (s : state) (group : addr) (ms : gmap string addr) :
  members_at s group = Some ms ↔
  ∃ g, heap s !! group = Some (OGroup g) ∧ GraphGroup.members g = Some ms.
Proof.
  unfold members_at. split.
  - destruct (heap s !! group) as [[| |g|]|]; try done. eauto.
  - by intros (g & -> & ->).
Qed.

Lemma member_body_cached (group : addr) (m : record) (s : state) (k : kind)
    (i : string) (a : addr) (ms : gmap string addr) :
  inv s → members_at s group = Some ms →
  strip_none m !! "@odata.type" = Some (JStr (odata_type k)) →
  strip_none m !! "id" = Some (JStr i) →
  mapping k (sync_data s) !! i = Some a →
  member_body group m s = (Return tt (link group i a (bind_r a s)), []).
Proof.
  intros Hinv (g & Hog & Hms)%members_at_Some Ht Hid Ha. rewrite member_body_eq, Ht.
  rewrite (proj2 (tag_kind_Some _ k) eq_refl).
  rewrite !bind_eq, (register_cached _ _ _ _ _ Hid Ha). simpl.
  destruct (inv_mapping s Hinv _ _ _ Ha) as (o & Ho & Hi & _).
  fold (bind_r a s).
  rewrite (finish_link group _ (bind_r a s) a o g ms); try done. by rewrite Hi.
Qed.

Lemma member_body_fresh (group : addr) (m : record) (s : state) (k : kind)
    (i : string) (o : object) (ms : gmap string addr) :
  members_at s group = Some ms → (k = Group → strip_none m !! "members" = None) →
  strip_none m !! "@odata.type" = Some (JStr (odata_type k)) →
  strip_none m !! "id" = Some (JStr i) →
  mapping k (sync_data s) !! i = None →
  new_object k (strip_none m) = inl o →
  member_body group m s
  = (Return tt (link group i (length (heap s)) (store k i o s)),
     [Validate k (strip_none m)]).
Proof.
  intros (g & Hog & Hms)%members_at_Some Hm' Ht Hid Hnone Ho. rewrite member_body_eq, Ht.
  rewrite (proj2 (tag_kind_Some _ k) eq_refl).
  rewrite !bind_eq, (register_fresh _ _ _ _ _ Hid Hnone Hm' Ho). simpl.
  fold (store k i o s).
  destruct (new_object_id _ _ _ Ho) as [Hi _]. rewrite Hid in Hi. injection Hi as Hi.
  rewrite (finish_link group _ (store k i o s) (length (heap s)) o g ms); try done.
  - by rewrite <- Hi.
  - simpl. by rewrite list_lookup_middle.
  - simpl. by rewrite (lookup_app_l_Some _ _ _ _ Hog).
Qed.

Lemma outcome_eta {A} (x : outcome A * list event) (a : A) (s : state) :
  x.1 = Return a s → x = (Return a s, x.2).
Proof. destruct x as [o ev]. simpl. by intros ->. Qed.

Lemma reaches_position (self : session) (pre : list string) (name : string) (group : addr)
    (mpre mpost : list record) (m : record) :
  (groups_loop self pre initial).1 = Return tt (final (groups_loop self pre initial)) →
  (open_group self name (final (groups_loop self pre initial))).1
  = Return (Some (group, Some (mpre ++ m :: mpost)))
           (final (open_group self name (final (groups_loop self pre initial)))) →
  (for_each mpre (member_body group)
     (final (open_group self name (final (groups_loop self pre initial))))).1
  = Return tt (position self pre name group mpre).1 →
  reaches self pre name group mpre m mpost
          (position self pre name group mpre).1 (position self pre name group mpre).2.
Proof.
  intros H1 H2 H3. unfold position in *. simpl in *.
  exists (final (groups_loop self pre initial)), (groups_loop self pre initial).2,
    (final (open_group self name (final (groups_loop self pre initial)))),
    (open_group self name (final (groups_loop self pre initial))).2,
    (for_each mpre (member_body group)
       (final (open_group self name (final (groups_loop self pre initial))))).2.
  split_and!; try done; by apply outcome_eta.
Qed.

Lemma register_Return_r (k : kind) (d : record) (s s' : state) (a : addr) (ev : list event) :
  register k d s = (Return a s', ev) → r s' = r s ∧ errors (sync_data s') = errors (sync_data s).
Proof.
  intros H. destruct (register_Return_inv _ _ _ _ _ _ H) as (i & Hi & _ & [(_ & -> & _)|(Hn & _)]);
    [done|].
  destruct (new_object k d) as [o|e] eqn:Ho;
    [|rewrite (register_invalid _ _ _ _ _ Hi Hn Ho) in H; discriminate].
  destruct (register_new _ _ s _ _ Hi Hn Ho) as (bs & o' & Hreg & _).
  rewrite Hreg in H. injection H as <- <- <-. simpl. by destruct k.
Qed.

Section Open_facts.
Variable self : session.

Lemma open_group_r (name : string) (s s' : state) (ev : list event)
    (res : option (addr * option (list record))) :
  open_group self name s = (Return res s', ev) → r s' = r s.
Proof.
  destruct (open_group_cases self name s)
    as [(e & -> & _)|[->|(x & gid & Hx & _ & Hid & Hrest)]];
    [done|by intros [= <- <- <-]|].
  destruct Hrest as [(st & _ & ->)|(data & _ & [(a & s1 & ev1 & Hreg & ->)
                                               |(e & s1 & ev1 & Hreg & ->)])]; try done.
  intros [= <- <- <-]. by apply register_Return_r in Hreg as [Hr _].
Qed.
End Open_facts.

Lemma group_validate_intro (d : record) (i n : string) :
  d !! "id" = Some (JStr i) → d !! "displayName" = Some (JStr n) → d !! "members" = None →
  new_object Group d = inl (OGroup (GraphGroup.mk i n (Some ∅))).
Proof.
  intros Hi Hn Hm. unfold new_object, GraphGroup.model_validate, GraphGroup.validate_members.
  by rewrite (required_one _ _ _ Hi), (required_one _ _ _ Hn), Hm.
Qed.

(** A member record that fails validation ends the run: the
    [ValidationError] that the registration routine raises again is the
    outcome of [get_objects_for_sync]. *)
Lemma validation_error_escapes (self : session) (pre post : list string) (name : string)
    (group : addr) (mpre mpost : list record) (m : record) (s : state) (ev : list event)
    (k : kind) (i : string) (e : exn) :
  reaches self pre name group mpre m mpost s ev →
  strip_none m !! "@odata.type" = Some (JStr (odata_type k)) →
  strip_none m !! "id" = Some (JStr i) →
  mapping k (sync_data s) !! i = None →
  new_object k (strip_none m) = inr e →
  get_objects_for_sync self (pre ++ name :: post)
  = (Raise e s, ev ++ [Validate k (strip_none m)])
  ∧ is_ValidationError e = true.
Proof.
  intros Hreach Ht Hid Hnone He. split; [|by eapply new_object_error].
  eapply reaches_Raise; [done|]. by eapply member_body_invalid.
Qed.


Section Open_result.
Variable self : session.

Lemma open_group_Return (name : string) (s s' : state) (ev : list event)
    (group : addr) (gms : option (list record)) :
  open_group self name s = (Return (Some (group, gms)) s', ev) →
  ∃ x gid ev1,
    groups_by_name self name = Body (Some [x]) ∧ size x ≠ 0 ∧ x !! "id" = Some gid
    ∧ members_of self gid = Body gms
    ∧ register Group x s = (Return group s', ev1)
    ∧ ev = Lookup name :: Fetch gid :: ev1.
Proof.
  destruct (open_group_cases self name s)
    as [(e & -> & _)|[->|(x & gid & Hx & Hsize & Hid & Hrest)]]; [done|done|].
  destruct Hrest as [(st & _ & ->)|(data & Hdata & [(a & s1 & ev1 & Hreg & ->)
                                                   |(e & s1 & ev1 & Hreg & ->)])]; try done.
  intros [= <- <- <- <-]. by exists x, gid, ev1.
Qed.

Lemma open_group_None (name : string) (s s' : state) (ev : list event) :
  open_group self name s = (Return None s', ev) →
  s' = s ∧ ev = [Lookup name] ∧ members_for self name = [].
Proof.
  unfold members_for.
  destruct (groups_by_name self name) as [st|data] eqn:Hname.
  { by rewrite (open_group_lookup_error self name s st Hname). }
  assert ((∃ x, data = Some [x]) ∨ ∀ x, data ≠ Some [x]) as [[x ->]|Hne].
  { destruct data as [[|x [|y l]]|]; eauto. }
  2: { rewrite (open_group_passed self name s data Hname Hne). intros [= <- <-].
       split_and!; try done. destruct data as [[|x [|y l]]|]; try done. by destruct (Hne x). }
  rewrite (open_group_eq self name s x Hname). case_bool_decide; [by intros [= <- <-]|].
  destruct (x !! "id") as [gid|]; [|done].
  destruct (members_of self gid) as [st|data]; [done|].
  by destruct (register Group x s) as [[a s1|e s1] ev1].
Qed.
End Open_result.

(** ** The model on the sample directories *)

Example validate_bool_table :
  validate_bool (JBool false) = Some false
  ∧ validate_bool (JInt 1) = Some true
  ∧ validate_bool (JInt 2) = None
  ∧ validate_bool (JStr "Yes") = Some true
  ∧ validate_bool (JStr "off") = Some false
  ∧ validate_bool (JStr "enabled") = None
  ∧ validate_bool (JFloat (S754_zero true)) = Some false
  ∧ validate_bool (JFloat (SFone 53 1024)) = Some true
  ∧ validate_bool JNull = None.
Proof. split_and!; by_vm. Qed.

Example validate_ann :
  GraphUser.model_validate (strip_none Sample.ann)
  = inl (GraphUser.mk "u1" "Ann" "ann@example.org" true).
Proof. by_vm. Qed.

Example validate_cid_disabled :
  GraphUser.model_validate (strip_none Sample.cid)
  = inl (GraphUser.mk "u3" "Cid" "cid@example.org" false).
Proof. by_vm. Qed.

(** The run over "Staff" and "Ops": two users, one service principal and
    the two groups, five objects in all; "Ops" is a member of "Staff" and
    a top-level group of its own, and is one object; the device of "Ops"
    adds no member of its own (it stores the user before it once more). *)
Example staff_and_ops_result :
  ∃ sd s ev,
    Sample.staff_and_ops = (Return sd s, ev)
    ∧ map_to_list (users sd) = [("u1", 1); ("u2", 2)]
    ∧ map_to_list (service_principals sd) = [("p1", 3)]
    ∧ map_to_list (groups sd) = [("g1", 0); ("g2", 4)]
    ∧ errors sd = []
    ∧ List.length (heap s) = 5
    ∧ map_to_list <$> members_at s 0 = Some [("g2", 4); ("u1", 1); ("u2", 2); ("p1", 3)]
    ∧ map_to_list <$> members_at s 4 = Some [("u1", 1)]
    ∧ List.filter is_transport ev
      = [Lookup "Staff"; Fetch (JStr "g1"); Lookup "Ops"; Fetch (JStr "g2")].
Proof.
  exists (sync_data (final Sample.staff_and_ops)), (final Sample.staff_and_ops),
    Sample.staff_and_ops.2.
  split_and!; by_vm.
Qed.

(** ** What the loop body leaves behind, whether it returns or raises *)

(** The end of the loop body validates nothing and touches nothing but the
    members of the current group (and the error list, were [r] ever an
    exception). *)
Lemma finish_final (group : addr) (m : record) (s : state) :
  (finish group m s).2 = []
  ∧ (∀ k, mapping k (sync_data (final (finish group m s))) = mapping k (sync_data s))
  ∧ r (final (finish group m s)) = r s
  ∧ ∀ a, a ≠ group → heap (final (finish group m s)) !! a = heap s !! a.
Proof.
  split; [apply finish_events|].
  unfold final, finish, get_r, attr_id, members_setitem, errors_append. exec.
  destruct (r s) as [[a|e]|] eqn:Hr; simpl; [|by split_and!; [intros []|..]|done].
  exec. destruct (heap s !! a) as [o|]; simpl; [|done]. exec.
  destruct (heap s !! group) as [[| |g|]|]; simpl; try done.
  destruct (GraphGroup.members g); simpl; [|done].
  split_and!; try done. intros b Hb. by rewrite list_lookup_insert_ne.
Qed.

Lemma final_bind {A B} (m : M A) (f : A → M B) (s : state) :
  final ((m ≫= f) s)
  = match (m s).1 with
    | Return a s' => final (f a s')
    | Raise _ s' => s'
    end.
Proof.
  rewrite bind_eq. destruct (m s) as [[a s'|e s'] ev]; [|done].
  simpl. by destruct (f a s').
Qed.

(** A member with a recognized tag whose id is no key yet and whose record
    validates: the record is validated once and the entity is stored,
    whatever becomes of the insertion into the current group. *)
Lemma member_body_registers (group : addr) (m : record) (s : state) (k : kind)
    (i : string) (o : object) :
  is_Some (heap s !! group) → (k = Group → strip_none m !! "members" = None) →
  strip_none m !! "@odata.type" = Some (JStr (odata_type k)) →
  strip_none m !! "id" = Some (JStr i) →
  mapping k (sync_data s) !! i = None →
  new_object k (strip_none m) = inl o →
  (member_body group m s).2 = [Validate k (strip_none m)]
  ∧ mapping k (sync_data (final (member_body group m s))) !! i = Some (length (heap s))
  ∧ heap (final (member_body group m s)) !! length (heap s) = Some o
  ∧ r (final (member_body group m s)) = Some (VObject (length (heap s))).
Proof.
  intros Hgroup Hm' Ht Hid Hnone Ho.
  assert (Hne : length (heap s) ≠ group).
  { destruct Hgroup as [og Hog]. apply lookup_lt_Some in Hog. lia. }
  rewrite member_body_eq, Ht. rewrite (proj2 (tag_kind_Some _ k) eq_refl).
  destruct (finish_final group (strip_none m) (store k i o s)) as (Hev & Hmap & Hr & Hheap).
  rewrite final_bind, !bind_eq, (register_fresh _ _ _ _ _ Hid Hnone Hm' Ho). simpl.
  fold (store k i o s).
  destruct (finish group (strip_none m) (store k i o s)) as [out ev2] eqn:Hf.
  unfold final in *. simpl in *. subst ev2. split_and!; [done| | |].
  - rewrite Hmap. apply mapping_insert_lookup.
  - etrans; [apply (Hheap _ Hne)|]. by apply list_lookup_middle.
  - by rewrite Hr.
Qed.

(** A member with a recognized tag whose id is a key already: nothing is
    validated, and the entity stored under the id is the one that goes
    into the current group. *)
Lemma member_body_reuses (group : addr) (m : record) (s : state) (k : kind)
    (i : string) (a : addr) :
  strip_none m !! "@odata.type" = Some (JStr (odata_type k)) →
  strip_none m !! "id" = Some (JStr i) →
  mapping k (sync_data s) !! i = Some a →
  (member_body group m s).2 = []
  ∧ (∀ k', mapping k' (sync_data (final (member_body group m s))) = mapping k' (sync_data s))
  ∧ r (final (member_body group m s)) = Some (VObject a)
  ∧ ∀ b, b ≠ group → heap (final (member_body group m s)) !! b = heap s !! b.
Proof.
  intros Ht Hid Ha.
  rewrite member_body_eq, Ht. rewrite (proj2 (tag_kind_Some _ k) eq_refl).
  destruct (finish_final group (strip_none m) (bind_r a s)) as (Hev & Hmap & Hr & Hheap).
  rewrite final_bind, !bind_eq, (register_cached _ _ _ _ _ Hid Ha). simpl.
  fold (bind_r a s).
  destruct (finish group (strip_none m) (bind_r a s)) as [out ev2] eqn:Hf.
  unfold final in *. simpl in *. subst ev2. by split_and!.
Qed.

Lemma members_at_link (group : addr) (key : string) (obj : addr) (s : state) (ga : addr) :
  members_at (link group key obj s) ga
  = if decide (ga = group) then (λ ms, <[key := obj]> ms) <$> members_at s ga
    else members_at s ga.
Proof.
  unfold members_at, link.
  destruct (heap s !! group) as [og|] eqn:Hg.
  2: { case_decide; [|done]. subst. by rewrite Hg. }
  destruct og as [| |g|]; try (case_decide; [|done]; subst; by rewrite Hg).
  destruct (GraphGroup.members g) as [ms|] eqn:Hms; simpl.
  2: { case_decide; [|done]. subst. by rewrite Hg, Hms. }
  case_decide as Hga.
  - subst. rewrite list_lookup_insert_eq by (by eapply lookup_lt_Some).
    by rewrite Hg, Hms.
  - by rewrite list_lookup_insert_ne by done.
Qed.

Lemma members_at_app (s : state) (l : list object) (sd : GraphSyncObject)
    (v : option value) (ga : addr) (ms : gmap string addr) :
  members_at s ga = Some ms → members_at (mkState (heap s ++ l) sd v) ga = Some ms.
Proof.
  unfold members_at. simpl. destruct (heap s !! ga) as [og|] eqn:Hg; [|done].
  by rewrite (lookup_app_l_Some _ _ _ _ Hg).
Qed.

(** The group object of a member that the run has come to. *)
Lemma reaches_group (self : session) pre name group mpre m mpost s ev :
  reaches self pre name group mpre m mpost s ev →
  inv s ∧ ∃ g, heap s !! group = Some (OGroup g)
               ∧ members_at s group = GraphGroup.members g.
Proof.
  intros Hreach. destruct (reaches_inv self _ _ _ _ _ _ _ _ Hreach) as (Hinv & [gi Hgi]).
  split; [done|].
  destruct (inv_mapping s Hinv _ _ _ Hgi) as (og & Hog & _ & Hkg).
  destruct og as [| |g|]; try discriminate. exists g. split; [done|].
  unfold members_at. by rewrite Hog.
Qed.

(** The insertion into a group without members mapping ends the run. *)
Lemma member_body_no_mapping (group : addr) (m : record) (s : state) (t : json)
    (a : addr) (g : GraphGroup.t addr) :
  inv s → heap s !! group = Some (OGroup g) → GraphGroup.members g = None →
  strip_none m !! "@odata.type" = Some t → unrecognized t →
  r s = Some (VObject a) →
  member_body group m s
  = (Raise (TypeError "'NoneType' object does not support item assignment") s, []).
Proof.
  intros Hinv Hog Hms Ht Hun Hr.
  destruct (inv_r s Hinv _ Hr) as (a' & i & [= <-] & Hreg).
  pose proof Hreg as [k Hk]%registered_iff.
  destruct (inv_mapping s Hinv _ _ _ Hk) as (o & Ho & _).
  rewrite (member_body_unrecognized _ _ _ _ Ht Hun).
  by apply (finish_no_mapping _ _ _ a o g).
Qed.

(** ** How a run changes its state when no record has members *)

Lemma step_linked (s s' : state) : step s s' → linked s → linked s'.
Proof.
  intros [k i o s0 Hnone Hk Hi Ho|a i s0 _|group i a s0 Hreg] Hl.
  - assert (Hmono : ∀ j a', registered s0 j a' →
              registered (mkState (heap s0 ++ [o])
                            (mapping_insert k i (length (heap s0)) (sync_data s0)) (r s0))
                         j a').
    { intros j a' [k' Hk']%registered_iff. apply registered_iff. exists k'. simpl.
      rewrite mapping_insert_lookup_other; [done|]. intros [= -> ->].
      rewrite Hnone in Hk'. discriminate. }
    intros ga g. simpl. intros Hg. apply lookup_app_Some in Hg as [Hg|[_ Hg]].
    + destruct (Hl _ _ Hg) as (ms & Hms & Hall). exists ms. split; [done|].
      intros j a' Hj. apply Hmono. eauto.
    + apply list_lookup_singleton_Some in Hg as [_ ->].
      exists ∅. split; [by apply Ho|]. intros j a'. by rewrite lookup_empty.
  - exact Hl.
  - by apply link_linked.
Qed.

Lemma steps_linked (s s' : state) : rtc step s s' → linked s → linked s'.
Proof. induction 1; eauto using step_linked. Qed.

Lemma changes_bind {A B} (P : state → Prop) (m : M A) (Q : state → A → state → Prop)
    (f : A → M B) :
  triple P m Q → changes P m →
  (∀ s0 a, inv s0 → P s0 → changes (λ s1, extends s0 s1 ∧ Q s0 a s1) (f a)) →
  changes P (m ≫= f).
Proof.
  intros Ht Hm Hf s Hinv Hl HP. rewrite final_bind.
  specialize (Ht s Hinv HP). specialize (Hm s Hinv Hl HP). unfold final in Hm.
  destruct (m s) as [[a s'|e s'] ev]; simpl in *; [|done].
  destruct Ht as (Hinv' & Hext & HQ).
  etrans; [exact Hm|]. apply (Hf s a); eauto using steps_linked.
Qed.

Lemma changes_same {A} (P : state → Prop) (m : M A) :
  (∀ s, final (m s) = s) → changes P m.
Proof. intros H s _ _ _. by rewrite H. Qed.

Lemma changes_weaken {A} (P P' : state → Prop) (m : M A) :
  changes P' m → (∀ s, inv s → P s → P' s) → changes P m.
Proof. intros Hm HP s Hinv Hl Hp. apply Hm; auto. Qed.

Lemma changes_for_each {A} (I : state → Prop) (l : list A) (body : A → M unit) :
  (∀ x, x ∈ l → triple I (body x) (λ _ _ s', I s')) →
  (∀ x, x ∈ l → changes I (body x)) →
  changes I (for_each l body).
Proof.
  induction l as [|x l IH]; intros Ht Hc.
  - by apply changes_same.
  - simpl. eapply changes_bind.
    + apply Ht. left.
    + apply Hc. left.
    + intros s0 [] _ _. eapply changes_weaken.
      * apply IH; intros y Hy; [apply Ht|apply Hc]; by right.
      * by intros s _ [_ ?].
Qed.

Lemma changes_register (P : state → Prop) (k : kind) (d : record) :
  d !! "members" = None → changes P (register k d).
Proof.
  intros Hd s _ _ _. unfold final.
  destruct (register k d s) as [[a s'|e s'] ev] eqn:E; simpl.
  - destruct (register_Return_inv _ _ _ _ _ _ E) as (i & Hi & Ha & [(_ & -> & _)|(Hnone & _)]);
      [done|].
    destruct (new_object k d) as [o|e] eqn:Ho;
      [|rewrite (register_invalid _ _ _ _ _ Hi Hnone Ho) in E; discriminate].
    rewrite (register_fresh _ _ _ _ _ Hi Hnone (λ _, Hd) Ho) in E. injection E as <- <- <-.
    destruct (new_object_id _ _ _ Ho) as [Hi' Hk]. rewrite Hi in Hi'. injection Hi' as Hi'.
    apply rtc_once. apply step_store; try done.
    intros g ->. by eapply new_object_members.
  - by destruct (register_Raise_inv _ _ _ _ _ _ E) as (-> & _).
Qed.

Lemma changes_set_r (a : addr) :
  changes (λ s, ∃ i, registered s i a) (set_r a).
Proof. intros s _ _ [i Hi]. apply rtc_once. by apply (step_bind a i). Qed.

Lemma changes_finish (group : addr) (m : record) :
  changes (group_registered group) (finish group m).
Proof.
  intros s Hinv Hl [gi Hgi].
  destruct (r s) as [v|] eqn:Hr.
  - destruct (inv_r s Hinv v Hr) as (a & i & -> & Hreg).
    pose proof Hreg as [k Hk]%registered_iff.
    destruct (inv_mapping s Hinv _ _ _ Hk) as (o & Ho & Hi & _).
    destruct (inv_mapping s Hinv _ _ _ Hgi) as (og & Hog & _ & Hkg).
    destruct og as [| |g|]; try discriminate.
    destruct (Hl _ _ Hog) as (ms & Hms & _).
    rewrite (finish_link _ _ _ _ _ _ _ Hr Ho Hog Hms). subst i.
    apply rtc_once. by apply step_link.
  - by rewrite (finish_unbound _ _ _ Hr).
Qed.

Lemma changes_member_body (group : addr) (m : record) :
  no_members m → changes (group_registered group) (member_body group m).
Proof.
  intros Hm s Hinv Hl HP.
  assert (strip_none m !! "members" = None) as Hm' by by apply strip_none_None.
  rewrite member_body_eq.
  destruct (strip_none m !! "@odata.type") as [t|]; [|done].
  destruct (tag_kind t) as [k|]; [|by apply changes_finish].
  revert s Hinv Hl HP. eapply changes_bind.
  - eapply triple_bind; [by apply triple_register|].
    intros s0 a _ _. eapply triple_conseq; [apply triple_set_r| |].
    + intros s _ (_ & _ & i & Hi). exists i. apply registered_iff. eauto.
    + intros. exact I.
  - eapply changes_bind; [by apply triple_register|by apply changes_register|].
    intros s0 a _ _. eapply changes_weaken; [apply changes_set_r|].
    intros s _ (_ & _ & i & Hi). exists i. apply registered_iff. eauto.
  - intros s0 [] _ [gi Hgi]. eapply changes_weaken; [apply changes_finish|].
    intros s _ [(Hext & _) _]. exists gi. by apply Hext.
Qed.

Lemma changes_members_loop (group : addr) (gms : option (list record)) :
  (∀ ms, gms = Some ms → Forall no_members ms) →
  changes (group_registered group) (members_loop group gms).
Proof.
  intros Hms. destruct gms as [ms|]; simpl; [|by apply changes_same].
  specialize (Hms ms eq_refl). apply changes_for_each.
  - intros m Hm. eapply triple_conseq; [apply triple_member_body| |].
    + done.
    + intros s [] s' _ [gi Hgi] _ (Hext & _) _. exists gi. by apply Hext.
  - intros m Hm. apply changes_member_body. by eapply Forall_forall in Hms.
Qed.

Section Changes.
Variable self : session.
Hypothesis Hself : without_members self.

Lemma changes_open_group (P : state → Prop) (name : string) :
  changes P (open_group self name).
Proof.
  intros s Hinv Hl HP. unfold final.
  destruct (open_group_cases self name s)
    as [(e & -> & _)|[->|(x & gid & Hx & _ & Hid & Hrest)]]; [done|done|].
  assert (Hmx : x !! "members" = None).
  { destruct Hself as [Hnames _]. specialize (Hnames _ _ Hx).
    exact (proj1 (Forall_singleton _ _) Hnames). }
  pose proof (changes_register P Group x Hmx s Hinv Hl HP) as Hreg'. unfold final in Hreg'.
  destruct Hrest as [(st & _ & ->)|(data & _ & [(a & s1 & ev1 & Hreg & ->)
                                               |(e & s1 & ev1 & Hreg & ->)])];
    [done| |]; by rewrite Hreg in Hreg'.
Qed.

Lemma changes_group_body (P : state → Prop) (name : string) :
  changes P (group_body self name).
Proof.
  intros s Hinv Hl HP. unfold group_body. rewrite final_bind.
  pose proof (changes_open_group P name s Hinv Hl HP) as Hopen. unfold final in Hopen.
  pose proof (triple_open_group self P name s Hinv HP) as Ht.
  destruct (open_group self name s) as [[[[group gms]|] s1|e s1] ev1] eqn:E;
    simpl in *; [|done|done].
  destruct Ht as (Hinv1 & _ & Hreg).
  destruct (open_group_Return _ _ _ _ _ _ _ E) as (x & gid & ev' & _ & _ & _ & Hgms & _).
  etrans; [exact Hopen|]. apply changes_members_loop; eauto using steps_linked.
  intros ms ->. destruct Hself as [_ Hmembers]. by eapply Hmembers.
Qed.

Lemma changes_groups_loop (names : list string) :
  changes (λ _, True) (groups_loop self names).
Proof.
  unfold groups_loop. apply changes_for_each.
  - intros name _. apply triple_group_body.
  - intros name _. apply changes_group_body.
Qed.

Lemma final_get_objects_for_sync (names : list string) :
  final (get_objects_for_sync self names) = final (groups_loop self names initial).
Proof.
  unfold get_objects_for_sync. rewrite final_bind. unfold final.
  by destruct (groups_loop self names initial).1.
Qed.

(** Every run gets from the empty state to the state it ends in by steps
    of the three kinds. *)
Lemma get_objects_for_sync_steps (names : list string) :
  rtc step initial (final (get_objects_for_sync self names)).
Proof.
  rewrite final_get_objects_for_sync.
  by apply changes_groups_loop; [apply inv_initial|apply linked_initial|].
Qed.

Lemma get_objects_for_sync_linked (names : list string) :
  linked (final (get_objects_for_sync self names)).
Proof.
  eapply steps_linked; [apply get_objects_for_sync_steps|apply linked_initial].
Qed.

(** The same at every member that the run comes to. *)
Lemma reaches_linked pre name group mpre m mpost s ev :
  reaches self pre name group mpre m mpost s ev →
  linked s ∧ no_members m ∧ ∃ ms, members_at s group = Some ms.
Proof.
  intros (s1 & ev1 & s2 & ev2 & ev3 & H1 & H2 & H3 & _).
  pose proof (triple_groups_loop self pre initial inv_initial I) as Hs1.
  pose proof (changes_groups_loop pre initial inv_initial linked_initial I) as Hc1.
  unfold final in Hc1. rewrite H1 in Hs1, Hc1. destruct Hs1 as (Hinv1 & _). simpl in Hc1.
  pose proof (steps_linked _ _ Hc1 linked_initial) as Hl1.
  pose proof (triple_open_group self (λ _, True) name s1 Hinv1 I) as Hs2.
  pose proof (changes_open_group (λ _, True) name s1 Hinv1 Hl1 I) as Hc2.
  unfold final in Hc2. rewrite H2 in Hs2, Hc2. destruct Hs2 as (Hinv2 & _ & Hreg).
  simpl in Hc2. pose proof (steps_linked _ _ Hc2 Hl1) as Hl2.
  destruct (open_group_Return _ _ _ _ _ _ _ H2) as (x & gid & ev' & _ & _ & _ & Hgms & _).
  destruct Hself as [_ Hmembers]. specialize (Hmembers _ _ Hgms).
  apply Forall_app in Hmembers as [Hpre Hm]. apply Forall_cons in Hm as [Hm _].
  pose proof (triple_members_for_each group mpre s2 Hinv2 Hreg) as Hs3.
  assert (Hall : ∀ ms, Some mpre = Some ms → Forall no_members ms) by by intros ? [= <-].
  pose proof (changes_members_loop group (Some mpre) Hall s2 Hinv2 Hl2 Hreg) as Hc3.
  unfold final in Hc3. simpl in Hc3. rewrite H3 in Hs3, Hc3.
  destruct Hs3 as (Hinv3 & _ & [gi Hgi]). simpl in Hc3.
  pose proof (steps_linked _ _ Hc3 Hl2) as Hl3. split_and!; try done.
  destruct (inv_mapping s Hinv3 _ _ _ Hgi) as (og & Hog & _ & Hkg).
  destruct og as [| |g|]; try discriminate.
  destruct (Hl3 _ _ Hog) as (ms & Hms & _). exists ms. apply members_at_Some. eauto.
Qed.
End Changes.

(** A directory given by two tables answers no record with members when
    the tables hold none. *)
Lemma by_name_no_members (table : list (string * list record)) (name : string)
    (l : list record) :
  Forall (λ kv, Forall no_members kv.2) table →
  Sample.by_name table name = Body (Some l) → Forall no_members l.
Proof.
  intros Htable [= <-]. unfold Sample.by_name.
  destruct (list_to_map (M := gmap string (list record)) table !! name) as [l|] eqn:Hl;
    simpl; [|done].
  apply elem_of_list_to_map_2 in Hl. by eapply Forall_forall in Htable; [|exact Hl].
Qed.

Lemma by_id_no_members (table : list (string * list record)) (gid : json)
    (l : list record) :
  Forall (λ kv, Forall no_members kv.2) table →
  Sample.by_id table gid = Body (Some l) → Forall no_members l.
Proof.
  intros Htable. unfold Sample.by_id. destruct gid; try done. intros [= <-].
  destruct (list_to_map (M := gmap string (list record)) table !! s) as [l|] eqn:Hl;
    simpl; [|done].
  apply elem_of_list_to_map_2 in Hl. by eapply Forall_forall in Htable; [|exact Hl].
Qed.

Lemma tables_without_members (names ids : list (string * list record)) :
  Forall (λ kv, Forall no_members kv.2) names →
  Forall (λ kv, Forall no_members kv.2) ids →
  without_members (mkSession (Sample.by_name names) (Sample.by_id ids)).
Proof.
  intros Hn Hi. split; simpl.
  - intros name l. by apply by_name_no_members.
  - intros gid l. by apply by_id_no_members.
Qed.

(** Decides the premises of [tables_without_members] on a given table. *)
Ltac no_members_table :=
  repeat first [ apply Forall_nil_2 | apply Forall_cons_2 ]; simpl;
  repeat first [ apply Forall_nil_2 | apply Forall_cons_2 ]; unfold no_members; by_vm.

Ltac sample_without_members :=
  apply tables_without_members; no_members_table.

Lemma directory_without_members : without_members Sample.directory.
Proof. sample_without_members. Qed.

(** ** What [r] holds *)

(** The end of the loop body, when it returns, has read a bound [r] and
    has left [r] and the three mappings as they were. *)
Lemma finish_Return (group : addr) (m : record) (s s' : state) (ev : list event) :
  finish group m s = (Return tt s', ev) →
  r s' = r s ∧ is_Some (r s) ∧ ∀ k, mapping k (sync_data s') = mapping k (sync_data s).
Proof.
  unfold finish, get_r, attr_id, members_setitem, errors_append. exec.
  destruct (r s) as [[a|e]|] eqn:Hr; simpl; [| |done].
  - exec. destruct (heap s !! a) as [o|]; simpl; [|done]. exec.
    destruct (heap s !! group) as [[| |g|]|]; simpl; try done.
    destruct (GraphGroup.members g); simpl; [|done].
    intros [= <- <-]. simpl. by split_and!.
  - intros [= <- <-]. simpl. split_and!; [done|done|]. by intros [].
Qed.

Lemma register_Return_mono (k : kind) (d : record) (s s' : state) (a : addr)
    (ev : list event) :
  register k d s = (Return a s', ev) →
  ∀ k' j b, mapping k' (sync_data s) !! j = Some b → mapping k' (sync_data s') !! j = Some b.
Proof.
  intros H. destruct (register_Return_inv _ _ _ _ _ _ H) as (i & Hi & _ & [(_ & -> & _)|(Hn & _)]);
    [done|].
  destruct (new_object k d) as [o|e] eqn:Ho;
    [|rewrite (register_invalid _ _ _ _ _ Hi Hn Ho) in H; discriminate].
  destruct (register_new _ _ s _ _ Hi Hn Ho) as (bs & o' & Hreg & _).
  rewrite Hreg in H. injection H as <- <- <-. simpl. intros k' j b Hb.
  rewrite mapping_insert_lookup_other; [done|]. intros [= -> ->].
  rewrite Hn in Hb. discriminate.
Qed.

Lemma last_registration_snoc (l : list record) (m : record) :
  last_registration (l ++ [m])
  = match registration m with Some x => Some x | None => last_registration l end.
Proof.
  unfold last_registration. rewrite omap_app. simpl.
  destruct (registration m) as [x|]; [by rewrite last_snoc|by rewrite app_nil_r].
Qed.

Lemma registration_Some (m : record) (k : kind) (i : string) :
  strip_none m !! "@odata.type" = Some (JStr (odata_type k)) →
  strip_none m !! "id" = Some (JStr i) →
  registration m = Some (k, i).
Proof.
  intros Ht Hi. unfold registration. rewrite Ht, Hi.
  by rewrite (proj2 (tag_kind_Some _ k) eq_refl).
Qed.

Lemma registration_unrecognized (m : record) (t : json) :
  strip_none m !! "@odata.type" = Some t → unrecognized t → registration m = None.
Proof.
  intros Ht Hun. unfold registration. rewrite Ht, (proj2 (tag_kind_None t) Hun).
  by destruct (strip_none m !! "id") as [[]|].
Qed.

(** One turn of the loop body that returns. *)
Lemma tracks_member_body (group : addr) (m : record) (s s' : state) (ev : list event)
    (l : list record) :
  member_body group m s = (Return tt s', ev) → tracks s l → tracks s' (l ++ [m]).
Proof.
  rewrite member_body_eq. unfold tracks. rewrite last_registration_snoc.
  destruct (strip_none m !! "@odata.type") as [t|] eqn:Ht; [|done].
  destruct (tag_kind t) as [k|] eqn:Hk.
  - apply tag_kind_Some in Hk as ->. rewrite !bind_eq.
    destruct (register k (strip_none m) s) as [[a s1|e s1] ev1] eqn:E; [|done].
    destruct (register_Return_inv _ _ _ _ _ _ E) as (i & Hi & Ha & _). simpl.
    fold (bind_r a s1).
    destruct (finish group (strip_none m) (bind_r a s1)) as [[[] s2|e s2] ev2] eqn:Hf; [|done].
    intros [= <- _] _. apply finish_Return in Hf as (Hr & _ & Hmap).
    rewrite (registration_Some m k i Ht Hi). exists a. by rewrite Hr, Hmap.
  - intros Hf Htr. apply finish_Return in Hf as (Hr & Hsome & Hmap).
    rewrite (registration_unrecognized m t Ht (proj1 (tag_kind_None t) Hk)).
    destruct (last_registration l) as [[k i]|].
    + destruct Htr as (a & Ha & Hi). exists a. by rewrite Hr, Hmap.
    + destruct Htr as [_ Hnone]. rewrite Hnone in Hsome. by destruct Hsome.
Qed.

Lemma tracks_for_each (group : addr) (ms : list record) (s s' : state) (ev : list event)
    (l : list record) :
  for_each ms (member_body group) s = (Return tt s', ev) →
  tracks s l → tracks s' (l ++ ms).
Proof.
  revert s ev l. induction ms as [|m ms IH]; intros s ev l; simpl.
  - intros [= <- <-]. by rewrite app_nil_r.
  - rewrite bind_eq.
    destruct (member_body group m s) as [[[] s1|e s1] ev1] eqn:Hm; [|done].
    destruct (for_each ms (member_body group) s1) as [[[] s2|e s2] ev2] eqn:Hms; [|done].
    intros [= <- <-] Htr. rewrite (assoc_L (++) l [m] ms : l ++ m :: ms = (l ++ [m]) ++ ms).
    eapply IH; [done|]. by eapply tracks_member_body.
Qed.

Section Tracks.
Variable self : session.

Lemma tracks_open_group (name : string) (s s' : state) (ev : list event)
    (group : addr) (gms : option (list record)) (l : list record) :
  open_group self name s = (Return (Some (group, gms)) s', ev) →
  tracks s l → tracks s' l.
Proof.
  intros Hopen. pose proof (open_group_r _ _ _ _ _ _ Hopen) as Hr.
  destruct (open_group_Return _ _ _ _ _ _ _ Hopen) as (x & gid & ev1 & _ & _ & _ & _ & Hreg & _).
  pose proof (register_Return_mono _ _ _ _ _ _ Hreg) as Hmono.
  unfold tracks. destruct (last_registration l) as [[k i]|]; rewrite Hr; [|done].
  intros (a & Ha & Hi). exists a. split; [done|]. by apply Hmono.
Qed.

Lemma tracks_group_body (name : string) (s s' : state) (ev : list event)
    (l : list record) :
  group_body self name s = (Return tt s', ev) →
  tracks s l → tracks s' (l ++ members_for self name).
Proof.
  unfold group_body. rewrite bind_eq.
  destruct (open_group self name s) as [[[[group gms]|] s1|e s1] ev1] eqn:Hopen;
    [| |done].
  - destruct (open_group_Return _ _ _ _ _ _ _ Hopen)
      as (x & gid & ev' & Hx & Hsize & Hid & Hgms & _).
    assert (Hfor : members_for self name = default [] gms).
    { unfold members_for. rewrite Hx, bool_decide_eq_false_2, Hid, Hgms by done.
      by destruct gms. }
    rewrite Hfor. destruct gms as [ms|]; simpl; [|done].
    destruct (for_each ms (member_body group) s1) as [[[] s2|e s2] ev2] eqn:Hms; [|done].
    intros [= <- _] Htr. eapply tracks_for_each; [done|]. by eapply tracks_open_group.
  - apply open_group_None in Hopen as (-> & _ & ->). simpl.
    intros [= <- _]. by rewrite app_nil_r.
Qed.

Lemma tracks_groups_loop (names : list string) (s s' : state) (ev : list event)
    (l : list record) :
  groups_loop self names s = (Return tt s', ev) →
  tracks s l → tracks s' (l ++ (names ≫= members_for self)).
Proof.
  unfold groups_loop. revert s ev l. induction names as [|name names IH]; intros s ev l; simpl.
  - intros [= <- <-]. by rewrite app_nil_r.
  - rewrite bind_eq.
    destruct (group_body self name s) as [[[] s1|e s1] ev1] eqn:Hbody; [|done].
    destruct (for_each names (group_body self) s1) as [[[] s2|e s2] ev2] eqn:Hrest; [|done].
    intros [= <- <-] Htr. rewrite (assoc_L (++)).
    eapply IH; [done|]. by eapply tracks_group_body.
Qed.

Lemma tracks_initial : tracks initial [].
Proof. by split. Qed.

(** At every member the run comes to, [r] is unbound when no member was
    processed before, and else holds the entity stored for the last
    registration that was made. *)
Lemma reaches_tracks pre name group mpre m mpost s ev :
  reaches self pre name group mpre m mpost s ev → tracks s (processed self pre mpre).
Proof.
  intros (s1 & ev1 & s2 & ev2 & ev3 & H1 & H2 & H3 & _). unfold processed.
  eapply tracks_for_each; [done|]. eapply tracks_open_group; [done|].
  apply (tracks_groups_loop pre initial s1 ev1 [] H1 tracks_initial).
Qed.
End Tracks.
(** * The properties of the specification *)

(** ** Entity validation *)

(** C5 -- default activation.  A user or service-principal record that has
    no ['accountEnabled'] entry and whose other required fields validate is
    accepted, and the entity it yields has [active = true]; whatever entity
    such a record validates to is active. *)
Theorem default_activation (d : record) :
  d !! "accountEnabled" = None →
  (∀ i n m,
     required validate_str ["id"] d = inl i →
     required validate_str ["displayName"] d = inl n →
     required validate_str ["mail"; "mailNickname"] d = inl m →
     GraphUser.model_validate d = inl (GraphUser.mk i n m true))
  ∧ (∀ i n app,
       required validate_str ["id"] d = inl i →
       required validate_str ["displayName"] d = inl n →
       required validate_str ["appId"] d = inl app →
       GraphServicePrincipal.model_validate d = inl (GraphServicePrincipal.mk i n app true))
  ∧ (∀ u, GraphUser.model_validate d = inl u → GraphUser.active u = true)
  ∧ (∀ p, GraphServicePrincipal.model_validate d = inl p →
          GraphServicePrincipal.active p = true).
Proof.
  intros Hd. pose proof (optional_absent validate_bool "accountEnabled" true d Hd) as Ha.
  split_and!.
  - intros i n m Hi Hn Hm. by apply user_validate_intro.
  - intros i n app Hi Hn Happ. by apply service_principal_validate_intro.
  - intros u (_ & _ & _ & Hu)%user_validate_inv. congruence.
  - intros p (_ & _ & _ & Hp)%service_principal_validate_inv. congruence.
Qed.

Lemma default_activation_witness :
  GraphUser.model_validate Sample.dan
  = inl (GraphUser.mk "u4" "Dan" "dan@example.org" true).
Proof.
  apply (default_activation Sample.dan); by_vm.
Defined.

(** C10 -- a null activation flag.  When the run has come to a member whose
    ['accountEnabled'] is present with the value [None], the stripped record
    has no such entry, and the stripped record is what the loop body
    validates: for a user, and likewise for a service principal, whose id
    is not registered yet and whose other required fields validate, the
    body validates the stripped record, once, and stores under the id a
    new entity with [active = true], which it puts into the current group
    when that group has a members mapping.  Whatever entity the stripped
    record validates to is active, while the record as it came, with the
    null flag, is rejected by both models. *)
Theorem null_activation (self : session) (pre : list string) (name : string)
    (group : addr) (mpre mpost : list record) (m : record) (s : state) (ev : list event) :
  reaches self pre name group mpre m mpost s ev →
  m !! "accountEnabled" = Some JNull →
  strip_none m !! "accountEnabled" = None
  ∧ (∀ i n ml,
       strip_none m !! "@odata.type" = Some (JStr (odata_type User)) →
       strip_none m !! "id" = Some (JStr i) →
       required validate_str ["displayName"] (strip_none m) = inl n →
       required validate_str ["mail"; "mailNickname"] (strip_none m) = inl ml →
       users (sync_data s) !! i = None →
       (member_body group m s).2 = [Validate User (strip_none m)]
       ∧ users (sync_data (final (member_body group m s))) !! i = Some (length (heap s))
       ∧ heap (final (member_body group m s)) !! length (heap s)
         = Some (OUser (GraphUser.mk i n ml true))
       ∧ ∀ ms, members_at s group = Some ms →
           member_body group m s
           = (Return tt (link group i (length (heap s))
                           (store User i (OUser (GraphUser.mk i n ml true)) s)),
              [Validate User (strip_none m)])
           ∧ members_at (final (member_body group m s)) group
             = Some (<[i := length (heap s)]> ms))
  ∧ (∀ i n app,
       strip_none m !! "@odata.type" = Some (JStr (odata_type ServicePrincipal)) →
       strip_none m !! "id" = Some (JStr i) →
       required validate_str ["displayName"] (strip_none m) = inl n →
       required validate_str ["appId"] (strip_none m) = inl app →
       service_principals (sync_data s) !! i = None →
       (member_body group m s).2 = [Validate ServicePrincipal (strip_none m)]
       ∧ service_principals (sync_data (final (member_body group m s))) !! i
         = Some (length (heap s))
       ∧ heap (final (member_body group m s)) !! length (heap s)
         = Some (OServicePrincipal (GraphServicePrincipal.mk i n app true))
       ∧ ∀ ms, members_at s group = Some ms →
           member_body group m s
           = (Return tt (link group i (length (heap s))
                           (store ServicePrincipal i
                              (OServicePrincipal (GraphServicePrincipal.mk i n app true)) s)),
              [Validate ServicePrincipal (strip_none m)])
           ∧ members_at (final (member_body group m s)) group
             = Some (<[i := length (heap s)]> ms))
  ∧ (∀ u, GraphUser.model_validate (strip_none m) = inl u → GraphUser.active u = true)
  ∧ (∀ p, GraphServicePrincipal.model_validate (strip_none m) = inl p →
          GraphServicePrincipal.active p = true)
  ∧ (∃ e, GraphUser.model_validate m = inr e)
  ∧ (∃ e, GraphServicePrincipal.model_validate m = inr e).
Proof.
  intros Hreach Hm. assert (Hs : strip_none m !! "accountEnabled" = None).
  { by rewrite strip_none_lookup, Hm. }
  pose proof (optional_absent validate_bool "accountEnabled" true _ Hs) as Ha.
  destruct (reaches_group self _ _ _ _ _ _ _ _ Hreach) as (Hinv & g & Hog & Hat).
  assert (Hlinked : ∀ k i o ms,
            members_at s group = Some ms →
            member_body group m s
            = (Return tt (link group i (length (heap s)) (store k i o s)),
               [Validate k (strip_none m)]) →
            members_at (final (member_body group m s)) group
            = Some (<[i := length (heap s)]> ms)).
  { intros k i o ms Hms ->. unfold final. simpl.
    rewrite members_at_link, decide_True by done. unfold store.
    by rewrite (members_at_app s [o] _ _ group ms Hms). }
  split_and!.
  - done.
  - intros i n ml Ht Hid Hn Hml Hnone.
    assert (Ho : new_object User (strip_none m) = inl (OUser (GraphUser.mk i n ml true))).
    { simpl. by rewrite (user_validate_intro _ i n ml true (proj2 (required_id _ _) Hid) Hn Hml Ha). }
    destruct (member_body_registers group m s User i _ (ex_intro _ _ Hog)
                ltac:(done) Ht Hid Hnone Ho) as (H1 & H2 & H3 & _).
    split_and!; try done. intros ms Hms.
    pose proof (member_body_fresh group m s User i _ ms Hms ltac:(done) Ht Hid Hnone Ho).
    eauto.
  - intros i n app Ht Hid Hn Happ Hnone.
    assert (Ho : new_object ServicePrincipal (strip_none m)
                 = inl (OServicePrincipal (GraphServicePrincipal.mk i n app true))).
    { simpl. by rewrite (service_principal_validate_intro _ i n app true
                           (proj2 (required_id _ _) Hid) Hn Happ Ha). }
    destruct (member_body_registers group m s ServicePrincipal i _ (ex_intro _ _ Hog)
                ltac:(done) Ht Hid Hnone Ho) as (H1 & H2 & H3 & _).
    split_and!; try done. intros ms Hms.
    pose proof (member_body_fresh group m s ServicePrincipal i _ ms Hms ltac:(done)
                  Ht Hid Hnone Ho).
    eauto.
  - intros u (_ & _ & _ & Hu)%user_validate_inv. congruence.
  - intros p (_ & _ & _ & Hp)%service_principal_validate_inv. congruence.
  - destruct (GraphUser.model_validate m) as [u|e] eqn:Hu; [|eauto].
    apply user_validate_inv in Hu as (_ & _ & _ & Hu).
    unfold optional, alias_choices in Hu. by rewrite Hm in Hu.
  - destruct (GraphServicePrincipal.model_validate m) as [p|e] eqn:Hp; [|eauto].
    apply service_principal_validate_inv in Hp as (_ & _ & _ & Hp).
    unfold optional, alias_choices in Hp. by rewrite Hm in Hp.
Qed.

Lemma null_activation_witness :
  (member_body 0 Sample.bob (position Sample.directory [] "Staff" 0 [Sample.ann]).1).2
  = [Validate User (strip_none Sample.bob)]
  ∧ heap (final (member_body 0 Sample.bob
                   (position Sample.directory [] "Staff" 0 [Sample.ann]).1)) !! 2
    = Some (OUser (GraphUser.mk "u2" "Bob" "bob" true))
  ∧ ∃ e, GraphUser.model_validate Sample.bob = inr e.
Proof.
  destruct (null_activation Sample.directory [] "Staff" 0 [Sample.ann]
              [Sample.app; Sample.group "g2" "Ops"] Sample.bob
              (position Sample.directory [] "Staff" 0 [Sample.ann]).1
              (position Sample.directory [] "Staff" 0 [Sample.ann]).2)
    as (_ & H & _ & _ & _ & Hraw & _).
  - apply reaches_position; by_vm.
  - by_vm.
  - destruct (H "u2" "Bob" "bob") as (H1 & _ & H3 & _); [by_vm..|].
    assert (Hlen : length (heap (position Sample.directory [] "Staff" 0 [Sample.ann]).1) = 2)
      by by_vm.
    rewrite Hlen in H3. split; [exact H1|]. split; [exact H3|exact Hraw].
Defined.




(** ** Registration *)

(** C2 -- idempotent registration.  For each kind [k] ([_register_user],
    [_register_service_principal] and [_register_group] are [register User],
    [register ServicePrincipal] and [register Group]): when a first call
    with [d1] returns the object [a], that object is stored in the mapping
    of [k] under the ['id'] of [d1].  If the id was no key before the call,
    the call validated [d1], once, and [a] is a new object, the entity that
    [d1] validates to; if it was a key, [a] is the object that was stored
    under it, and nothing was validated or changed.  A second call with any
    record [d2] that has the same ['id'] returns the same object [a],
    changes nothing and validates nothing, right after the first call and
    in every later state of the run. *)
Theorem idempotent_registration (k : kind) (d1 d2 : record) (s s1 : state) (a : addr)
    (ev1 : list event) :
  d1 !! "id" = d2 !! "id" →
  register k d1 s = (Return a s1, ev1) →
  ∃ i,
    d1 !! "id" = Some (JStr i)
    ∧ mapping k (sync_data s1) !! i = Some a
    ∧ match mapping k (sync_data s) !! i with
      | Some a0 => a0 = a ∧ s1 = s ∧ ev1 = []
      | None =>
          ev1 = [Validate k d1] ∧ heap s !! a = None
          ∧ ∃ o, heap s1 !! a = Some o ∧ entity_of k d1 o ∧ object_id o = i
      end
    ∧ (inv s → ∃ o, heap s1 !! a = Some o ∧ object_id o = i ∧ kind_of o = Some k)
    ∧ register k d2 s1 = (Return a s1, [])
    ∧ (∀ s2, extends s1 s2 → register k d2 s2 = (Return a s2, [])).
Proof.
  intros Hid H1.
  destruct (register_Return_inv _ _ _ _ _ _ H1) as (i & Hi & Ha & Hev).
  rewrite Hi in Hid. exists i. split_and!; try done.
  - destruct Hev as [(Hs & -> & ->)|(Hnone & ->)]; [by rewrite Hs|]. rewrite Hnone.
    destruct (new_object k d1) as [o|e] eqn:Ho;
      [|rewrite (register_invalid _ _ _ _ _ Hi Hnone Ho) in H1; discriminate].
    destruct (register_new _ _ s _ _ Hi Hnone Ho) as (bs & o' & Hreg & Hi' & _ & He & _).
    rewrite Hreg in H1. injection H1 as <- <-. split_and!; [done| |].
    + apply lookup_ge_None_2. lia.
    + exists o'. split_and!; try done. simpl.
      rewrite (assoc_L (++)). apply list_lookup_middle. by rewrite length_app, length_fmap.
  - intros Hinv. destruct Hev as [(Hs & -> & _)|(Hnone & _)].
    + destruct (inv_mapping s Hinv _ _ _ Hs) as (o & ? & ? & ?). eauto.
    + pose proof (triple_register (λ _, True) k d1 s Hinv I) as Ht. rewrite H1 in Ht.
      destruct Ht as (Hinv1 & _). destruct (inv_mapping s1 Hinv1 _ _ _ Ha) as (o & ? & ? & ?).
      eauto.
  - by apply (register_cached k d2 s1 i a).
  - intros s2 (Hext & _). apply (register_cached k d2 s2 i a); [done|]. by apply Hext.
Qed.

Lemma idempotent_registration_witness :
  users (sync_data (final (register User (strip_none Sample.bob) initial))) !! "u2" = Some 0
  ∧ heap (final (register User (strip_none Sample.bob) initial)) !! 0
    = Some (OUser (GraphUser.mk "u2" "Bob" "bob" true))
  ∧ register User (strip_none Sample.malformed_user)
             (final (register User (strip_none Sample.bob) initial))
    = (Return 0 (final (register User (strip_none Sample.bob) initial)), []).
Proof.
  destruct (idempotent_registration User (strip_none Sample.bob)
              (strip_none Sample.malformed_user) initial
              (final (register User (strip_none Sample.bob) initial)) 0
              [Validate User (strip_none Sample.bob)])
    as (i & Hi & Ha & Hnew & _ & H & _); [by_vm..|].
  assert (Hi' : strip_none Sample.bob !! "id" = Some (JStr "u2")) by by_vm.
  pose proof (eq_trans (eq_sym Hi) Hi') as Heq. injection Heq as ->.
  split; [exact Ha|]. split; [|exact H].
  simpl in Hnew. destruct Hnew as (_ & _ & o & Ho & (u & Hu & ->) & _).
  assert (Hu' : GraphUser.model_validate (strip_none Sample.bob)
                = inl (GraphUser.mk "u2" "Bob" "bob" true)) by by_vm.
  pose proof (eq_trans (eq_sym Hu) Hu') as Heq. injection Heq as ->. exact Ho.
Defined.

(** ** Names that do not resolve *)

(** C3 -- the soft skip.  When the lookup of [name] yields no group or more
    than one, the loop body for [name] returns at once with the state as it
    was: nothing is added to the groups, users, service principals or
    errors, and the only request made is the lookup.  The run goes on with
    the next name: its outcome, result and final state are those of the run
    without [name]. *)
Theorem unresolved_name_skipped (self : session) (name : string) (found : list record) :
  groups_by_name self name = Body (Some found) →
  List.length found ≠ 1 →
  (∀ s, group_body self name s = (Return tt s, [Lookup name]))
  ∧ (∀ pre post,
       (get_objects_for_sync self (pre ++ name :: post)).1
       = (get_objects_for_sync self (pre ++ post)).1)
  ∧ (∀ rest,
       get_objects_for_sync self (name :: rest)
       = ((get_objects_for_sync self rest).1,
          Lookup name :: (get_objects_for_sync self rest).2)).
Proof.
  intros Hname Hlen.
  assert (Hbody : ∀ s, group_body self name s = (Return tt s, [Lookup name])).
  { intros s. unfold group_body, open_group.
    rewrite !bind_eq, get_group_by_name_eq, Hname.
    by destruct found as [|x [|y l]]. }
  split_and!; [done| |].
  - intros pre post. apply get_objects_for_sync_outcome. unfold groups_loop.
    by apply (for_each_skip _ _ _ _ [Lookup name]).
  - intros rest. unfold get_objects_for_sync, groups_loop. simpl.
    rewrite !bind_eq, Hbody. simpl.
    destruct (for_each rest (group_body self) initial) as [[[] s|e s] ev]; simpl; [|done].
    by rewrite !app_nil_r.
Qed.

Lemma unresolved_name_skipped_witness :
  (get_objects_for_sync Sample.directory ["Nobody"; "Ops"]).1
  = (get_objects_for_sync Sample.directory ["Ops"]).1
  ∧ (get_objects_for_sync Sample.directory ["Staff"; "Twins"; "Ops"]).1
    = (get_objects_for_sync Sample.directory ["Staff"; "Ops"]).1.
Proof.
  split.
  - destruct (unresolved_name_skipped Sample.directory "Nobody" []) as (_ & H & _);
      [by_vm|simpl; lia|]. exact (H [] ["Ops"]).
  - destruct (unresolved_name_skipped Sample.directory "Twins"
                [Sample.group "g3" "Twins"; Sample.group "g4" "Twins"]) as (_ & H & _);
      [by_vm|simpl; lia|]. exact (H ["Staff"] ["Ops"]).
Defined.

(** ** Group linkage *)

(** C6, as stated, fails: the code hands the answer of the directory on as
    it comes, and a group record that comes with a ['members'] entry of its
    own is validated with it.  Here the lookup of "Staff" answers the group
    with a member "u9"; the run returns, the group has "u9" among the keys
    of its members, and "u9" is a key of none of the three mappings.  The
    same happens when the record of a group that is a member of "Staff"
    comes with a member "u9". *)
Lemma group_linkage_counterexample :
  (∃ sd s ev ms,
     get_objects_for_sync Sample.directory_with_members ["Staff"] = (Return sd s, ev)
     ∧ groups sd !! "g1" = Some 1
     ∧ members_at s 1 = Some ms
     ∧ ms !! "u9" = Some 0
     ∧ users sd !! "u9" = None ∧ service_principals sd !! "u9" = None
     ∧ groups sd !! "u9" = None)
  ∧ (∃ sd s ev ms,
       get_objects_for_sync Sample.directory_nested_members ["Staff"] = (Return sd s, ev)
       ∧ groups sd !! "g2" = Some 2
       ∧ members_at s 2 = Some ms
       ∧ ms !! "u9" = Some 1
       ∧ users sd !! "u9" = None ∧ service_principals sd !! "u9" = None
       ∧ groups sd !! "u9" = None).
Proof.
  split.
  - exists (sync_data (final (get_objects_for_sync Sample.directory_with_members ["Staff"]))),
      (final (get_objects_for_sync Sample.directory_with_members ["Staff"])),
      (get_objects_for_sync Sample.directory_with_members ["Staff"]).2,
      {["u9" := 0; "u1" := 2]}.
    split_and!; by_vm.
  - exists (sync_data (final (get_objects_for_sync Sample.directory_nested_members ["Staff"]))),
      (final (get_objects_for_sync Sample.directory_nested_members ["Staff"])),
      (get_objects_for_sync Sample.directory_nested_members ["Staff"]).2,
      {["u9" := 1]}.
    split_and!; by_vm.
Qed.

(** C6, amended -- group linkage.  When no record that the directory
    answers has a ['members'] entry, then in the result of a run that
    returns every group of the groups mapping is a group object whose
    members mapping holds, under each key, an object that one of the three
    mappings of the same result holds under the same key: the same
    address, hence the very same object, whose [id] is the key.  The same
    is true of every group object of the heap. *)
Theorem group_linkage (self : session) (group_names : list string)
    (sd : GraphSyncObject) (s : state) (ev : list event) :
  without_members self →
  get_objects_for_sync self group_names = (Return sd s, ev) →
  sd = sync_data s
  ∧ (∀ gid ga, groups sd !! gid = Some ga →
       ∃ g ms, heap s !! ga = Some (OGroup g) ∧ GraphGroup.id g = gid
               ∧ GraphGroup.members g = Some ms
               ∧ ∀ i a, ms !! i = Some a →
                   (users sd !! i = Some a ∨ service_principals sd !! i = Some a
                    ∨ groups sd !! i = Some a)
                   ∧ ∃ o, heap s !! a = Some o ∧ object_id o = i)
  ∧ (∀ ga g ms i a, heap s !! ga = Some (OGroup g) → GraphGroup.members g = Some ms →
       ms !! i = Some a →
       users sd !! i = Some a ∨ service_principals sd !! i = Some a
       ∨ groups sd !! i = Some a).
Proof.
  intros Hself Hrun. pose proof (get_objects_for_sync_inv self group_names) as H.
  pose proof (get_objects_for_sync_linked self Hself group_names) as Hl.
  unfold final in Hl. rewrite Hrun in H, Hl. simpl in H, Hl. destruct H as [Hinv ->].
  assert (Hall : ∀ ga g ms i a, heap s !! ga = Some (OGroup g) →
            GraphGroup.members g = Some ms → ms !! i = Some a → registered s i a).
  { intros ga g ms i a Hg Hms Hi.
    destruct (Hl _ _ Hg) as (ms' & Hms' & Hreg).
    rewrite Hms in Hms'. injection Hms' as <-. by apply Hreg. }
  split_and!; [done| |exact Hall].
  intros gid ga Hga.
  destruct (inv_mapping s Hinv Group _ _ Hga) as (o & Ho & Hid & Hk).
  destruct o as [| |g|]; try discriminate.
  destruct (Hl _ _ Ho) as (ms & Hms & Hreg).
  exists g, ms. split_and!; try done.
  intros i a Hi. split; [by apply (Hall ga g ms)|].
  destruct (proj1 (registered_iff s i a) (Hreg _ _ Hi)) as [k Hk'].
  destruct (inv_mapping s Hinv _ _ _ Hk') as (o & ? & ? & _). eauto.
Qed.

Lemma group_linkage_witness :
  ∃ g ms, heap (final Sample.staff_and_ops) !! 0 = Some (OGroup g)
          ∧ GraphGroup.id g = "g1" ∧ GraphGroup.members g = Some ms
          ∧ ∀ i a, ms !! i = Some a →
              (users (sync_data (final Sample.staff_and_ops)) !! i = Some a
               ∨ service_principals (sync_data (final Sample.staff_and_ops)) !! i = Some a
               ∨ groups (sync_data (final Sample.staff_and_ops)) !! i = Some a)
              ∧ ∃ o, heap (final Sample.staff_and_ops) !! a = Some o ∧ object_id o = i.
Proof.
  destruct (group_linkage Sample.directory ["Staff"; "Ops"]
              (sync_data (final Sample.staff_and_ops)) (final Sample.staff_and_ops)
              Sample.staff_and_ops.2) as (_ & H & _);
    [apply directory_without_members|by_vm|].
  apply (H "g1" 0). by_vm.
Defined.

(** ** Exceptions that leave the run *)

(** C9 -- a missing key aborts the run.  When the run has come to a member
    whose stripped record has no ['@odata.type'], or has a type tag that is
    one of the three recognized ones and no ['id'], the whole run ends there
    with a [KeyError] for that key: the members and groups that follow are
    not visited, the state is as it was before the member, and the error
    list is empty. *)
Theorem missing_key_aborts (self : session) (pre post : list string) (name : string)
    (group : addr) (mpre mpost : list record) (m : record) (s : state) (ev : list event) :
  reaches self pre name group mpre m mpost s ev →
  (strip_none m !! "@odata.type" = None →
     get_objects_for_sync self (pre ++ name :: post)
     = (Raise (KeyError (JStr "@odata.type")) s, ev)
     ∧ errors (sync_data s) = [])
  ∧ (∀ k, strip_none m !! "@odata.type" = Some (JStr (odata_type k)) →
          strip_none m !! "id" = None →
          get_objects_for_sync self (pre ++ name :: post)
          = (Raise (KeyError (JStr "id")) s, ev)
          ∧ errors (sync_data s) = []).
Proof.
  intros Hreach. destruct (reaches_inv self _ _ _ _ _ _ _ _ Hreach) as (Hinv & _).
  split.
  - intros Ht. split; [|by apply inv_errors].
    rewrite <- (app_nil_r ev). eapply reaches_Raise; [done|]. by apply member_body_no_tag.
  - intros k Ht Hid. split; [|by apply inv_errors].
    rewrite <- (app_nil_r ev). eapply reaches_Raise; [done|]. by eapply member_body_no_id.
Qed.

Lemma missing_key_aborts_witness :
  (get_objects_for_sync Sample.directory_untyped ["Staff"; "Ops"]
   = (Raise (KeyError (JStr "@odata.type"))
            (position Sample.directory_untyped [] "Staff" 0 [Sample.ann]).1,
      (position Sample.directory_untyped [] "Staff" 0 [Sample.ann]).2)
   ∧ errors (sync_data (position Sample.directory_untyped [] "Staff" 0 [Sample.ann]).1) = [])
  ∧ (get_objects_for_sync Sample.directory_untyped ["Ops"; "Staff"]
     = (Raise (KeyError (JStr "id"))
              (position Sample.directory_untyped [] "Ops" 0 [Sample.ann]).1,
        (position Sample.directory_untyped [] "Ops" 0 [Sample.ann]).2)
     ∧ errors (sync_data (position Sample.directory_untyped [] "Ops" 0 [Sample.ann]).1) = []).
Proof.
  split.
  - destruct (missing_key_aborts Sample.directory_untyped [] ["Ops"] "Staff" 0
                [Sample.ann] [] Sample.untyped
                (position Sample.directory_untyped [] "Staff" 0 [Sample.ann]).1
                (position Sample.directory_untyped [] "Staff" 0 [Sample.ann]).2) as [H _].
    + apply reaches_position; by_vm.
    + apply H. by_vm.
  - destruct (missing_key_aborts Sample.directory_untyped [] ["Staff"] "Ops" 0
                [Sample.ann] [] Sample.anonymous
                (position Sample.directory_untyped [] "Ops" 0 [Sample.ann]).1
                (position Sample.directory_untyped [] "Ops" 0 [Sample.ann]).2) as [_ H].
    + apply reaches_position; by_vm.
    + apply (H User); by_vm.
Defined.

(** C8, as stated, fails: an entity registered earlier is not always
    inserted into the current group.  The code hands a group record on as
    the directory answers it, and a record with a null ['members'] gives a
    group object without members mapping.  Here "Staff" holds the user u1,
    and the lookup of "Ops" answers the group g2 with a null ['members'];
    the only member of "Ops" is a device.  When the run comes to it, [r]
    holds u1, registered in the earlier group, and the insertion into g2
    raises a [TypeError] that ends the run. *)
Lemma unrecognized_tag_reuses_r_counterexample :
  get_objects_for_sync Sample.directory_null_members ["Staff"; "Ops"]
  = (Raise (TypeError "'NoneType' object does not support item assignment")
           (position Sample.directory_null_members ["Staff"] "Ops" 2 []).1,
     (position Sample.directory_null_members ["Staff"] "Ops" 2 []).2)
  ∧ r (position Sample.directory_null_members ["Staff"] "Ops" 2 []).1 = Some (VObject 1)
  ∧ users (sync_data (position Sample.directory_null_members ["Staff"] "Ops" 2 []).1) !! "u1"
    = Some 1
  ∧ heap (position Sample.directory_null_members ["Staff"] "Ops" 2 []).1 !! 2
    = Some (OGroup (GraphGroup.mk "g2" "Ops" None)).
Proof. split_and!; by_vm. Qed.

(** C8, amended -- an unrecognized type tag reuses [r].  When the run has
    come to a member whose type tag is none of the three the loop tests
    for, no registration routine is called and [r] is read as the members
    processed before, in this group and in the groups before it, have left
    it.  [r] is unbound exactly when no member was processed before, and
    then the run ends with [UnboundLocalError], a [NameError].  Otherwise
    [r] holds the entity stored for the last registration made, that of the
    last member processed that had a recognized tag, possibly a member of
    an earlier group.  When the current group has a members mapping, the
    body returns after putting that entity into it under the entity's own
    id, and nothing else changes; when it has none, which is so when its
    own record came with a null ['members'], the insertion raises a
    [TypeError] that ends the run. *)
Theorem unrecognized_tag_reuses_r (self : session) (pre post : list string) (name : string)
    (group : addr) (mpre mpost : list record) (m : record) (s : state) (ev : list event)
    (t : json) :
  reaches self pre name group mpre m mpost s ev →
  strip_none m !! "@odata.type" = Some t →
  unrecognized t →
  (processed self pre mpre = [] ↔ r s = None)
  ∧ match last_registration (processed self pre mpre) with
    | None =>
        r s = None
        ∧ get_objects_for_sync self (pre ++ name :: post)
          = (Raise (UnboundLocalError "r") s, ev)
        ∧ is_NameError (UnboundLocalError "r") = true
    | Some (k, i) =>
        ∃ a o,
          r s = Some (VObject a) ∧ mapping k (sync_data s) !! i = Some a
          ∧ heap s !! a = Some o ∧ object_id o = i ∧ kind_of o = Some k
          ∧ match members_at s group with
            | Some ms =>
                member_body group m s = (Return tt (link group i a s), [])
                ∧ members_at (link group i a s) group = Some (<[i := a]> ms)
                ∧ sync_data (link group i a s) = sync_data s
                ∧ r (link group i a s) = r s
            | None =>
                get_objects_for_sync self (pre ++ name :: post)
                = (Raise (TypeError "'NoneType' object does not support item assignment")
                         s, ev)
            end
    end.
Proof.
  intros Hreach Ht Hun.
  destruct (reaches_group self _ _ _ _ _ _ _ _ Hreach) as (Hinv & g & Hog & Hat).
  pose proof (reaches_tracks self _ _ _ _ _ _ _ _ Hreach) as Htr. unfold tracks in Htr.
  destruct (last_registration (processed self pre mpre)) as [[k i]|] eqn:Hlast.
  - destruct Htr as (a & Hr & Ha).
    destruct (inv_mapping s Hinv _ _ _ Ha) as (o & Ho & Hi & Hk).
    split.
    { rewrite Hr. split; [|done]. intros Hnil. by rewrite Hnil in Hlast. }
    exists a, o. split_and!; try done. rewrite Hat.
    destruct (GraphGroup.members g) as [ms|] eqn:Hms.
    + split_and!.
      * rewrite (member_body_unrecognized _ _ _ _ Ht Hun), <- Hi.
        by apply (finish_link _ _ _ _ _ g ms).
      * rewrite members_at_link, decide_True by done. by rewrite Hat.
      * apply link_mapping.
      * apply link_mapping.
    + rewrite <- (app_nil_r ev). eapply reaches_Raise; [done|].
      by eapply member_body_no_mapping.
  - destruct Htr as [Hnil Hr]. split; [done|]. split_and!; try done.
    rewrite <- (app_nil_r ev). eapply reaches_Raise; [done|].
    rewrite (member_body_unrecognized _ _ _ _ Ht Hun). by apply finish_unbound.
Qed.

Lemma unrecognized_tag_reuses_r_witness :
  get_objects_for_sync Sample.directory_device_first ["Ops"]
  = (Raise (UnboundLocalError "r")
           (position Sample.directory_device_first [] "Ops" 0 []).1,
     (position Sample.directory_device_first [] "Ops" 0 []).2)
  ∧ member_body 2 (Sample.device "d1" "Laptop")
      (position Sample.directory_stale ["Staff"] "Ops" 2 []).1
    = (Return tt (link 2 "u1" 1 (position Sample.directory_stale ["Staff"] "Ops" 2 []).1), [])
  ∧ members_at (link 2 "u1" 1 (position Sample.directory_stale ["Staff"] "Ops" 2 []).1) 2
    = Some {["u1" := 1]}.
Proof.
  split.
  - destruct (unrecognized_tag_reuses_r Sample.directory_device_first [] [] "Ops" 0
                [] [Sample.ann] (Sample.device "d1" "Laptop")
                (position Sample.directory_device_first [] "Ops" 0 []).1
                (position Sample.directory_device_first [] "Ops" 0 []).2
                (JStr "#microsoft.graph.device")) as [_ H].
    + apply reaches_position; by_vm.
    + by_vm.
    + intros []; by_vm.
    + assert (Hl : last_registration (processed Sample.directory_device_first [] []) = None)
        by by_vm.
      rewrite Hl in H. by destruct H as (_ & H & _).
  - destruct (unrecognized_tag_reuses_r Sample.directory_stale ["Staff"] [] "Ops" 2
                [] [] (Sample.device "d1" "Laptop")
                (position Sample.directory_stale ["Staff"] "Ops" 2 []).1
                (position Sample.directory_stale ["Staff"] "Ops" 2 []).2
                (JStr "#microsoft.graph.device")) as [_ H].
    + apply reaches_position; by_vm.
    + by_vm.
    + intros []; by_vm.
    + assert (Hl : last_registration (processed Sample.directory_stale ["Staff"] [])
                   = Some (User, "u1")) by by_vm.
      rewrite Hl in H. destruct H as (a & o & Hr & _ & _ & _ & _ & H).
      assert (Hr' : r (position Sample.directory_stale ["Staff"] "Ops" 2 []).1
                    = Some (VObject 1)) by by_vm.
      pose proof (eq_trans (eq_sym Hr) Hr') as Heq. injection Heq as ->.
      assert (Hms : members_at (position Sample.directory_stale ["Staff"] "Ops" 2 []).1 2
                    = Some ∅) by by_vm.
      rewrite Hms in H. destruct H as (Hbody & Hat' & _).
      split; [exact Hbody|exact Hat'].
Defined.

(** C1 -- error isolation, on the group of three members whose second
    member fails validation.  The run does not return a result with two
    members and one error: it ends at the second member with the
    [ValidationError], the third member is never visited, the group holds
    the first member only, and the error list is empty. *)
Theorem error_isolation_aborts :
  get_objects_for_sync Sample.directory_malformed ["Staff"]
  = (Raise (ValidationError "GraphUser"
              [FieldError missing ["displayName"]; FieldError missing ["mail"]])
           (position Sample.directory_malformed [] "Staff" 0 [Sample.ann]).1,
     (position Sample.directory_malformed [] "Staff" 0 [Sample.ann]).2
     ++ [Validate User (strip_none Sample.malformed_user)])
  ∧ errors (sync_data (position Sample.directory_malformed [] "Staff" 0 [Sample.ann]).1) = []
  ∧ members_at (position Sample.directory_malformed [] "Staff" 0 [Sample.ann]).1 0
    = Some {["u1" := 1]}
  ∧ users (sync_data (position Sample.directory_malformed [] "Staff" 0 [Sample.ann]).1) !! "u3"
    = None.
Proof.
  split_and!; [|by_vm..].
  apply (validation_error_escapes Sample.directory_malformed [] [] "Staff" 0
           [Sample.ann] [Sample.cid] Sample.malformed_user _ _ User "u2").
  - apply reaches_position; by_vm.
  - by_vm.
  - by_vm.
  - by_vm.
  - by_vm.
Qed.

(** ** No recursion into nested groups *)

(** C7, as stated, fails: a group that appears as a member of another group
    does not always have an empty members mapping, and its members are not
    never fetched.  In the run over "Staff" and "Ops", the group "Ops"
    (g2) is a member of "Staff" and is also a given name: the members of
    g2 are fetched, and the one group object g2 ends with the member u1.
    And when the record of the member g2 comes with a member "u9" of its
    own, g2 is registered with that member, although nothing is fetched
    for it. *)
Lemma nested_groups_not_expanded_counterexample :
  (∃ sd s ev,
     Sample.staff_and_ops = (Return sd s, ev)
     ∧ Sample.group "g2" "Ops" ∈ members_for Sample.directory "Staff"
     ∧ groups sd !! "g2" = Some 4
     ∧ members_at s 4 = Some {["u1" := 1]}
     ∧ Fetch (JStr "g2") ∈ ev)
  ∧ (∃ sd s ev,
       get_objects_for_sync Sample.directory_nested_members ["Staff"] = (Return sd s, ev)
       ∧ groups sd !! "g1" = Some 0
       ∧ members_at s 0 = Some {["g2" := 2]}
       ∧ groups sd !! "g2" = Some 2
       ∧ members_at s 2 = Some {["u9" := 1]}
       ∧ List.filter is_fetch ev = [Fetch (JStr "g1")]).
Proof.
  split.
  - exists (sync_data (final Sample.staff_and_ops)), (final Sample.staff_and_ops),
      Sample.staff_and_ops.2.
    split_and!; try by_vm.
    + assert (Hms : members_for Sample.directory "Staff"
                    = [Sample.ann; Sample.bob; Sample.app; Sample.group "g2" "Ops"]) by by_vm.
      rewrite Hms. do 3 apply list_elem_of_further. apply list_elem_of_here.
    + assert (Hev : ∃ ev1 ev2, Sample.staff_and_ops.2 = ev1 ++ Fetch (JStr "g2") :: ev2).
      { exists (take 8 Sample.staff_and_ops.2), (drop 9 Sample.staff_and_ops.2). by_vm. }
      destruct Hev as (ev1 & ev2 & ->). apply elem_of_app. right. apply list_elem_of_here.
  - exists (sync_data (final (get_objects_for_sync Sample.directory_nested_members ["Staff"]))),
      (final (get_objects_for_sync Sample.directory_nested_members ["Staff"])),
      (get_objects_for_sync Sample.directory_nested_members ["Staff"]).2.
    split_and!; by_vm.
Qed.

(** C7, amended -- no recursion, and termination.  The loop body makes no
    request to the directory, whatever the member is.  A run is a total
    function of the list of names: it always has an outcome, it is never
    [Stuck], it fetches the members of at most one group per name, each of
    them a group that a name of the list resolved to, and makes at most two
    requests per name.  When the run has come to a member that is a group:
    if its id is registered already, for instance because the group is
    also a given name, nothing is validated, the registered group goes
    into the current group, and its own members are left as they are; if
    its id is not registered and its record has a display name and no
    members of its own, the record is validated once and becomes a new
    group object with an empty members mapping, which goes into the
    current group. *)
Theorem nested_groups_not_expanded (self : session) :
  (∀ group m s, Forall is_validate (member_body group m s).2)
  ∧ (∀ group_names, ∃ o ev,
       get_objects_for_sync self group_names = (o, ev)
       ∧ (∀ s, o ≠ Raise Stuck s)
       ∧ (List.length (List.filter is_fetch ev) ≤ List.length group_names)%nat
       ∧ (List.length (List.filter is_transport ev) ≤ 2 * List.length group_names)%nat
       ∧ ∀ gid, Fetch gid ∈ ev →
           ∃ name x, name ∈ group_names ∧ groups_by_name self name = Body (Some [x])
                     ∧ x !! "id" = Some gid)
  ∧ (∀ pre name group mpre m mpost s ev i,
       reaches self pre name group mpre m mpost s ev →
       strip_none m !! "@odata.type" = Some (JStr (odata_type Group)) →
       strip_none m !! "id" = Some (JStr i) →
       match groups (sync_data s) !! i with
       | Some a =>
           (member_body group m s).2 = []
           ∧ groups (sync_data (final (member_body group m s))) !! i = Some a
           ∧ (a ≠ group → members_at (final (member_body group m s)) a = members_at s a)
           ∧ ∀ ms, members_at s group = Some ms →
               member_body group m s = (Return tt (link group i a (bind_r a s)), [])
               ∧ members_at (link group i a (bind_r a s)) group = Some (<[i := a]> ms)
       | None =>
           ∀ n, strip_none m !! "displayName" = Some (JStr n) →
                strip_none m !! "members" = None →
             (member_body group m s).2 = [Validate Group (strip_none m)]
             ∧ groups (sync_data (final (member_body group m s))) !! i
               = Some (List.length (heap s))
             ∧ heap (final (member_body group m s)) !! List.length (heap s)
               = Some (OGroup (GraphGroup.mk i n (Some ∅)))
             ∧ ∀ ms, members_at s group = Some ms →
                 member_body group m s
                 = (Return tt (link group i (List.length (heap s))
                                 (store Group i (OGroup (GraphGroup.mk i n (Some ∅))) s)),
                    [Validate Group (strip_none m)])
                 ∧ members_at (final (member_body group m s)) group
                   = Some (<[i := List.length (heap s)]> ms)
       end).
Proof.
  split_and!.
  - apply member_body_no_transport.
  - intros names. destruct (get_objects_for_sync self names) as [o ev] eqn:Hrun.
    exists o, ev. split; [done|].
    pose proof (get_objects_for_sync_events self names) as Hev. rewrite Hrun in Hev.
    simpl in Hev. rewrite Hev. split; [|apply groups_loop_events].
    intros s ->. by apply (get_objects_for_sync_not_stuck self names s ev).
  - intros pre name group mpre m mpost s ev i Hreach Ht Hid.
    destruct (reaches_group self _ _ _ _ _ _ _ _ Hreach) as (Hinv & g & Hog & Hat).
    destruct (groups (sync_data s) !! i) as [a|] eqn:Hi.
    + destruct (member_body_reuses group m s Group i a Ht Hid Hi) as (H1 & H2 & _ & H4).
      split_and!; try done.
      * pose proof (H2 Group) as H2'. simpl in H2'. by rewrite H2'.
      * intros Hne. unfold members_at. by rewrite (H4 a Hne).
      * intros ms Hms. split; [by eapply member_body_cached|].
        rewrite members_at_link, decide_True by done.
        change (members_at (bind_r a s) group) with (members_at s group). by rewrite Hms.
    + intros n Hn Hm.
      pose proof (group_validate_intro _ _ _ Hid Hn Hm) as Ho.
      destruct (member_body_registers group m s Group i _ (ex_intro _ _ Hog)
                  (λ _, Hm) Ht Hid Hi Ho) as (H1 & H2 & H3 & _).
      split_and!; try done. intros ms Hms.
      pose proof (member_body_fresh group m s Group i _ ms Hms (λ _, Hm) Ht Hid Hi Ho) as Hb.
      split; [done|]. rewrite Hb. unfold final. simpl.
      rewrite members_at_link, decide_True by done. unfold store.
      by rewrite (members_at_app s _ _ _ group ms Hms).
Qed.

Lemma nested_groups_not_expanded_witness :
  heap (final (member_body 0 (Sample.group "g2" "Ops")
                 (position Sample.directory [] "Staff" 0
                    [Sample.ann; Sample.bob; Sample.app]).1)) !! 4
  = Some (OGroup (GraphGroup.mk "g2" "Ops" (Some ∅)))
  ∧ (member_body 0 (Sample.group "g2" "Ops")
       (position Sample.directory ["Ops"] "Staff" 2 [Sample.ann; Sample.bob; Sample.app]).1).2
    = [].
Proof.
  destruct (nested_groups_not_expanded Sample.directory) as (_ & _ & H). split.
  - pose proof (H [] "Staff" 0 [Sample.ann; Sample.bob; Sample.app] (Sample.group "g2" "Ops") []
                (position Sample.directory [] "Staff" 0 [Sample.ann; Sample.bob; Sample.app]).1
                (position Sample.directory [] "Staff" 0 [Sample.ann; Sample.bob; Sample.app]).2
                "g2") as H1.
    assert (Hnone : groups (sync_data (position Sample.directory [] "Staff" 0
                                         [Sample.ann; Sample.bob; Sample.app]).1) !! "g2"
                    = None) by by_vm.
    rewrite Hnone in H1.
    destruct H1 with (n := "Ops") as (_ & _ & H3 & _);
      [apply reaches_position; by_vm|by_vm..|].
    assert (Hlen : List.length (heap (position Sample.directory [] "Staff" 0
                                        [Sample.ann; Sample.bob; Sample.app]).1) = 4)
      by by_vm.
    rewrite Hlen in H3. exact H3.
  - pose proof (H ["Ops"] "Staff" 2 [Sample.ann; Sample.bob; Sample.app]
                (Sample.group "g2" "Ops") []
                (position Sample.directory ["Ops"] "Staff" 2
                   [Sample.ann; Sample.bob; Sample.app]).1
                (position Sample.directory ["Ops"] "Staff" 2
                   [Sample.ann; Sample.bob; Sample.app]).2
                "g2") as H1.
    assert (Hsome : groups (sync_data (position Sample.directory ["Ops"] "Staff" 2
                                         [Sample.ann; Sample.bob; Sample.app]).1) !! "g2"
                    = Some 0) by by_vm.
    specialize (H1 ltac:(apply reaches_position; by_vm) ltac:(by_vm) ltac:(by_vm)).
    destruct (groups (sync_data (position Sample.directory ["Ops"] "Staff" 2
                                   [Sample.ann; Sample.bob; Sample.app]).1) !! "g2")
      as [a|] eqn:E.
    + by destruct H1 as (H2 & _).
    + discriminate Hsome.
Defined.

(** * Further properties of the code *)

(** ** Authentication *)

Lemma truthy_Some (x : option string) :
  Auth.truthy x = true ↔ ∃ s, x = Some s ∧ s ≠ "".
Proof.
  unfold Auth.truthy. destruct x as [s|]; [|split; [discriminate|by intros (? & ? & _)]].
  rewrite negb_true_iff, bool_decide_eq_false. split; [eauto|]. by intros (? & [= <-] & ?).
Qed.

(** What [__init__] does once a tenant id and a client id are found. *)
Lemma init_eq (env : Auth.environ) (login : Auth.endpoint)
    (a1 a2 a3 : option string) (tenant client : string) :
  Auth.or_ (env !! "GRAPH_ARM_TENANT_ID") (env !! "ARM_TENANT_ID") = Some tenant →
  tenant ≠ "" →
  Auth.or_ (env !! "GRAPH_ARM_CLIENT_ID") (env !! "ARM_CLIENT_ID") = Some client →
  client ≠ "" →
  Auth.__init__ env login a1 a2 a3
  = (match login tenant (Some client)
             (Auth.or_ (env !! "GRAPH_ARM_CLIENT_SECRET") (env !! "ARM_CLIENT_SECRET")) with
     | Auth.Token_status_error st => inr (Auth.HTTPError st)
     | Auth.Token_body token =>
         inl (Auth.mkClient None token
                (Some {["Authorization" := "Bearer " +:+ Auth.format token]})
                (Some "https://graph.microsoft.com/"))
     end,
     [Auth.mkPost tenant (Some client)
        (Auth.or_ (env !! "GRAPH_ARM_CLIENT_SECRET") (env !! "ARM_CLIENT_SECRET"))]).
Proof.
  intros Ht Hne Hc Hnc. unfold Auth.__init__, Auth._authenticate. simpl.
  change (Auth.or_ None ?x) with x. rewrite Ht, Hc.
  assert (Auth.truthy (Some tenant) = true) as -> by (apply truthy_Some; eauto).
  assert (Auth.truthy (Some client) = true) as -> by (apply truthy_Some; eauto).
  simpl. unfold Auth._get_access_token.
  by destruct (login tenant (Some client) _).
Qed.

(** X1 -- the token request.  When a tenant id and a client id are found
    in the environment, [__init__] makes exactly one token request, with
    the tenant, the client id and the secret as the environment gives them,
    whatever its own three arguments are.  An error status of the endpoint
    is raised and no client is made; otherwise the client holds the token,
    the header [Authorization: Bearer <token>] and the base URL. *)
Theorem authenticate_request (env : Auth.environ) (login : Auth.endpoint)
    (a1 a2 a3 : option string) (tenant client : string) :
  Auth.or_ (env !! "GRAPH_ARM_TENANT_ID") (env !! "ARM_TENANT_ID") = Some tenant →
  tenant ≠ "" →
  Auth.or_ (env !! "GRAPH_ARM_CLIENT_ID") (env !! "ARM_CLIENT_ID") = Some client →
  client ≠ "" →
  (Auth.__init__ env login a1 a2 a3).2
  = [Auth.mkPost tenant (Some client)
       (Auth.or_ (env !! "GRAPH_ARM_CLIENT_SECRET") (env !! "ARM_CLIENT_SECRET"))]
  ∧ (Auth.__init__ env login a1 a2 a3).1
    = match login tenant (Some client)
              (Auth.or_ (env !! "GRAPH_ARM_CLIENT_SECRET") (env !! "ARM_CLIENT_SECRET")) with
      | Auth.Token_status_error st => inr (Auth.HTTPError st)
      | Auth.Token_body token =>
          inl (Auth.mkClient None token
                 (Some {["Authorization" := "Bearer " +:+ Auth.format token]})
                 (Some "https://graph.microsoft.com/"))
      end.
Proof.
  intros Ht Hne Hc Hnc. by rewrite (init_eq env login a1 a2 a3 tenant client).
Qed.

Lemma authenticate_request_witness :
  Auth.__init__ Sample_env.no_secret Sample_env.strict (Some "x") None None
  = (inr (Auth.HTTPError 401), [Auth.mkPost "tenant-1" (Some "client-2") None]).
Proof.
  destruct (authenticate_request Sample_env.no_secret Sample_env.strict (Some "x") None None
              "tenant-1" "client-2") as [H1 H2]; [by_vm|done|by_vm|done|].
  destruct (Auth.__init__ _ _ _ _ _) as [o posts]. simpl in *. subst.
  f_equal; by_vm.
Defined.

(** X2 -- identifiers that are missing.  When neither [GRAPH_ARM_TENANT_ID]
    nor [ARM_TENANT_ID] holds a non-empty value, or neither
    [GRAPH_ARM_CLIENT_ID] nor [ARM_CLIENT_ID] does, [__init__] raises a
    [ValueError] and makes no request. *)
Theorem authenticate_missing_identifier (env : Auth.environ) (login : Auth.endpoint)
    (a1 a2 a3 : option string) :
  (Auth.truthy (env !! "GRAPH_ARM_TENANT_ID") = false
   ∧ Auth.truthy (env !! "ARM_TENANT_ID") = false)
  ∨ (Auth.truthy (env !! "GRAPH_ARM_CLIENT_ID") = false
     ∧ Auth.truthy (env !! "ARM_CLIENT_ID") = false) →
  ∃ msg, Auth.__init__ env login a1 a2 a3 = (inr (Auth.ValueError msg), []).
Proof.
  intros H. unfold Auth.__init__, Auth._authenticate. simpl.
  change (Auth.or_ None ?x) with x.
  destruct (Auth.truthy (Auth.or_ (env !! "GRAPH_ARM_TENANT_ID") (env !! "ARM_TENANT_ID")))
    eqn:Ht; simpl; [|eauto].
  destruct H as [[H1 H2]|[H1 H2]].
  - unfold Auth.or_ in Ht. rewrite H1 in Ht. congruence.
  - unfold Auth.or_ at 1. rewrite H1, H2. simpl. eauto.
Qed.

Lemma authenticate_missing_identifier_witness :
  ∃ msg, Auth.__init__ Sample_env.no_client Sample_env.grant None None None
         = (inr (Auth.ValueError msg), []).
Proof.
  apply authenticate_missing_identifier. right. split; by_vm.
Defined.

(** X3 -- a missing secret is not rejected.  When a tenant id and a client
    id are found and neither [GRAPH_ARM_CLIENT_SECRET] nor
    [ARM_CLIENT_SECRET] is set, [__init__] raises no [ValueError]: it sends
    the token request without secret, and its outcome is the endpoint's. *)
Theorem authenticate_missing_secret (env : Auth.environ) (login : Auth.endpoint)
    (a1 a2 a3 : option string) (tenant client : string) :
  Auth.or_ (env !! "GRAPH_ARM_TENANT_ID") (env !! "ARM_TENANT_ID") = Some tenant →
  tenant ≠ "" →
  Auth.or_ (env !! "GRAPH_ARM_CLIENT_ID") (env !! "ARM_CLIENT_ID") = Some client →
  client ≠ "" →
  env !! "GRAPH_ARM_CLIENT_SECRET" = None → env !! "ARM_CLIENT_SECRET" = None →
  (Auth.__init__ env login a1 a2 a3).2 = [Auth.mkPost tenant (Some client) None]
  ∧ ∀ msg, (Auth.__init__ env login a1 a2 a3).1 ≠ inr (Auth.ValueError msg).
Proof.
  intros Ht Hne Hc Hnc Hs1 Hs2.
  rewrite (init_eq env login a1 a2 a3 tenant client Ht Hne Hc Hnc), Hs1, Hs2.
  change (Auth.or_ None None) with (@None string). simpl.
  split; [done|]. intros msg. by destruct (login tenant (Some client) None).
Qed.

Lemma authenticate_missing_secret_witness :
  (Auth.__init__ Sample_env.no_secret Sample_env.grant None None None).2
  = [Auth.mkPost "tenant-1" (Some "client-2") None].
Proof.
  apply (authenticate_missing_secret Sample_env.no_secret Sample_env.grant None None None
           "tenant-1" "client-2"); [by_vm|done|by_vm|done|by_vm|by_vm].
Defined.

(** X4 -- precedence of the [GRAPH_ARM_] names.  Two environments that give
    the same non-empty tenant under [GRAPH_ARM_TENANT_ID] and agree on the
    other five variables lead to the same requests and the same outcome:
    [ARM_TENANT_ID] is not read when [GRAPH_ARM_TENANT_ID] is set.  The same
    holds of the client id and of the secret. *)
Theorem graph_names_take_precedence (env env' : Auth.environ) (login : Auth.endpoint)
    (a1 a2 a3 : option string) (primary fallback : string) :
  (primary, fallback) ∈ [("GRAPH_ARM_TENANT_ID", "ARM_TENANT_ID");
                         ("GRAPH_ARM_CLIENT_ID", "ARM_CLIENT_ID");
                         ("GRAPH_ARM_CLIENT_SECRET", "ARM_CLIENT_SECRET")] →
  Auth.truthy (env !! primary) = true →
  (∀ key, key ≠ fallback → env' !! key = env !! key) →
  Auth.__init__ env' login a1 a2 a3 = Auth.__init__ env login a1 a2 a3.
Proof.
  intros Hin Hp Hsame.
  assert (Hor : Auth.or_ (env' !! primary) (env' !! fallback)
                = Auth.or_ (env !! primary) (env !! fallback)).
  { rewrite (Hsame primary).
    - unfold Auth.or_. by rewrite Hp.
    - intros ->. repeat (apply elem_of_cons in Hin as [[= H1 H2]|Hin]; [congruence|]).
      by apply elem_of_nil in Hin. }
  unfold Auth.__init__, Auth._authenticate. simpl. change (Auth.or_ None ?x) with x.
  repeat (apply elem_of_cons in Hin as [[= -> ->]|Hin]); [| | |by apply elem_of_nil in Hin].
  - rewrite Hor. by rewrite !(Hsame "GRAPH_ARM_CLIENT_ID"), !(Hsame "ARM_CLIENT_ID"),
      !(Hsame "GRAPH_ARM_CLIENT_SECRET"), !(Hsame "ARM_CLIENT_SECRET").
  - rewrite Hor. by rewrite !(Hsame "GRAPH_ARM_TENANT_ID"), !(Hsame "ARM_TENANT_ID"),
      !(Hsame "GRAPH_ARM_CLIENT_SECRET"), !(Hsame "ARM_CLIENT_SECRET").
  - rewrite Hor. by rewrite !(Hsame "GRAPH_ARM_TENANT_ID"), !(Hsame "ARM_TENANT_ID"),
      !(Hsame "GRAPH_ARM_CLIENT_ID"), !(Hsame "ARM_CLIENT_ID").
Qed.

Lemma graph_names_take_precedence_witness :
  Auth.__init__ Sample_env.no_secret' Sample_env.grant None None None
  = Auth.__init__ Sample_env.no_secret Sample_env.grant None None None.
Proof.
  apply (graph_names_take_precedence _ _ _ _ _ _ "GRAPH_ARM_TENANT_ID" "ARM_TENANT_ID").
  - apply list_elem_of_here.
  - by_vm.
  - intros key Hkey. unfold Sample_env.no_secret', Sample_env.no_secret.
    unfold list_to_map. simpl. rewrite !lookup_insert.
    repeat case_decide; congruence.
Defined.

(** ** Entity models and their conversion *)

(** X5 -- the primary mail field.  A string under ['mail'] is the [mail] of
    the user, whatever ['mailNickname'] holds; a ['mail'] that is present
    and not a string makes validation fail, even with a good alias: the
    alias is read only when ['mail'] is no key of the record. *)
Theorem mail_before_alias (d : record) (v : json) :
  d !! "mail" = Some v →
  (∀ u, GraphUser.model_validate d = inl u → v = JStr (GraphUser.mail u))
  ∧ (validate_str v = None → ∃ e, GraphUser.model_validate d = inr e).
Proof.
  intros Hv.
  assert (Hreq : required validate_str ["mail"; "mailNickname"] d
                 = match validate_str v with
                   | Some m => inl m
                   | None => inr (FieldError malformed ["mail"])
                   end).
  { unfold required, alias_choices. by rewrite Hv. }
  split.
  - intros u (_ & _ & Hu & _)%user_validate_inv. rewrite Hreq in Hu.
    destruct v; simpl in Hu; try discriminate. congruence.
  - intros Hbad. destruct (GraphUser.model_validate d) as [u|e] eqn:Hu; [|eauto].
    apply user_validate_inv in Hu as (_ & _ & Hu & _). rewrite Hreq, Hbad in Hu. discriminate.
Qed.

Lemma mail_before_alias_witness :
  strip_none Sample.ann !! "mailNickname" = Some (JStr "ann")
  ∧ JStr "ann@example.org"
    = JStr (GraphUser.mail (GraphUser.mk "u1" "Ann" "ann@example.org" true)).
Proof.
  split; [by_vm|].
  apply (mail_before_alias (strip_none Sample.ann) (JStr "ann@example.org")); by_vm.
Defined.

(** X6 -- from record to target user.  The target record of a user that a
    record validates to has, as external id, user name and display name, the
    strings of the record under ['id'], under the first of ['mail'] and
    ['mailNickname'] that is a key, and under ['displayName']; a validated
    service principal likewise, with its application id from ['appId']. *)
Theorem to_sdk_of_record (d : record) :
  (∀ u, GraphUser.model_validate d = inl u →
     d !! "id" = Some (JStr (iam.user_external_id (to_sdk_user u)))
     ∧ d !! "displayName" = Some (JStr (iam.user_display_name (to_sdk_user u)))
     ∧ (∃ a, alias_choices ["mail"; "mailNickname"] d
             = Some (a, JStr (iam.user_name (to_sdk_user u))))
     ∧ (d !! "accountEnabled" = None → iam.user_active (to_sdk_user u) = true))
  ∧ (∀ p, GraphServicePrincipal.model_validate d = inl p →
       d !! "id" = Some (JStr (iam.sp_external_id (to_sdk_service_principal p)))
       ∧ d !! "displayName" = Some (JStr (iam.sp_display_name (to_sdk_service_principal p)))
       ∧ d !! "appId" = Some (JStr (iam.application_id (to_sdk_service_principal p)))
       ∧ (d !! "accountEnabled" = None → iam.sp_active (to_sdk_service_principal p) = true)).
Proof.
  assert (Hstr : ∀ aliases s, required validate_str aliases d = inl s →
            ∃ a, alias_choices aliases d = Some (a, JStr s)).
  { intros aliases s. unfold required.
    destruct (alias_choices aliases d) as [[a v]|]; [|discriminate].
    intros H. destruct v; simpl in H; try discriminate. injection H as ->. eauto. }
  assert (Hone : ∀ key s, required validate_str [key] d = inl s → d !! key = Some (JStr s)).
  { intros key s H. destruct (Hstr _ _ H) as [a Ha]. simpl in Ha.
    destruct (d !! key); [|discriminate]. congruence. }
  split.
  - intros u Hu. apply user_validate_inv in Hu as (Hi & Hn & Hm & Ha).
    split_and!; [by apply Hone|by apply Hone|by apply Hstr|]. intros Hnone. simpl.
    rewrite (optional_absent validate_bool _ true d Hnone) in Ha. congruence.
  - intros p Hp. apply service_principal_validate_inv in Hp as (Hi & Hn & Happ & Ha).
    split_and!; [by apply Hone|by apply Hone|by apply Hone|]. intros Hnone. simpl.
    rewrite (optional_absent validate_bool _ true d Hnone) in Ha. congruence.
Qed.

Lemma to_sdk_of_record_witness :
  GraphUser.model_validate (strip_none Sample.bob)
  = inl (GraphUser.mk "u2" "Bob" "bob" true)
  ∧ to_sdk_user (GraphUser.mk "u2" "Bob" "bob" true) = iam.mkUser "bob" "Bob" true "u2"
  ∧ strip_none Sample.bob !! "id"
    = Some (JStr (iam.user_external_id (to_sdk_user (GraphUser.mk "u2" "Bob" "bob" true)))).
Proof.
  assert (H : GraphUser.model_validate (strip_none Sample.bob)
              = inl (GraphUser.mk "u2" "Bob" "bob" true)) by by_vm.
  split_and!; [done|done|].
  by destruct (to_sdk_of_record (strip_none Sample.bob)) as [Hu _];
    destruct (Hu _ H) as (? & _).
Defined.

(** ** The result of a run *)

(** X7 -- keys are ids.  However a run ends, every key of the users,
    service principals and groups mappings is the [id] of the object stored
    under it, and that object is of the class of the mapping. *)
Theorem keys_are_ids (self : session) (group_names : list string) (k : kind)
    (i : string) (a : addr) :
  mapping k (sync_data (final (get_objects_for_sync self group_names))) !! i = Some a →
  ∃ o, heap (final (get_objects_for_sync self group_names)) !! a = Some o
       ∧ object_id o = i ∧ kind_of o = Some k.
Proof.
  pose proof (get_objects_for_sync_inv self group_names) as H. unfold final.
  destruct (get_objects_for_sync self group_names).1; destruct H as [H1 H2].
  - by apply inv_mapping.
  - by apply inv_mapping.
Qed.

Lemma keys_are_ids_witness :
  ∃ o, heap (final Sample.staff_and_ops) !! 3 = Some o
       ∧ object_id o = "p1" ∧ kind_of o = Some ServicePrincipal.
Proof.
  apply (keys_are_ids Sample.directory ["Staff"; "Ops"] ServicePrincipal "p1" 3). by_vm.
Defined.

(** X8 -- the summary.  The summary that ends a run that returns is logged
    at level [INFO] and reports [errors=0], followed by the sizes of the
    three mappings: it is never logged as an error. *)
Theorem summary_is_info (self : session) (group_names : list string)
    (sd : GraphSyncObject) (s : state) (ev : list event) :
  get_objects_for_sync self group_names = (Return sd s, ev) →
  summary_log sd
  = (INFO, "Downloaded: errors=0, groups=" +:+ pretty (size (groups sd))
           +:+ ", users=" +:+ pretty (size (users sd))
           +:+ ", service_principals=" +:+ pretty (size (service_principals sd))).
Proof.
  intros Hrun. pose proof (get_objects_for_sync_inv self group_names) as H.
  rewrite Hrun in H. simpl in H. destruct H as [Hinv ->].
  unfold summary_log. by rewrite (inv_errors s Hinv).
Qed.

Lemma summary_is_info_witness :
  summary_log (sync_data (final Sample.staff_and_ops))
  = (INFO, "Downloaded: errors=0, groups=2, users=2, service_principals=1").
Proof.
  rewrite (summary_is_info Sample.directory ["Staff"; "Ops"]
             (sync_data (final Sample.staff_and_ops)) (final Sample.staff_and_ops)
             Sample.staff_and_ops.2); by_vm.
Defined.

Lemma member_values_spec (h : list object) (refs : list (string * addr)) :
  (∀ i a, (i, a) ∈ refs → ∃ o, h !! a = Some o ∧ object_id o = i) →
  ∃ vs, member_values h refs = inl vs
        ∧ iam.value <$> vs = refs.*1
        ∧ ∀ cv, cv ∈ vs → ∃ a o, (iam.value cv, a) ∈ refs ∧ h !! a = Some o
                                 ∧ iam.display cv = object_display_name o.
Proof.
  induction refs as [|[i a] refs IH]; intros Hrefs; simpl.
  - exists []. split_and!; [done|done|]. intros cv H. by apply elem_of_nil in H.
  - destruct (Hrefs i a (list_elem_of_here _ _)) as (o & Ho & Hi). rewrite Ho.
    destruct IH as (vs & -> & Hvs & Hall).
    { intros j b Hj. apply Hrefs. by right. }
    eexists. split_and!; [done|rewrite !fmap_cons, Hvs; simpl; by rewrite Hi|].
    intros cv [->|Hcv]%elem_of_cons.
    + exists a, o. simpl. rewrite Hi. split_and!; [by left|done|done].
    + destruct (Hall cv Hcv) as (b & o' & ? & ? & ?). exists b, o'. split_and!; [by right|done..].
Qed.

(** X9 -- the target record of a group.  When no record that the directory
    answers has a ['members'] entry, then for every group of the result of a
    run that returns, [to_sdk_group] succeeds; its external id is the key
    of the group and its display name the group's; it lists one reference
    per key of the members mapping, the [value]s being those keys, without
    repetition, and each [display] being the display name of the entity
    registered under that key. *)
Theorem to_sdk_group_of_result (self : session) (group_names : list string)
    (sd : GraphSyncObject) (s : state) (ev : list event) (gid : string) (ga : addr) :
  without_members self →
  get_objects_for_sync self group_names = (Return sd s, ev) →
  groups sd !! gid = Some ga →
  ∃ g ms G,
    heap s !! ga = Some (OGroup g) ∧ GraphGroup.members g = Some ms
    ∧ to_sdk_group (heap s) g = inl G
    ∧ iam.external_id G = gid ∧ iam.display_name G = GraphGroup.display_name g
    ∧ iam.value <$> iam.members G = (map_to_list ms).*1
    ∧ NoDup (iam.value <$> iam.members G)
    ∧ ∀ cv, cv ∈ iam.members G →
        ∃ a o, ms !! iam.value cv = Some a ∧ registered s (iam.value cv) a
               ∧ heap s !! a = Some o ∧ iam.display cv = object_display_name o.
Proof.
  intros Hself Hrun Hga. pose proof (get_objects_for_sync_inv self group_names) as H.
  pose proof (get_objects_for_sync_linked self Hself group_names) as Hl.
  unfold final in Hl. rewrite Hrun in H, Hl. simpl in H, Hl. destruct H as [Hinv ->].
  destruct (inv_mapping s Hinv Group _ _ Hga) as (o & Ho & Hid & Hk).
  destruct o as [| |g|]; try discriminate.
  destruct (Hl _ _ Ho) as (ms & Hms & Hreg).
  destruct (member_values_spec (heap s) (map_to_list ms)) as (vs & Hvs & Hval & Hall).
  { intros i a Hi%elem_of_map_to_list.
    destruct (proj1 (registered_iff s i a) (Hreg _ _ Hi)) as [k Hk'].
    destruct (inv_mapping s Hinv _ _ _ Hk') as (o & ? & ? & _). eauto. }
  exists g, ms, (iam.mkGroup (GraphGroup.display_name g) (GraphGroup.id g) vs).
  unfold to_sdk_group. rewrite Hms, Hvs. simpl. split_and!; try done.
  - rewrite Hval. apply NoDup_fst_map_to_list.
  - intros cv Hcv. destruct (Hall cv Hcv) as (a & o & Hin%elem_of_map_to_list & Ha & Hd).
    exists a, o. split_and!; auto.
Qed.

Lemma to_sdk_group_of_result_witness :
  ∃ G, to_sdk_group (heap (final Sample.staff_and_ops))
                    (GraphGroup.mk "g2" "Ops" (Some {["u1" := 1]})) = inl G
       ∧ iam.external_id G = "g2"
       ∧ iam.members G = [iam.mkComplexValue "Ann" "u1"].
Proof.
  destruct (to_sdk_group_of_result Sample.directory ["Staff"; "Ops"]
              (sync_data (final Sample.staff_and_ops)) (final Sample.staff_and_ops)
              Sample.staff_and_ops.2 "g2" 4) as (g & ms & G & Hg & _ & HG & Hid & _);
    [apply directory_without_members|by_vm|by_vm|].
  assert (Hg' : heap (final Sample.staff_and_ops) !! 4
                = Some (OGroup (GraphGroup.mk "g2" "Ops" (Some {["u1" := 1]})))) by by_vm.
  pose proof (eq_trans (eq_sym Hg) Hg') as [= ->].
  exists G. split_and!; [done|done|].
  assert (HG' : to_sdk_group (heap (final Sample.staff_and_ops))
                  (GraphGroup.mk "g2" "Ops" (Some {["u1" := 1]}))
                = inl (iam.mkGroup "Ops" "g2" [iam.mkComplexValue "Ann" "u1"])) by by_vm.
  pose proof (eq_trans (eq_sym HG) HG') as [= ->]. done.
Defined.

(** ** Opening a group, case by case *)

Section Open_cases.
Variable self : session.

Lemma group_body_open_Raise (name : string) (s s' : state) (ev : list event) (e : exn) :
  open_group self name s = (Raise e s', ev) →
  group_body self name s = (Raise e s', ev).
Proof. intros H. unfold group_body. by rewrite bind_eq, H. Qed.

Lemma lookups_validate (evs : list event) : Forall is_validate evs → lookups evs = [].
Proof.
  unfold lookups. induction 1 as [|e evs He _ IH]; [done|].
  destruct e; simpl; done.
Qed.

Lemma group_body_lookups (name : string) (s : state) :
  lookups (group_body self name s).2 = [name].
Proof.
  destruct (group_body_events self name s) as (evs & Hevs & [->|(x & gid & _ & _ & ->)]).
  - change (lookups (Lookup name :: evs)) with (name :: lookups evs).
    by rewrite (lookups_validate evs Hevs).
  - change (lookups (Lookup name :: Fetch gid :: evs)) with (name :: lookups evs).
    by rewrite (lookups_validate evs Hevs).
Qed.
End Open_cases.

(** ** Failures of the directory *)

(** X10 -- a failed lookup.  When the lookup of a name answers with an
    error status, the run ends there with that [HTTPError]: the state is as
    the names before it left it, and no later name is looked up. *)
Theorem lookup_error_escapes (self : session) (pre post : list string) (name : string)
    (s : state) (ev : list event) (st : nat) :
  groups_loop self pre initial = (Return tt s, ev) →
  groups_by_name self name = Status_error st →
  get_objects_for_sync self (pre ++ name :: post)
  = (Raise (HTTPError st) s, ev ++ [Lookup name]).
Proof.
  intros Hpre Hname. eapply groups_Raise; [done|].
  apply group_body_open_Raise. by apply open_group_lookup_error.
Qed.

Lemma lookup_error_escapes_witness :
  get_objects_for_sync Sample_faults.lookup_fails ["Staff"; "Ops"; "Staff"]
  = (Raise (HTTPError 503) (final (groups_loop Sample_faults.lookup_fails ["Staff"] initial)),
     (groups_loop Sample_faults.lookup_fails ["Staff"] initial).2 ++ [Lookup "Ops"]).
Proof.
  apply (lookup_error_escapes Sample_faults.lookup_fails ["Staff"] ["Staff"] "Ops").
  - apply outcome_eta. by_vm.
  - by_vm.
Defined.

Lemma size_lookup_Some (x : record) (key : string) (v : json) :
  x !! key = Some v → bool_decide (size x = 0) = false.
Proof.
  intros Hx. apply bool_decide_eq_false. intros Hsize%map_size_empty_iff.
  rewrite Hsize in Hx. by rewrite lookup_empty in Hx.
Qed.

(** X11 -- a failed request for the members.  When a name resolves to one
    group and the request for its members answers with an error status, the
    run ends with that [HTTPError] and the state is as the names before it
    left it: the members are requested before the group is registered, so
    the group is not registered. *)
Theorem fetch_error_escapes (self : session) (pre post : list string) (name : string)
    (s : state) (ev : list event) (x : record) (gid : json) (st : nat) :
  groups_loop self pre initial = (Return tt s, ev) →
  groups_by_name self name = Body (Some [x]) →
  x !! "id" = Some gid →
  members_of self gid = Status_error st →
  get_objects_for_sync self (pre ++ name :: post)
  = (Raise (HTTPError st) s, ev ++ [Lookup name; Fetch gid]).
Proof.
  intros Hpre Hname Hid Hmem. eapply groups_Raise; [done|].
  apply group_body_open_Raise. rewrite (open_group_eq self name s x Hname).
  by rewrite (size_lookup_Some x _ _ Hid), Hid, Hmem.
Qed.

Lemma fetch_error_escapes_witness :
  get_objects_for_sync Sample_faults.no_members_access ["Staff"]
  = (Raise (HTTPError 403) initial, [Lookup "Staff"; Fetch (JStr "g1")]).
Proof.
  apply (fetch_error_escapes Sample_faults.no_members_access [] [] "Staff" initial []
           (Sample.group "g1" "Staff") (JStr "g1") 403); by_vm.
Defined.

(** X12 -- a group record that cannot be registered.  When the one group a
    name resolves to has no ['id'] (and is not empty), the run ends with a
    [KeyError] before any request for members.  When it has a string id that
    is not yet registered and fails validation, its members are requested
    first and the run then ends with the [ValidationError]; in both cases
    the state is as the names before it left it. *)
Theorem bad_group_record_aborts (self : session) (pre post : list string) (name : string)
    (s : state) (ev : list event) (x : record) :
  groups_loop self pre initial = (Return tt s, ev) →
  groups_by_name self name = Body (Some [x]) →
  (x !! "id" = None → x ≠ ∅ →
     get_objects_for_sync self (pre ++ name :: post)
     = (Raise (KeyError (JStr "id")) s, ev ++ [Lookup name]))
  ∧ (∀ i data e,
       x !! "id" = Some (JStr i) → groups (sync_data s) !! i = None →
       members_of self (JStr i) = Body data →
       new_object Group x = inr e →
       get_objects_for_sync self (pre ++ name :: post)
       = (Raise e s, ev ++ [Lookup name; Fetch (JStr i); Validate Group x])
       ∧ is_ValidationError e = true).
Proof.
  intros Hpre Hname. split.
  - intros Hid Hne. eapply groups_Raise; [done|].
    apply group_body_open_Raise. rewrite (open_group_eq self name s x Hname).
    rewrite bool_decide_eq_false_2, Hid; [done|]. by intros Hsize%map_size_empty_iff.
  - intros i data e Hid Hnone Hmem He. split; [|by eapply new_object_error].
    eapply groups_Raise; [done|].
    apply group_body_open_Raise. rewrite (open_group_eq self name s x Hname).
    rewrite (size_lookup_Some x _ _ Hid), Hid, Hmem.
    by rewrite (register_invalid Group _ s i e Hid Hnone He).
Qed.

Lemma bad_group_record_aborts_witness :
  get_objects_for_sync Sample_faults.bad_groups ["Lost"]
  = (Raise (KeyError (JStr "id")) initial, [Lookup "Lost"])
  ∧ get_objects_for_sync Sample_faults.bad_groups ["Nameless"]
    = (Raise (ValidationError "GraphGroup" [FieldError missing ["displayName"]]) initial,
       [Lookup "Nameless"; Fetch (JStr "g5"); Validate Group Sample_faults.nameless_group]).
Proof.
  split.
  - destruct (bad_group_record_aborts Sample_faults.bad_groups [] [] "Lost" initial []
                Sample_faults.idless_group) as [H _]; [by_vm|by_vm|].
    apply H; [by_vm|]. intros Heq.
    assert (Hl : Sample_faults.idless_group !! "displayName" = Some (JStr "Lost")) by by_vm.
    rewrite Heq in Hl. by rewrite lookup_empty in Hl.
  - destruct (bad_group_record_aborts Sample_faults.bad_groups [] [] "Nameless" initial []
                Sample_faults.nameless_group) as [_ H]; [by_vm|by_vm|].
    apply (H "g5" (Some [Sample.ann])); by_vm.
Defined.

(** X13 -- an answer without ["value"].  When the answer to the request
    for the members of a group has no ["value"], the group is registered
    all the same, and the run then ends with a [TypeError] at the loop over
    the members. *)
Theorem members_without_value (self : session) (pre post : list string) (name : string)
    (s s1 : state) (ev ev1 : list event) (x : record) (gid : json) (a : addr) :
  groups_loop self pre initial = (Return tt s, ev) →
  groups_by_name self name = Body (Some [x]) →
  x !! "id" = Some gid →
  members_of self gid = Body None →
  register Group x s = (Return a s1, ev1) →
  get_objects_for_sync self (pre ++ name :: post)
  = (Raise (TypeError "'NoneType' object is not iterable") s1,
     ev ++ Lookup name :: Fetch gid :: ev1)
  ∧ ∃ i, gid = JStr i ∧ groups (sync_data s1) !! i = Some a.
Proof.
  intros Hpre Hname Hid Hmem Hreg. split.
  - eapply groups_Raise; [done|]. unfold group_body.
    rewrite bind_eq, (open_group_eq self name s x Hname).
    rewrite (size_lookup_Some x _ _ Hid), Hid, Hmem, Hreg. simpl.
    by rewrite app_nil_r.
  - destruct (register_Return_inv _ _ _ _ _ _ Hreg) as (i & Hi & Ha & _).
    rewrite Hid in Hi. injection Hi as ->. eauto.
Qed.

Lemma members_without_value_witness :
  get_objects_for_sync Sample_faults.no_value ["Staff"]
  = (Raise (TypeError "'NoneType' object is not iterable")
           (final (register Group (Sample.group "g1" "Staff") initial)),
     [Lookup "Staff"; Fetch (JStr "g1"); Validate Group (Sample.group "g1" "Staff")])
  ∧ groups (sync_data (final (register Group (Sample.group "g1" "Staff") initial))) !! "g1"
    = Some 0.
Proof.
  destruct (members_without_value Sample_faults.no_value [] [] "Staff" initial
              (final (register Group (Sample.group "g1" "Staff") initial))
              [] [Validate Group (Sample.group "g1" "Staff")]
              (Sample.group "g1" "Staff") (JStr "g1") 0) as [H1 (i & [= <-] & H2)];
    [by_vm..|]. split; [exact H1|exact H2].
Defined.

(** ** Registration that fails *)

(** X14 -- a registration that raises changes nothing.  When a registration
    routine raises, the state is as before the call.  Without ['id'] it
    raises a [KeyError] and validates nothing; an ['id'] that is a list or a
    dictionary raises a [TypeError] at the membership test; otherwise the
    record was validated, the exception is the [ValidationError], and the
    id, when it is a string, is still no key of the mapping: the failure is
    not remembered, and the next record with that id is validated again. *)
Theorem failed_registration_changes_nothing (k : kind) (d : record) (s s' : state)
    (e : exn) (ev : list event) :
  register k d s = (Raise e s', ev) →
  s' = s
  ∧ match d !! "id" with
    | None => e = KeyError (JStr "id") ∧ ev = []
    | Some (JArr _) => e = TypeError "unhashable type: 'list'" ∧ ev = []
    | Some (JObj _) => e = TypeError "unhashable type: 'dict'" ∧ ev = []
    | Some v =>
        is_ValidationError e = true ∧ ev = [Validate k d]
        ∧ ∀ i, v = JStr i → mapping k (sync_data s') !! i = None
    end.
Proof.
  intros H. destruct (register_Raise_inv _ _ _ _ _ _ H) as (-> & _ & Hev).
  split; [done|].
  destruct (d !! "id") as [v|] eqn:Hi.
  2: { rewrite (register_no_id _ _ _ Hi) in H. by injection H as <- <-. }
  assert (Hval : ev ≠ [] →
            is_ValidationError e = true ∧ ev = [Validate k d]).
  { intros Hne. destruct Hev as [->|[-> He]]; [done|]. split; [|done].
    by eapply new_object_error. }
  assert (Hnostr : validate_str v = None →
            (∀ l, v ≠ JArr l) → (∀ o, v ≠ JObj o) → ev ≠ []).
  { intros Hv Hl Ho. destruct (new_object_not_str k d v Hi Hv) as [e0 He0].
    revert H. unfold register. rewrite bind_eq. unfold getitem. rewrite Hi. simpl.
    destruct v; try discriminate; try (by edestruct Hl); try (by edestruct Ho);
      exec; rewrite (model_validate_Raise _ _ _ _ He0); simpl; by intros [= <- <-]. }
  destruct v as [ | b | z | f | i | l | js];
    try (destruct Hval as [? ?]; [apply Hnostr; done|]; split_and!; done).
  - destruct (mapping k (sync_data s) !! i) as [a|] eqn:Ha.
    { by rewrite (register_cached _ _ _ _ _ Hi Ha) in H. }
    destruct (new_object k d) as [o|e0] eqn:Ho.
    + exfalso. destruct (register_new _ _ s _ _ Hi Ha Ho) as (bs & o' & Hreg & _).
      by rewrite Hreg in H.
    + rewrite (register_invalid _ _ _ _ _ Hi Ha Ho) in H. injection H as <- <-.
      split_and!; [by eapply new_object_error|done|]. by intros ? [= <-].
  - revert H. unfold register. rewrite bind_eq. unfold getitem. rewrite Hi. simpl.
    exec. by intros [= <- <-].
  - revert H. unfold register. rewrite bind_eq. unfold getitem. rewrite Hi. simpl.
    exec. by intros [= <- <-].
Qed.

Lemma failed_registration_changes_nothing_witness :
  users (sync_data (final Sample.staff_and_ops)) !! "u9" = None.
Proof.
  destruct (failed_registration_changes_nothing User (strip_none Sample.nameless)
              (final Sample.staff_and_ops) (final Sample.staff_and_ops)
              (ValidationError "GraphUser" [FieldError missing ["displayName"]])
              [Validate User (strip_none Sample.nameless)]) as [_ H]; [by_vm|].
  change (strip_none Sample.nameless !! "id") with (Some (JStr "u9")) in H.
  destruct H as (_ & _ & H). by apply H.
Defined.

(** ** Names that are passed over, and the order of the lookups *)

(** X15 -- answers that are passed over.  A name is passed over like one
    that matches no group when the answer to its lookup has no ["value"],
    and when its one match is an empty object: the iteration looks the name
    up and does nothing else, and the outcome of a run is the outcome of the
    run without that name. *)
Theorem empty_answers_skipped (self : session) (name : string) :
  groups_by_name self name = Body None
  ∨ groups_by_name self name = Body (Some [∅]) →
  (∀ s, group_body self name s = (Return tt s, [Lookup name]))
  ∧ ∀ pre post,
      (get_objects_for_sync self (pre ++ name :: post)).1
      = (get_objects_for_sync self (pre ++ post)).1.
Proof.
  intros H.
  assert (Hbody : ∀ s, group_body self name s = (Return tt s, [Lookup name])).
  { intros s. unfold group_body. rewrite bind_eq. destruct H as [H|H].
    - unfold open_group. by rewrite bind_eq, get_group_by_name_eq, H.
    - rewrite (open_group_eq self name s ∅ H).
      by rewrite bool_decide_eq_true_2 by by rewrite map_size_empty. }
  split; [done|]. intros pre post. apply get_objects_for_sync_outcome.
  unfold groups_loop. by apply (for_each_skip _ _ _ _ [Lookup name]).
Qed.

Lemma empty_answers_skipped_witness :
  (get_objects_for_sync Sample_faults.no_answer ["Staff"; "Void"; "Ops"]).1
  = (get_objects_for_sync Sample_faults.no_answer ["Staff"; "Ops"]).1.
Proof.
  destruct (empty_answers_skipped Sample_faults.no_answer "Void") as [_ H].
  - right. by_vm.
  - apply (H ["Staff"] ["Ops"]).
Defined.

Lemma lookups_app (ev1 ev2 : list event) :
  lookups (ev1 ++ ev2) = lookups ev1 ++ lookups ev2.
Proof. apply omap_app. Qed.

Lemma groups_loop_lookups (self : session) (names : list string) (s : state) :
  lookups (groups_loop self names s).2 `prefix_of` names
  ∧ (∀ s', (groups_loop self names s).1 = Return tt s' →
           lookups (groups_loop self names s).2 = names)
  ∧ (names ≠ [] → lookups (groups_loop self names s).2 ≠ []).
Proof.
  revert s. induction names as [|name names IH]; intros s; [by split_and!|].
  unfold groups_loop in *. simpl. rewrite bind_eq.
  pose proof (group_body_lookups self name s) as Hb.
  destruct (group_body self name s) as [[[] s1|e s1] ev1]; simpl in *.
  - destruct (IH s1) as (Hpre & Hret & _).
    destruct (for_each names (group_body self) s1) as [o ev2]. simpl in *.
    rewrite lookups_app, Hb. split_and!.
    + by apply prefix_cons.
    + intros s' Ho. f_equal. by eapply Hret.
    + done.
  - rewrite Hb. split_and!; [|done|done]. apply prefix_cons, prefix_nil.
Qed.

(** X16 -- the order of the lookups.  In every run the names that are
    looked up are a prefix of the given names, in their order, each
    occurrence once; the first name is always looked up, and a run that
    returns has looked up every name. *)
Theorem lookups_in_order (self : session) (group_names : list string) :
  lookups (get_objects_for_sync self group_names).2 `prefix_of` group_names
  ∧ (group_names ≠ [] → lookups (get_objects_for_sync self group_names).2 ≠ [])
  ∧ ∀ sd s, (get_objects_for_sync self group_names).1 = Return sd s →
            lookups (get_objects_for_sync self group_names).2 = group_names.
Proof.
  destruct (groups_loop_lookups self group_names initial) as (Hpre & Hret & Hne).
  unfold get_objects_for_sync. rewrite bind_eq.
  destruct (groups_loop self group_names initial) as [[[] s1|e s1] ev1]; simpl in *.
  - rewrite app_nil_r. split_and!; [done|done|]. intros _ _ _. by eapply Hret.
  - by split_and!.
Qed.

(** ** What the steps keep *)

Lemma link_heap_inv (group : addr) (key : string) (obj : addr) (s : state)
    (a : addr) (o' : object) :
  heap (link group key obj s) !! a = Some o' →
  ∃ o, heap s !! a = Some o ∧ object_id o' = object_id o ∧ kind_of o' = kind_of o.
Proof.
  unfold link. destruct (heap s !! group) as [og|] eqn:Hg; [|by eauto].
  destruct og as [| |g|]; try by eauto.
  destruct (GraphGroup.members g) as [ms|] eqn:Hms; [|by eauto]. simpl.
  destruct (decide (a = group)) as [->|Hne].
  - rewrite list_lookup_insert_eq by (by eapply lookup_lt_Some).
    intros [= <-]. by exists (OGroup g).
  - rewrite list_lookup_insert_ne by done. eauto.
Qed.

Lemma step_dedup (s s' : state) : step s s' → dedup s → dedup s'.
Proof.
  intros [k i o s0 Hnone Hk Hi _|a i s0 _|group i a s0 _] Hd b ob; simpl.
  - intros Hb. apply lookup_app_Some in Hb as [Hb|[Hlen Hb]].
    + destruct (Hd _ _ Hb) as (kb & Hkb & Hmb). exists kb. split; [done|].
      rewrite mapping_insert_lookup_other; [done|]. intros [= <- Hib]. rewrite Hib in Hnone.
      by pose proof (eq_trans (eq_sym Hnone) Hmb).
    + apply list_lookup_singleton_Some in Hb as [Hb ->]. exists k. split; [done|].
      rewrite Hi, mapping_insert_lookup. f_equal. lia.
  - apply Hd.
  - intros Hb. destruct (link_heap_inv _ _ _ _ _ _ Hb) as (o & Ho & Hi & Hk).
    destruct (Hd _ _ Ho) as (kb & Hkb & Hmb). exists kb.
    destruct (link_mapping group i a s0) as [-> _]. split; congruence.
Qed.

Lemma dedup_initial : dedup initial.
Proof. intros a o. simpl. by rewrite lookup_nil. Qed.

Lemma grows_refl (s : state) : grows s s.
Proof.
  split_and!; [done| |eauto].
  intros a o Ho. exists o. split; [done|]. destruct o; eauto.
Qed.

Lemma grows_trans (s1 s2 s3 : state) : grows s1 s2 → grows s2 s3 → grows s1 s3.
Proof.
  intros (H1 & H1' & H1'') (H2 & H2' & H2''). split_and!; [eauto| |].
  - intros a o Ho. destruct (H1' _ _ Ho) as (o' & Ho' & Hoo').
    destruct (H2' _ _ Ho') as (o'' & Ho'' & Hoo''). exists o''. split; [done|].
    destruct o; try (subst o'; exact Hoo'').
    destruct Hoo' as (g' & -> & ? & ?). destruct Hoo'' as (g'' & -> & ? & ?).
    exists g''. split_and!; congruence.
  - intros ga ms Hms. destruct (H1'' _ _ Hms) as (ms' & Hms' & Hsub).
    destruct (H2'' _ _ Hms') as (ms'' & Hms'' & Hsub'). exists ms''.
    split; [done|]. set_solver.
Qed.

Lemma step_grows (s s' : state) : step s s' → grows s s'.
Proof.
  intros [k i o s0 Hnone Hk Hi _|a i s0 _|group i a s0 _].
  - split_and!; simpl.
    + intros k' j a' H. rewrite mapping_insert_lookup_other; [done|].
      intros [= -> ->]. congruence.
    + intros a' o' Ho'. exists o'. rewrite (lookup_app_l_Some _ _ _ _ Ho').
      split; [done|]. destruct o'; eauto.
    + intros ga ms. unfold members_at. simpl.
      destruct (heap s0 !! ga) as [og|] eqn:Hg; [|done].
      rewrite (lookup_app_l_Some _ _ _ _ Hg). eauto.
  - exact (grows_refl s0).
  - destruct (link_mapping group i a s0) as [Hsd _]. split_and!.
    + by rewrite Hsd.
    + intros b o Ho. unfold link.
      destruct (heap s0 !! group) as [og|] eqn:Hg;
        [|exists o; split; [done|destruct o; eauto]].
      destruct og as [| |g|]; try (exists o; split; [done|destruct o; eauto]).
      destruct (GraphGroup.members g) as [ms|] eqn:Hms;
        [|exists o; split; [done|destruct o; eauto]].
      simpl. destruct (decide (b = group)) as [->|Hne].
      * rewrite list_lookup_insert_eq by (by eapply lookup_lt_Some).
        pose proof (eq_trans (eq_sym Hg) Ho) as [= <-]. eexists. split; [done|]. eauto.
      * rewrite list_lookup_insert_ne by done. exists o. split; [done|]. destruct o; eauto.
    + intros ga ms Hms. rewrite members_at_link, Hms. case_decide; simpl.
      * eexists. split; [done|]. set_solver.
      * eauto.
Qed.

Lemma steps_grows (s s' : state) : rtc step s s' → grows s s'.
Proof.
  induction 1 as [|s1 s2 s3 H12 _ IH]; [apply grows_refl|].
  eapply grows_trans; [by apply step_grows|done].
Qed.

Lemma steps_dedup (s s' : state) : rtc step s s' → dedup s → dedup s'.
Proof. induction 1; eauto using step_dedup. Qed.

(** X17 -- one object per class and id.  When no record that the
    directory answers has a ['members'] entry, then however a run ends,
    every object that validation has made is stored in the mapping of its
    class, under its own [id]; hence two such objects of the same class
    never have the same [id]: no record is validated into a second object
    for an id that is registered. *)
Theorem one_object_per_id (self : session) (group_names : list string) :
  without_members self →
  dedup (final (get_objects_for_sync self group_names))
  ∧ ∀ a b oa ob,
      heap (final (get_objects_for_sync self group_names)) !! a = Some oa →
      heap (final (get_objects_for_sync self group_names)) !! b = Some ob →
      kind_of oa = kind_of ob → object_id oa = object_id ob → a = b.
Proof.
  intros Hself.
  assert (Hd : dedup (final (get_objects_for_sync self group_names))).
  { eapply steps_dedup; [by apply get_objects_for_sync_steps|apply dedup_initial]. }
  split; [done|]. intros a b oa ob Ha Hb Hk Hi.
  destruct (Hd _ _ Ha) as (ka & Hka & Hma). destruct (Hd _ _ Hb) as (kb & Hkb & Hmb).
  rewrite Hk, Hkb in Hka. injection Hka as <-. rewrite Hi in Hma. congruence.
Qed.

Lemma one_object_per_id_witness : dedup (final Sample.staff_and_ops).
Proof.
  by destruct (one_object_per_id Sample.directory ["Staff"; "Ops"]
                 directory_without_members) as [H _].
Defined.

(** X18 -- later names only add.  When no record that the directory
    answers has a ['members'] entry and the run over some names returns,
    the run over these names followed by others goes through the same
    requests and validations first, and ends, whether it returns or raises,
    in a state that has grown from the result: every key of every mapping
    still names the same object, users and service principals are as they
    were, and every group has its id, its display name and at least the
    member keys it had. *)
Theorem later_names_only_add (self : session) (pre post : list string)
    (sd : GraphSyncObject) (s : state) (ev : list event) :
  without_members self →
  get_objects_for_sync self pre = (Return sd s, ev) →
  grows s (final (get_objects_for_sync self (pre ++ post)))
  ∧ ev `prefix_of` (get_objects_for_sync self (pre ++ post)).2.
Proof.
  intros Hself H. pose proof (get_objects_for_sync_linked self Hself pre) as Hl.
  unfold final in Hl. rewrite H in Hl. simpl in Hl.
  apply get_objects_for_sync_Return_inv in H as (Hpre & _ & Hinv).
  assert (Hrun : groups_loop self (pre ++ post) initial
                 = ((groups_loop self post s).1, ev ++ (groups_loop self post s).2)).
  { unfold groups_loop in *. rewrite for_each_app, bind_eq, Hpre.
    by destruct (for_each post (group_body self) s). }
  split.
  - rewrite final_get_objects_for_sync. unfold final at 1. rewrite Hrun. simpl.
    apply steps_grows. by apply (changes_groups_loop self Hself post s).
  - unfold get_objects_for_sync. rewrite bind_eq, Hrun.
    destruct (groups_loop self post s) as [[[] s'|e s'] ev']; simpl.
    + rewrite app_nil_r. by apply prefix_app_r.
    + by apply prefix_app_r.
Qed.

Lemma later_names_only_add_witness :
  grows (final (get_objects_for_sync Sample.directory ["Staff"]))
        (final (get_objects_for_sync Sample.directory (["Staff"] ++ ["Ops"]))).
Proof.
  destruct (later_names_only_add Sample.directory ["Staff"] ["Ops"]
              (sync_data (final (get_objects_for_sync Sample.directory ["Staff"])))
              (final (get_objects_for_sync Sample.directory ["Staff"]))
              (get_objects_for_sync Sample.directory ["Staff"]).2) as [H _];
    [apply directory_without_members|by_vm|].
  exact H.
Defined.

(** X19 -- nothing is recorded as an error.  Whatever the directory
    answers and however the run ends, the error list is empty in the end:
    a registration routine returns an entity or raises, it never returns
    an exception, so the branch that appends to the list is never taken. *)
Theorem errors_never_recorded (self : session) (group_names : list string) :
  errors (sync_data (final (get_objects_for_sync self group_names))) = [].
Proof.
  pose proof (get_objects_for_sync_inv self group_names) as H. unfold final.
  destruct (get_objects_for_sync self group_names).1; [destruct H as [H _]|destruct H as [_ H]];
    by apply inv_errors.
Qed.

(** ** Members that are linked *)

Lemma for_each_Return_split {A} (l1 l2 : list A) (x : A) (body : A → M unit)
    (s0 s : state) (ev : list event) :
  for_each (l1 ++ x :: l2) body s0 = (Return tt s, ev) →
  ∃ s1 s2 ev1 ev2 ev3,
    for_each l1 body s0 = (Return tt s1, ev1)
    ∧ body x s1 = (Return tt s2, ev2)
    ∧ for_each l2 body s2 = (Return tt s, ev3).
Proof.
  rewrite for_each_app, bind_eq.
  destruct (for_each l1 body s0) as [[[] s1|e s1] ev1] eqn:E1; [|done]. simpl.
  rewrite bind_eq.
  destruct (body x s1) as [[[] s2|e s2] ev2] eqn:E2; [|done].
  destruct (for_each l2 body s2) as [[[] s3|e s3] ev3] eqn:E3; [|done].
  intros [= <- _]. exists s1, s2, ev1, ev2, ev3. by rewrite E2, E3.
Qed.

(** What the loop body has done when it returns from a member with a
    recognized tag that the run has come to. *)
Lemma member_body_Return_linked (group : addr) (m : record) (s s' : state)
    (ev : list event) (k : kind) (i : string) (ms : gmap string addr) :
  inv s → members_at s group = Some ms → no_members m →
  registration m = Some (k, i) →
  member_body group m s = (Return tt s', ev) →
  ∃ a, mapping k (sync_data s') !! i = Some a
       ∧ members_at s' group = Some (<[i := a]> ms).
Proof.
  intros Hinv Hms Hm Hreg Hbody.
  assert (strip_none m !! "members" = None) as Hm' by by apply strip_none_None.
  unfold registration in Hreg.
  destruct (strip_none m !! "@odata.type") as [t|] eqn:Ht; [|done].
  destruct (strip_none m !! "id") as [[| | | |j| |]|] eqn:Hid; try done.
  destruct (tag_kind t) as [k'|] eqn:Hk; [|done]. injection Hreg as -> ->.
  apply tag_kind_Some in Hk as ->.
  destruct (mapping k (sync_data s) !! i) as [a|] eqn:Ha.
  - rewrite (member_body_cached _ _ _ _ _ _ _ Hinv Hms Ht Hid Ha) in Hbody.
    injection Hbody as <- _. exists a. destruct (link_mapping group i a (bind_r a s)) as [-> _].
    split; [done|]. rewrite members_at_link, decide_True by done.
    change (members_at (bind_r a s) group) with (members_at s group). by rewrite Hms.
  - destruct (new_object k (strip_none m)) as [o|e] eqn:Ho;
      [|by rewrite (member_body_invalid _ _ _ _ _ _ Ht Hid Ha Ho) in Hbody].
    rewrite (member_body_fresh _ _ _ _ _ _ _ Hms (λ _, Hm') Ht Hid Ha Ho) in Hbody.
    injection Hbody as <- _. exists (length (heap s)).
    destruct (link_mapping group i (length (heap s)) (store k i o s)) as [-> _].
    split; [apply mapping_insert_lookup|].
    rewrite members_at_link, decide_True by done. unfold store.
    by rewrite (members_at_app s [o] _ _ group ms Hms).
Qed.

Section Linked.
Variable self : session.
Hypothesis Hself : without_members self.

(** A run that returns has come to every member of every group that a
    name resolves to, has returned from it, and has gone on from there by
    steps of the three kinds. *)
Lemma returns_reaches (pre post : list string) (name : string) (x m : record)
    (gi : string) (s : state) (ev : list event) :
  groups_loop self (pre ++ name :: post) initial = (Return tt s, ev) →
  groups_by_name self name = Body (Some [x]) →
  x !! "id" = Some (JStr gi) →
  m ∈ members_for self name →
  ∃ group mpre mpost s0 ev0 s1 ev1,
    reaches self pre name group mpre m mpost s0 ev0
    ∧ mapping Group (sync_data s0) !! gi = Some group
    ∧ member_body group m s0 = (Return tt s1, ev1)
    ∧ rtc step s0 s1 ∧ rtc step s1 s.
Proof.
  intros Hrun Hx Hgi Hm. unfold groups_loop in Hrun.
  apply for_each_Return_split in Hrun
    as (s1 & s2 & ev1 & ev2 & ev3 & Hpre & Hbody & Hpost).
  pose proof (triple_groups_loop self pre initial inv_initial I) as Ht1.
  pose proof (changes_groups_loop self Hself pre initial inv_initial linked_initial I) as Hc1.
  unfold groups_loop, final in Ht1, Hc1. rewrite Hpre in Ht1, Hc1. simpl in Ht1, Hc1.
  destruct Ht1 as (Hinv1 & _). pose proof (steps_linked _ _ Hc1 linked_initial) as Hl1.
  unfold group_body in Hbody. rewrite bind_eq in Hbody.
  pose proof (triple_open_group self (λ _, True) name s1 Hinv1 I) as Ht2.
  pose proof (changes_open_group self Hself (λ _, True) name s1 Hinv1 Hl1 I) as Hc2.
  unfold final in Hc2.
  destruct (open_group self name s1) as [[[[group gms]|] s1'|e s1'] evo] eqn:Hopen;
    simpl in Ht2, Hc2, Hbody; [| |done].
  2: { apply open_group_None in Hopen as (_ & _ & Hnil). rewrite Hnil in Hm.
       by apply elem_of_nil in Hm. }
  destruct Ht2 as (Hinv2 & _ & Hgroup). pose proof (steps_linked _ _ Hc2 Hl1) as Hl2.
  destruct (open_group_Return _ _ _ _ _ _ _ Hopen)
    as (x' & gid & evr & Hx' & Hsize & Hid & Hgms & Hreg & _).
  rewrite Hx in Hx'. injection Hx' as <-. rewrite Hgi in Hid. injection Hid as <-.
  assert (Hfor : members_for self name = default [] gms).
  { unfold members_for. rewrite Hx, bool_decide_eq_false_2, Hgi, Hgms by done.
    by destruct gms. }
  destruct gms as [ms|]; [|rewrite Hfor in Hm; by apply elem_of_nil in Hm].
  simpl in Hfor. rewrite Hfor in Hm.
  apply list_elem_of_split in Hm as (mpre & mpost & ->).
  destruct (members_loop group (Some (mpre ++ m :: mpost)) s1') as [[[] s2'|e s2'] evm] eqn:Hloop;
    simpl in Hbody; [|done].
  injection Hbody as <- _. simpl in Hloop.
  apply for_each_Return_split in Hloop as (sa & sb & eva & evb & evc & Hmpre & Hmb & Hmpost).
  assert (Hreach : reaches self pre name group mpre m mpost sa (ev1 ++ evo ++ eva)).
  { exists s1, ev1, s1', evo, eva. by split_and!. }
  destruct (reaches_inv self _ _ _ _ _ _ _ _ Hreach) as (Hinva & Hga).
  destruct (reaches_linked self Hself _ _ _ _ _ _ _ _ Hreach) as (Hla & Hnm & _).
  pose proof (changes_member_body group m Hnm sa Hinva Hla Hga) as Hcb.
  pose proof (triple_member_body group m sa Hinva Hga) as Htb.
  unfold final in Hcb. rewrite Hmb in Hcb, Htb. simpl in Hcb, Htb.
  destruct Htb as (Hinvb & Hextb & _). pose proof (steps_linked _ _ Hcb Hla) as Hlb.
  assert (Hgb : group_registered group sb).
  { destruct Hga as [gj Hgj]. exists gj. by apply Hextb. }
  assert (Hpostm : Forall no_members mpost).
  { destruct Hself as [_ Hmembers]. specialize (Hmembers _ _ Hgms).
    apply Forall_app in Hmembers as [_ Hmembers]. by apply Forall_cons in Hmembers as [_ ?]. }
  assert (Hall : ∀ l, Some mpost = Some l → Forall no_members l) by by intros ? [= <-].
  pose proof (changes_members_loop group (Some mpost) Hall sb Hinvb Hlb Hgb) as Hcc.
  pose proof (triple_members_for_each group mpost sb Hinvb Hgb) as Htc.
  unfold final in Hcc. simpl in Hcc. rewrite Hmpost in Hcc, Htc. simpl in Hcc, Htc.
  destruct Htc as (Hinv2' & _). pose proof (steps_linked _ _ Hcc Hlb) as Hl2'.
  pose proof (changes_groups_loop self Hself post s2' Hinv2' Hl2' I) as Hcd.
  unfold groups_loop, final in Hcd. rewrite Hpost in Hcd. simpl in Hcd.
  exists group, mpre, mpost, sa, (ev1 ++ evo ++ eva), sb, evb. split_and!; try done.
  - destruct (register_Return_inv _ _ _ _ _ _ Hreg) as (j & Hj & Hgroup' & _).
    rewrite Hgi in Hj. injection Hj as <-.
    assert (Hallpre : ∀ l, Some mpre = Some l → Forall no_members l).
    { intros ? [= <-]. destruct Hself as [_ Hmembers]. specialize (Hmembers _ _ Hgms).
      by apply Forall_app in Hmembers as [? _]. }
    pose proof (triple_members_for_each group mpre s1' Hinv2 Hgroup) as Hta.
    rewrite Hmpre in Hta. destruct Hta as (_ & (Hext & _) & _). by apply (Hext Group).
  - by etrans.
Qed.
End Linked.

(** X20 -- the members of a group.  When no record that the directory
    answers has a ['members'] entry and the run returns, then for every
    given name that resolves to one group, and every member record that the
    directory lists for that group and that has one of the three type tags
    and a string id: the group is registered under its own id, the member
    is registered under its id in the mapping that its type tag selects,
    and the members mapping of the group holds under the member's id an
    object that is registered under that id: the member's own entity,
    unless another kind of entity has the same id. *)
Theorem recognized_members_linked (self : session) (group_names : list string)
    (sd : GraphSyncObject) (s : state) (ev : list event) (name : string) (x m : record)
    (gi : string) (k : kind) (i : string) :
  without_members self →
  get_objects_for_sync self group_names = (Return sd s, ev) →
  name ∈ group_names →
  groups_by_name self name = Body (Some [x]) →
  x !! "id" = Some (JStr gi) →
  m ∈ members_for self name →
  registration m = Some (k, i) →
  ∃ ga a a' msf,
    groups sd !! gi = Some ga
    ∧ mapping k sd !! i = Some a
    ∧ members_at s ga = Some msf
    ∧ msf !! i = Some a'
    ∧ registered s i a'
    ∧ ((∀ k', k' ≠ k → mapping k' sd !! i = None) → a' = a).
Proof.
  intros Hself Hrun Hname Hx Hgi Hm Hreg.
  destruct (get_objects_for_sync_Return_inv self _ _ _ _ Hrun) as (Hloop & -> & Hinv).
  pose proof (get_objects_for_sync_linked self Hself group_names) as Hl.
  unfold final in Hl. rewrite Hrun in Hl. simpl in Hl.
  apply list_elem_of_split in Hname as (pre & post & ->).
  destruct (returns_reaches self Hself _ _ _ _ _ _ _ _ Hloop Hx Hgi Hm)
    as (group & mpre & mpost & s0 & ev0 & s1 & ev1 & Hreach & Hgroup & Hbody & H01 & H1).
  destruct (reaches_inv self _ _ _ _ _ _ _ _ Hreach) as (Hinv0 & _).
  destruct (reaches_linked self Hself _ _ _ _ _ _ _ _ Hreach) as (_ & Hnm & ms & Hms).
  destruct (member_body_Return_linked _ _ _ _ _ _ _ _ Hinv0 Hms Hnm Hreg Hbody)
    as (a & Ha & Hat).
  destruct (steps_grows _ _ H1) as (Hmap1 & _ & Hmem1).
  assert (H0 : rtc step s0 s) by (by etrans).
  destruct (steps_grows _ _ H0) as (Hmap0 & _).
  destruct (Hmem1 _ _ Hat) as (msf & Hmsf & Hdom).
  assert (Hi : i ∈ dom msf). { apply Hdom. set_solver. }
  apply elem_of_dom in Hi as [a' Ha'].
  assert (Hra : registered s i a').
  { apply members_at_Some in Hmsf as (g & Hg & Hgm).
    destruct (Hl _ _ Hg) as (ms' & Hms' & Hall). rewrite Hgm in Hms'.
    injection Hms' as <-. by apply Hall. }
  exists group, a, a', msf. split_and!; try done.
  - by apply (Hmap0 Group).
  - by apply Hmap1.
  - intros Hother. apply registered_iff in Hra as [k' Hk'].
    destruct (decide (k' = k)) as [->|Hne].
    + pose proof (Hmap1 _ _ _ Ha) as Ha2.
      pose proof (eq_trans (eq_sym Hk') Ha2) as Heq. by injection Heq.
    + rewrite (Hother k' Hne) in Hk'. discriminate.
Qed.

Lemma recognized_members_linked_witness :
  ∃ ga a a' msf,
    groups (sync_data (final Sample.staff_and_ops)) !! "g1" = Some ga
    ∧ mapping User (sync_data (final Sample.staff_and_ops)) !! "u2" = Some a
    ∧ members_at (final Sample.staff_and_ops) ga = Some msf
    ∧ msf !! "u2" = Some a'
    ∧ registered (final Sample.staff_and_ops) "u2" a'
    ∧ ((∀ k', k' ≠ User → mapping k' (sync_data (final Sample.staff_and_ops)) !! "u2" = None)
       → a' = a).
Proof.
  apply (recognized_members_linked Sample.directory ["Staff"; "Ops"]
           (sync_data (final Sample.staff_and_ops)) (final Sample.staff_and_ops)
           Sample.staff_and_ops.2 "Staff" (Sample.group "g1" "Staff") Sample.bob).
  - apply directory_without_members.
  - by_vm.
  - apply list_elem_of_here.
  - by_vm.
  - by_vm.
  - assert (Hms : members_for Sample.directory "Staff"
                  = [Sample.ann; Sample.bob; Sample.app; Sample.group "g2" "Ops"]) by by_vm.
    rewrite Hms. apply list_elem_of_further, list_elem_of_here.
  - by_vm.
Defined.
